(** * legal-qa-form: the gateway of [server.js], embedded and verified

    The development follows the second revision of [server.js] (the one
    with the PostgreSQL query log).  JavaScript values are an inductive
    type, strings are sequences of UTF-16 code units, numbers are IEEE
    binary64 floats.  The handlers are written in a small monad that
    threads the process state (the module variable [db] and the database
    behind it), may throw, may stop without an answer (an awaited
    promise that never settles, the process exiting) and records the
    outbound calls it makes.  What the outside world answers (upstream
    bodies, connection and query failures, clocks) is an explicit
    environment argument.  A request is run from its first statement to
    its response; requests interleaved at their [await]s are not
    modelled. *)

From Stdlib Require Import Floats Ascii String NArith ZArith.
From stdpp Require Import base option list numbers strings sorting.

Local Open Scope N_scope.
Set Warnings "-register-all".

(** ** JavaScript strings *)

(** A JavaScript string is a sequence of UTF-16 code units; [length] is
    the [.length] property. *)
Definition jsstring := list N.

(** A string literal of the source (ASCII only). *)
Definition lit (s : string) : jsstring :=
  (λ a, N_of_ascii a) <$> list_ascii_of_string s.
Arguments lit s%_string : simpl never.

Definition str_eqb (a b : jsstring) : bool := bool_decide (a = b).

(** ECMAScript WhiteSpace and LineTerminator code points, the characters
    removed by [String.prototype.trim]. *)
Definition is_space (c : N) : bool :=
  existsb (N.eqb c)
    [9; 10; 11; 12; 13; 32; 160; 5760; 8232; 8233; 8239; 8287; 12288; 65279]
  || ((8192 <=? c) && (c <=? 8202)).

Fixpoint trimStart (s : jsstring) : jsstring :=
  match s with
  | c :: s' => if is_space c then trimStart s' else s
  | [] => []
  end.

Definition trimEnd (s : jsstring) : jsstring := rev (trimStart (rev s)).

(** [s.trim()] *)
Definition trim (s : jsstring) : jsstring := trimEnd (trimStart s).

(** [s.startsWith(p)] *)
Fixpoint startsWith (s p : jsstring) {struct p} : bool :=
  match p, s with
  | [], _ => true
  | c :: p', d :: s' => (c =? d) && startsWith s' p'
  | _ :: _, [] => false
  end.

(** [s.replace(pat, rep)] with a string pattern: the first occurrence of
    [pat] only ([rep] without dollar patterns, as in the source where it is
    the empty string). *)
Fixpoint replace (s pat rep : jsstring) : jsstring :=
  if startsWith s pat then rep ++ drop (length pat) s
  else match s with
       | [] => []
       | c :: s' => c :: replace s' pat rep
       end.

(** [s.split(sep)] for a non-empty separator.  [skip] counts the code
    units of a separator still to be passed over, [cur] is the segment
    being read, reversed. *)
Fixpoint split_go (sep s : jsstring) (skip : nat) (cur : jsstring)
  : list jsstring :=
  match s with
  | [] => [rev cur]
  | c :: s' =>
      match skip with
      | S k => split_go sep s' k cur
      | O =>
          if startsWith s sep
          then rev cur :: split_go sep s' (length sep - 1)%nat []
          else split_go sep s' 0%nat (c :: cur)
      end
  end.

Definition split (s sep : jsstring) : list jsstring := split_go sep s 0%nat [].

(** [s] occurs in [t] as a substring. *)
Definition contains (t s : jsstring) : Prop :=
  ∃ pre post, t = pre ++ s ++ post.

(** ** JavaScript values *)

(** The values that [JSON.parse] and the handlers produce.  An object is
    its own properties in insertion order. *)
Inductive JsVal :=
| JUndefined
| JNull
| JBool (b : bool)
| JNum (x : float)
| JStr (s : jsstring)
| JArr (items : list JsVal)
| JObj (props : list (jsstring * JsVal)).

(** Operations of the platform that the program calls and that are not
    defined in [server.js]. *)
Class Externals := {
  (** ECMAScript [Number::toString] *)
  NumberToString : float → jsstring;
  (** the global [parseFloat], on the string of its argument *)
  parseFloat : jsstring → float;
  (** node-postgres' text encoding of a bound parameter that is neither
      null nor a string *)
  pg_text : JsVal → jsstring;
  (** SQL [AVG] over the values of a column *)
  sql_avg : list (option jsstring) → JsVal;
}.

Definition truthy (v : JsVal) : bool :=
  match v with
  | JUndefined | JNull => false
  | JBool b => b
  | JNum x => negb (PrimFloat.eqb x 0 || PrimFloat.is_nan x)
  | JStr s => negb (bool_decide (s = []))
  | JArr _ | JObj _ => true
  end.

(** [a || b] *)
Definition js_or (a b : JsVal) : JsVal := if truthy a then a else b.

Definition nullish (v : JsVal) : bool :=
  match v with JUndefined | JNull => true | _ => false end.

Definition is_string (v : JsVal) : bool :=
  match v with JStr _ => true | _ => false end.

Fixpoint assoc (k : jsstring) (props : list (jsstring * JsVal)) : option JsVal :=
  match props with
  | [] => None
  | (k', v) :: rest => if str_eqb k k' then Some v else assoc k rest
  end.

(** ** Exceptions, process state and the handler monad *)

(** How a request can end without its handler returning or throwing. *)
Inductive Halt :=
| NeverSettles    (* an awaited promise is neither resolved nor rejected *)
| ProcessExits.   (* an "error" event without a listener ends the process *)

(** How an evaluation ends: with a value, with a thrown [Error],
    identified by its [message], or, in asynchronous code only, without
    either.  The messages of the engine's own [TypeError]s are given as
    V8 words them. *)
Inductive Res (A : Type) :=
| Ok (a : A)
| Throw (message : jsstring)
| Halted (why : Halt).
Arguments Ok {A} a.
Arguments Throw {A} message.
Arguments Halted {A} why.

Global Instance Res_ret : MRet Res := λ A a, Ok a.
Global Instance Res_bind : MBind Res :=
  λ A B k r,
    match r with Ok a => k a | Throw e => Throw e | Halted h => Halted h end.

(** Whether the ECMAScript [ToString] conversion of a value made by
    [JSON.parse] succeeds.  An object with a [toString] property of its
    own has lost the method of [Object.prototype]: the property is not
    callable, [valueOf] returns the object, and the conversion throws a
    [TypeError].  An array is converted by [join], which converts its
    elements. *)
Fixpoint convertible (v : JsVal) : bool :=
  match v with
  | JArr items =>
      (fix all (l : list JsVal) : bool :=
         match l with
         | [] => true
         | x :: l' => convertible x && all l'
         end) items
  | JObj props => negb (bool_decide (is_Some (assoc (lit "toString") props)))
  | _ => true
  end.

(** The string that the conversion gives when it succeeds.  An array is
    its elements joined by commas, null and undefined elements giving
    the empty string. *)
Fixpoint to_text `{Externals} (v : JsVal) : jsstring :=
  match v with
  | JUndefined => lit "undefined"
  | JNull => lit "null"
  | JBool true => lit "true"
  | JBool false => lit "false"
  | JNum x => NumberToString x
  | JStr s => s
  | JArr items =>
      (fix join (l : list JsVal) : jsstring :=
         match l with
         | [] => []
         | x :: l' =>
             (match x with JUndefined | JNull => [] | _ => to_text x end)
             ++ match l' with [] => [] | _ :: _ => lit "," ++ join l' end
         end) items
  | JObj _ => lit "[object Object]"
  end.

(** The ECMAScript [ToString] conversion (template literals, property
    keys, the argument of [parseFloat]). *)
Definition ToString `{Externals} (v : JsVal) : Res jsstring :=
  if convertible v then Ok (to_text v)
  else Throw (lit "Cannot convert object to primitive value").
Arguments ToString {_} v : simpl never.

(** A node-postgres [Client]: whether its [connect()] has succeeded. *)
Record Client := { connected : bool }.

(** One row of [query_log] (lines 199-216).  The columns filled from
    bound parameters hold the text the driver sent, [None] for SQL NULL.
    The column [source_versions] keeps its default in every row and is
    never read; it is left out. *)
Record Row := {
  row_id : N;
  question : jsstring;
  answer : option jsstring;
  confidence : option jsstring;
  verdict : option jsstring;
  quality_score : option jsstring;
  category : option jsstring;
  complexity : option jsstring;
  citation_count : option jsstring;
  routing : option jsstring;
  processing_time_s : option jsstring;
  feedback : option jsstring;
  created_at : Z;
  stale : bool;
  stale_reason : option jsstring;
}.

(** The PostgreSQL database: the relation [query_log], once created, in
    insertion order, and the sequence behind its [SERIAL] id. *)
Record Server := {
  query_log : option (list Row);
  next_id : N;
}.

(** The process: the module variable [db] (line 191) and the database
    that the connection string designates. *)
Record State := {
  db : option Client;
  server : Server;
}.

(** *** The SQL statements of the program, as syntax *)

Inductive Assign :=
| SetStale (b : bool)
| SetStaleReason (v : JsVal)
| SetFeedback (v : JsVal).

Inductive Cond :=
| StaleIs (b : bool)
| QuestionEq (v : JsVal)
| FeedbackIsNull
| CAnd (a b : Cond).

Inductive OrderBy := CreatedAtDesc.

(** [UPDATE query_log SET ... WHERE ... ORDER BY ... LIMIT ...], the last
    two clauses being optional in the text of a statement. *)
Record UpdateStmt := {
  upd_set : list Assign;
  upd_where : Cond;
  upd_order_by : option OrderBy;
  upd_limit : option nat;
}.

Inductive Stmt :=
| CreateTableIfNotExists                   (* lines 198-217 *)
| InsertLog (params : list JsVal)          (* lines 287-300 *)
| Update (u : UpdateStmt)                  (* lines 335, 357 *)
| SelectRecent (limit : nat)               (* lines 375-377 *)
| SelectStats.                             (* lines 380-386 *)

(** What the handlers do to the outside, in order. *)
Inductive Event :=
| EConnect                  (* [db.connect()] is called *)
| EQuery (s : Stmt)         (* the statement reaches the server *)
| EUpstream (target : jsstring) (payload : JsVal) (timeoutMs : float)
| EConsoleError (label message : jsstring).

(** The answer of the network to one outbound call. *)
Inductive Upstream :=
| UpBody (parsed : option JsVal)   (* a body; [None] when it is not JSON *)
| UpError (message : jsstring)     (* the request emitted "error" *)
| UpTimeout.                       (* the request emitted "timeout" *)

(** What can go wrong with a statement for reasons outside the program. *)
Inductive Fault :=
| Rejected (message : jsstring)  (* the server answers with an error *)
| ConnectionLost.                (* the connection drops before the
                                    statement reaches the server *)

(** Everything a request depends on besides the process state. *)
Record Env := {
  (** the answer to the [n]-th outbound call of the request *)
  upstream : nat → JsVal → Upstream;
  (** whether [db.connect()] succeeds, and its error otherwise *)
  connect_error : option jsstring;
  (** a failure of the given statement for reasons outside the program
      (a value rejected by a column type, a missing privilege, a timeout
      of the statement; the connection dropping), if any *)
  db_fault : Stmt → option Fault;
  (** [new Date().toISOString()] *)
  iso_now : jsstring;
  (** the database's [NOW()] *)
  db_now : Z;
}.

Record Config := {
  QUERY_URL : jsstring;
  INGEST_URL : jsstring;
  QDRANT_URL : jsstring;
  PG_URL : jsstring;
}.

(** A computation of a handler: it reads and writes the process state,
    returns, throws or stops, and leaves a trace. *)
Definition M (A : Type) : Type := State → Res A * State * list Event.

Definition ret {A} (a : A) : M A := λ st, (Ok a, st, []).

Definition throw {A} (message : jsstring) : M A := λ st, (Throw message, st, []).

Definition halt {A} (why : Halt) : M A := λ st, (Halted why, st, []).

Definition bind {A B} (m : M A) (k : A → M B) : M B :=
  λ st,
    match m st with
    | (Ok a, st1, tr1) =>
        match k a st1 with
        | (r, st2, tr2) => (r, st2, tr1 ++ tr2)
        end
    | (Throw e, st1, tr1) => (Throw e, st1, tr1)
    | (Halted h, st1, tr1) => (Halted h, st1, tr1)
    end.

(** [try { m } catch (err) { h err }]: there is nothing to catch when
    [m] stops. *)
Definition try_catch {A} (m : M A) (h : jsstring → M A) : M A :=
  λ st,
    match m st with
    | (Ok a, st1, tr1) => (Ok a, st1, tr1)
    | (Throw e, st1, tr1) =>
        match h e st1 with
        | (r, st2, tr2) => (r, st2, tr1 ++ tr2)
        end
    | (Halted h, st1, tr1) => (Halted h, st1, tr1)
    end.

Definition emit (e : Event) : M unit := λ st, (Ok tt, st, [e]).
Definition get_state : M State := λ st, (Ok st, st, []).
Definition put_state (st : State) : M unit := λ _, (Ok tt, st, []).
Definition lift {A} (r : Res A) : M A := λ st, (r, st, []).

Declare Scope js_scope.
Delimit Scope js_scope with js.
Notation "x <- m ;; k" := (bind m (λ x, k))
  (at level 100, m at next level, right associativity) : js_scope.
Notation "m ;;; k" := (bind m (λ _, k))
  (at level 100, right associativity) : js_scope.
Local Open Scope js_scope.

(** [console.error(label, message)] *)
Definition console_error (label : string) (message : jsstring) : M unit :=
  emit (EConsoleError (lit label) message).

(** [v.name] for the property names the program reads, none of which is
    a member of a built-in prototype: an own property of an object,
    [undefined] on any other value, a [TypeError] on null and undefined. *)
Definition get_prop (v : JsVal) (name : string) : Res JsVal :=
  match v with
  | JUndefined =>
      Throw (lit "Cannot read properties of undefined (reading '"
               ++ lit name ++ lit "')")
  | JNull =>
      Throw (lit "Cannot read properties of null (reading '"
               ++ lit name ++ lit "')")
  | JObj props => Ok (default JUndefined (assoc (lit name) props))
  | _ => Ok JUndefined
  end.

(** [v?.name] *)
Definition get_prop_opt (v : JsVal) (name : string) : Res JsVal :=
  if nullish v then Ok JUndefined else get_prop v name.

(** [v.trim()], where [what] is the text of the expression [v]: only a
    string has the method. *)
Definition call_trim (what : string) (v : JsVal) : Res jsstring :=
  match v with
  | JStr s => Ok (trim s)
  | JUndefined =>
      Throw (lit "Cannot read properties of undefined (reading 'trim')")
  | JNull => Throw (lit "Cannot read properties of null (reading 'trim')")
  | _ => Throw (lit what ++ lit ".trim is not a function")
  end.

Section Gateway.
Context `{Externals}.

(** ** The database *)

(** How node-postgres sends a bound parameter: null and undefined as SQL
    NULL, a string as it is. *)
Definition prepareValue (v : JsVal) : option jsstring :=
  match v with
  | JUndefined | JNull => None
  | JStr s => Some s
  | _ => Some (pg_text v)
  end.

Definition set_stale (b : bool) (reason : option jsstring) (r : Row) : Row :=
  {| row_id := row_id r; question := question r; answer := answer r;
     confidence := confidence r; verdict := verdict r;
     quality_score := quality_score r; category := category r;
     complexity := complexity r; citation_count := citation_count r;
     routing := routing r; processing_time_s := processing_time_s r;
     feedback := feedback r; created_at := created_at r;
     stale := b; stale_reason := reason |}.

Definition set_feedback (fb : option jsstring) (r : Row) : Row :=
  {| row_id := row_id r; question := question r; answer := answer r;
     confidence := confidence r; verdict := verdict r;
     quality_score := quality_score r; category := category r;
     complexity := complexity r; citation_count := citation_count r;
     routing := routing r; processing_time_s := processing_time_s r;
     feedback := fb; created_at := created_at r;
     stale := stale r; stale_reason := stale_reason r |}.

Definition apply_assign (r : Row) (a : Assign) : Row :=
  match a with
  | SetStale b => set_stale b (stale_reason r) r
  | SetStaleReason v => set_stale (stale r) (prepareValue v) r
  | SetFeedback v => set_feedback (prepareValue v) r
  end.

(** A comparison with NULL is not true. *)
Fixpoint eval_cond (c : Cond) (r : Row) : bool :=
  match c with
  | StaleIs b => bool_decide (stale r = b)
  | QuestionEq v =>
      match prepareValue v with
      | Some s => str_eqb (question r) s
      | None => false
      end
  | FeedbackIsNull => bool_decide (feedback r = None)
  | CAnd a b => eval_cond a r && eval_cond b r
  end.

Record Stats := {
  total : nat;
  stale_count : nat;
  thumbs_up : nat;
  thumbs_down : nat;
  avg_quality : JsVal;
  avg_time : JsVal;
}.

Inductive QueryResult :=
| QDone
| QRows (rows : list Row)
| QStats (stats : Stats).

Fixpoint insert_newest (r : Row) (sorted : list Row) : list Row :=
  match sorted with
  | [] => [r]
  | r' :: rest =>
      if (created_at r <? created_at r')%Z then r' :: insert_newest r rest
      else r :: sorted
  end.

(** [ORDER BY created_at DESC] *)
Definition newest_first (rows : list Row) : list Row :=
  foldr insert_newest [] rows.

Definition count_rows (p : Row → bool) (rows : list Row) : nat :=
  length (filter (λ r, p r = true) rows).

Definition stats_of (rows : list Row) : Stats :=
  {| total := length rows;
     stale_count := count_rows stale rows;
     thumbs_up :=
       count_rows (λ r, bool_decide (feedback r = Some (lit "up"))) rows;
     thumbs_down :=
       count_rows (λ r, bool_decide (feedback r = Some (lit "down"))) rows;
     avg_quality := sql_avg (quality_score <$> rows);
     avg_time := sql_avg (processing_time_s <$> rows) |}.

Definition relation_missing {A} : Res A :=
  Throw (lit "relation query_log does not exist").

(** PostgreSQL executing one statement at time [now].  Its [UPDATE] has
    the clauses SET, FROM, WHERE and RETURNING: a statement with
    ORDER BY or LIMIT after the WHERE clause does not parse, whatever
    the state of the database. *)
Definition pg_exec (now : Z) (s : Stmt) (srv : Server)
  : Res (QueryResult * Server) :=
  match s with
  | CreateTableIfNotExists =>
      Ok (QDone, {| query_log := Some (default [] (query_log srv));
                    next_id := next_id srv |})
  | InsertLog [p1; p2; p3; p4; p5; p6; p7; p8; p9; p10] =>
      match query_log srv, prepareValue p1 with
      | None, _ => relation_missing
      | Some _, None =>
          Throw (lit "null value in column question violates not-null constraint")
      | Some rows, Some q =>
          let r := {| row_id := next_id srv; question := q;
                      answer := prepareValue p2;
                      confidence := prepareValue p3;
                      verdict := prepareValue p4;
                      quality_score := prepareValue p5;
                      category := prepareValue p6;
                      complexity := prepareValue p7;
                      citation_count := prepareValue p8;
                      routing := prepareValue p9;
                      processing_time_s := prepareValue p10;
                      feedback := None; created_at := now;
                      stale := false; stale_reason := None |} in
          Ok (QDone, {| query_log := Some (rows ++ [r]);
                        next_id := next_id srv + 1 |})
      end
  | InsertLog _ =>
      Throw (lit "bind message supplies the wrong number of parameters")
  | Update u =>
      match upd_order_by u, upd_limit u with
      | None, None =>
          match query_log srv with
          | None => relation_missing
          | Some rows =>
              let upd r :=
                if eval_cond (upd_where u) r
                then foldl apply_assign r (upd_set u) else r in
              Ok (QDone, {| query_log := Some (upd <$> rows);
                            next_id := next_id srv |})
          end
      | Some _, _ => Throw (lit "syntax error at or near ORDER")
      | None, Some _ => Throw (lit "syntax error at or near LIMIT")
      end
  | SelectRecent n =>
      match query_log srv with
      | None => relation_missing
      | Some rows => Ok (QRows (take n (newest_first rows)), srv)
      end
  | SelectStats =>
      match query_log srv with
      | None => relation_missing
      | Some rows => Ok (QStats (stats_of rows), srv)
      end
  end.

(** [await pg.query(...)] on the client [c].  A client whose
    [connect()] has failed keeps the query in its queue, which is never
    run: the promise does not settle.  When the connection drops, the
    client emits "error"; the program has put no listener on it, so the
    process exits. *)
Definition pg_query (c : Client) (env : Env) (s : Stmt) : M QueryResult :=
  if connected c then
    match db_fault env s with
    | Some ConnectionLost => halt ProcessExits
    | Some (Rejected message) => emit (EQuery s) ;;; throw message
    | None =>
        emit (EQuery s) ;;;
        st <- get_state ;;
        match pg_exec (db_now env) s (server st) with
        | Ok (r, srv) => put_state {| db := db st; server := srv |} ;;; ret r
        | Throw message => throw message
        | Halted why => halt why
        end
    end
  else halt NeverSettles.

(** [getDb] (lines 192-219).  The variable [db] is assigned the new
    client before [connect()] is awaited. *)
Definition getDb (cfg : Config) (env : Env) : M (option Client) :=
  st <- get_state ;;
  match db st with
  | Some c => ret (Some c)
  | None =>
      if bool_decide (PG_URL cfg = []) then ret None
      else
        put_state {| db := Some {| connected := false |}; server := server st |} ;;;
        emit EConnect ;;;
        match connect_error env with
        | Some message => throw message
        | None =>
            let c := {| connected := true |} in
            put_state {| db := Some c; server := server st |} ;;;
            _ <- pg_query c env CreateTableIfNotExists ;;
            ret (Some c)
        end
  end.

(** Line 220: the acquisition at start-up, its failure only logged. *)
Definition startup (cfg : Config) (env : Env) : M unit :=
  try_catch (_ <- getDb cfg env ;; ret tt)
            (λ e, console_error "DB init:" e).

(** ** The upstream client *)

(** Line 251: an array body is collapsed to its first element. *)
Definition normalize (parsed : JsVal) : JsVal :=
  match parsed with
  | JArr items => default JUndefined (head items)
  | _ => parsed
  end.

(** [proxyRequest] (lines 223-267), [net] being what the network does
    with this call. *)
Definition proxyRequest (net : Upstream) (targetUrl : jsstring)
    (payload : JsVal) (timeoutMs : float) : M JsVal :=
  emit (EUpstream targetUrl payload timeoutMs) ;;;
  match net with
  | UpBody (Some parsed) => ret (normalize parsed)
  | UpBody None => throw (lit "Invalid response from upstream")
  | UpError message => throw message
  | UpTimeout =>
      throw (lit "Request timed out ("
               ++ NumberToString (timeoutMs / 1000) ++ lit "s)")
  end.

(** ** The HTTP handlers *)

(** A logical document of the catalog (lines 442-449). *)
Record Doc := {
  title : JsVal;
  repo : JsVal;
  document_type : JsVal;
  jurisdictions : JsVal;
  topics : JsVal;
  chunks : nat;
}.

(** Line 459. *)
Record RepoSummary := {
  name : JsVal;
  doc_count : nat;
  total_chunks : nat;
}.

Inductive Body :=
| BJson (v : JsVal)
| BMemory (entries : list Row) (stats : Stats) (total_rows : nat)
| BDocuments (repos : list RepoSummary) (documents : list Doc)
             (total_documents : nat) (all_chunks : nat).

(** What [res.status(...).json(...)] sends.  A handler that ends in a
    throw or that stops sends nothing. *)
Record Response := {
  status : N;
  body : Body;
}.

Definition json (code : N) (v : JsVal) : Response :=
  {| status := code; body := BJson v |}.

Definition error_body (message : jsstring) : JsVal :=
  JObj [(lit "error", JStr message)].

(** The parameters of the INSERT (lines 289-300), evaluated in order. *)
Definition log_params (question result : JsVal) : Res (list JsVal) :=
  t ← call_trim "question" question;
  answer ← get_prop result "answer";
  confidence ← get_prop result "confidence";
  judge_verdict ← get_prop result "judge_verdict";
  judge_quality ← get_prop result "judge_quality";
  category ← get_prop result "category";
  complexity ← get_prop result "complexity";
  citation_count ← get_prop result "citation_count";
  routing ← get_prop result "routing";
  processing_time_s ← get_prop result "processing_time_s";
  seconds ← ToString processing_time_s;
  mret [ JStr t;
         js_or answer (JStr []);
         js_or confidence (JStr (lit "MEDIUM"));
         js_or judge_verdict (JStr (lit "NEEDS_EDIT"));
         js_or judge_quality (JNum 0);
         js_or category (JStr (lit "general"));
         js_or complexity (JStr (lit "complex"));
         js_or citation_count (JNum 0);
         js_or routing (JStr (lit "human_review"));
         js_or (JNum (parseFloat seconds)) (JNum 0) ].

(** Lines 283-305: the log entry, a failure being logged and dropped. *)
Definition log_query (cfg : Config) (env : Env) (question result : JsVal)
  : M unit :=
  try_catch
    (pg <- getDb cfg env ;;
     match pg with
     | Some c =>
         params <- lift (log_params question result) ;;
         _ <- pg_query c env (InsertLog params) ;;
         ret tt
     | None => ret tt
     end)
    (λ dbErr, console_error "DB log error:" dbErr).

(** POST /api/ask (lines 270-312). *)
Definition ask (cfg : Config) (env : Env) (req_body : JsVal) : M Response :=
  question <- lift (get_prop req_body "question") ;;
  too_short <-
    (if truthy question
     then t <- lift (call_trim "question" question) ;;
          ret (bool_decide (length t < 5)%nat)
     else ret true) ;;
  if too_short : bool
  then ret (json 400 (error_body (lit "Question too short")))
  else
    try_catch
      (t <- lift (call_trim "question" question) ;;
       let payload :=
         JObj [ (lit "question", JStr t);
                (lit "channel", JStr (lit "qa-form"));
                (lit "user", JStr (lit "form-user")) ] in
       result <-
         proxyRequest (upstream env 0%nat payload) (QUERY_URL cfg) payload
                      300000 ;;
       log_query cfg env question result ;;;
       ret (json 200 result))
      (λ err,
         console_error "Query error:" err ;;;
         ret (json 502 (error_body err))).

(** The body sent to the ingestion endpoint (lines 321-328). *)
Definition ingest_payload (title type repo content : JsVal) : Res JsVal :=
  t ← call_trim "title" title;
  c ← call_trim "content" content;
  r ← ToString (js_or repo (JStr (lit "general")));
  t' ← call_trim "title" title;
  mret (JObj
    [ (lit "title", JStr t);
      (lit "document_type", js_or type (JStr (lit "policy")));
      (lit "repo", js_or repo (JStr (lit "general")));
      (lit "content", JStr c);
      (lit "source_url", JStr (lit "form://" ++ r ++ lit "/" ++ t'));
      (lit "source", JStr (lit "qa-form")) ]).

(** The statement of line 335 and its parameter (line 336). *)
Definition mark_stale (title : jsstring) (now : jsstring) : Stmt :=
  Update
    {| upd_set :=
         [ SetStale true;
           SetStaleReason
             (JStr (lit "KB updated: " ++ title ++ lit " ingested at " ++ now)) ];
       upd_where := StaleIs false;
       upd_order_by := None;
       upd_limit := None |}.

(** Lines 331-341: the bulk update, a failure being logged and dropped. *)
Definition mark_cached_stale (cfg : Config) (env : Env) (title : JsVal)
  : M unit :=
  try_catch
    (pg <- getDb cfg env ;;
     match pg with
     | Some c =>
         t <- lift (call_trim "title" title) ;;
         _ <- pg_query c env (mark_stale t (iso_now env)) ;;
         ret tt
     | None => ret tt
     end)
    (λ dbErr, console_error "DB stale-mark error:" dbErr).

(** POST /api/ingest (lines 315-348). *)
Definition ingest (cfg : Config) (env : Env) (req_body : JsVal) : M Response :=
  title <- lift (get_prop req_body "title") ;;
  type <- lift (get_prop req_body "type") ;;
  repo <- lift (get_prop req_body "repo") ;;
  content <- lift (get_prop req_body "content") ;;
  if negb (truthy title) || negb (truthy content)
  then ret (json 400 (error_body (lit "Title and content required")))
  else
    try_catch
      (payload <- lift (ingest_payload title type repo content) ;;
       result <-
         proxyRequest (upstream env 0%nat payload) (INGEST_URL cfg) payload
                      180000 ;;
       mark_cached_stale cfg env title ;;;
       ret (json 200 result))
      (λ err,
         console_error "Ingest error:" err ;;;
         ret (json 502 (error_body err))).

(** The statement of line 357 with its parameters (line 358). *)
Definition attach_feedback (feedback question : JsVal) : Stmt :=
  Update
    {| upd_set := [ SetFeedback feedback ];
       upd_where := CAnd (QuestionEq question) FeedbackIsNull;
       upd_order_by := Some CreatedAtDesc;
       upd_limit := Some 1%nat |}.

(** POST /api/feedback (lines 351-365). *)
Definition feedback_handler (cfg : Config) (env : Env) (req_body : JsVal)
  : M Response :=
  question <- lift (get_prop req_body "question") ;;
  feedback <- lift (get_prop req_body "feedback") ;;
  try_catch
    (pg <- getDb cfg env ;;
     match pg with
     | Some c =>
         if truthy question
         then _ <- pg_query c env (attach_feedback feedback question) ;; ret tt
         else ret tt
     | None => ret tt
     end ;;;
     ret (json 200 (JObj [ (lit "ok", JBool true) ])))
    (λ err, ret (json 500 (error_body err))).

(** GET /api/memory (lines 368-397). *)
Definition memory (cfg : Config) (env : Env) : M Response :=
  try_catch
    (pg <- getDb cfg env ;;
     match pg with
     | None =>
         ret (json 200
                (JObj [ (lit "entries", JArr []);
                        (lit "total", JNum 0);
                        (lit "message", JStr (lit "Database not connected")) ]))
     | Some c =>
         rows <- pg_query c env (SelectRecent 100) ;;
         stats <- pg_query c env SelectStats ;;
         match rows, stats with
         | QRows entries, QStats s =>
             ret {| status := 200; body := BMemory entries s (total s) |}
         | _, _ =>
             throw (lit "Cannot read properties of undefined (reading 'total')")
         end
     end)
    (λ err,
       console_error "Memory error:" err ;;;
       ret (json 500 (error_body err))).

(** *** The document catalog *)

(** The request body of one scroll page (lines 407-408). *)
Definition page_payload (offset : JsVal) : JsVal :=
  JObj ([ (lit "limit", JNum 100);
          (lit "with_payload", JBool true);
          (lit "with_vector", JBool false) ]
        ++ if truthy offset then [ (lit "offset", offset) ] else []).

(** Line 416: [result.points || result.result?.points || []]. *)
Definition page_points (result : JsVal) : Res JsVal :=
  a ← get_prop result "points";
  if truthy a then mret a
  else
    r ← get_prop result "result";
    b ← get_prop_opt r "points";
    mret (js_or b (JArr [])).

(** Line 419. *)
Definition next_page_offset (result : JsVal) : Res JsVal :=
  a ← get_prop result "next_page_offset";
  if truthy a then mret a
  else
    r ← get_prop result "result";
    get_prop_opt r "next_page_offset".

Definition is_high_surrogate (c : N) : bool := (55296 <=? c) && (c <=? 56319).
Definition is_low_surrogate (c : N) : bool := (56320 <=? c) && (c <=? 57343).

(** The string iterator: one string per code point. *)
Fixpoint code_points (s : jsstring) : list jsstring :=
  match s with
  | [] => []
  | c :: s' =>
      match s' with
      | d :: s'' =>
          if is_high_surrogate c && is_low_surrogate d
          then [c; d] :: code_points s''
          else [c] :: code_points s'
      | [] => [[c]]
      end
  end.

(** [...points] (line 417): arrays and strings are the iterable values. *)
Definition spread (points : JsVal) : Res (list JsVal) :=
  match points with
  | JArr items => Ok items
  | JStr s => Ok (JStr <$> code_points s)
  | _ =>
      Throw (lit "Spread syntax requires ...iterable[Symbol.iterator] to be a function")
  end.

(** [points.length === 0] *)
Definition length_is_zero (points : JsVal) : bool :=
  match points with
  | JArr items => bool_decide (items = [])
  | JStr s => bool_decide (s = [])
  | _ => false
  end.

Definition scroll_url (cfg : Config) : jsstring :=
  QDRANT_URL cfg ++ lit "/collections/legal_docs/points/scroll".

(** The loop of lines 406-422, with [remaining = maxPages - page].  The
    boolean of the result tells how the loop ended: [true] when its
    condition [page < maxPages] failed, [false] on [break].  The source
    keeps no such value and [documents_handler] drops it. *)
Fixpoint scroll_pages (cfg : Config) (env : Env) (remaining page : nat)
    (offset : JsVal) (allPoints : list JsVal) : M (list JsVal * bool) :=
  match remaining with
  | O => ret (allPoints, true)
  | S remaining' =>
      let payload := page_payload offset in
      result <-
        proxyRequest (upstream env page payload) (scroll_url cfg) payload
                     15000 ;;
      points <- lift (page_points result) ;;
      items <- lift (spread points) ;;
      let allPoints := allPoints ++ items in
      nextOffset <- lift (next_page_offset result) ;;
      if negb (truthy nextOffset) || length_is_zero points
      then ret (allPoints, false)
      else scroll_pages cfg env remaining' (S page) nextOffset allPoints
  end.

Definition maxPages : nat := 20.

(** Lines 430-438: the repo of a point, from its payload [p] and
    [sourceUrl = p.source_url || ""]. *)
Definition derive_repo (p sourceUrl : JsVal) : Res JsVal :=
  match sourceUrl with
  | JStr s =>
      if startsWith s (lit "form://") then
        let parts := split (replace s (lit "form://") []) (lit "/") in
        mret (js_or (JStr (default [] (head parts))) (JStr (lit "general")))
      else if startsWith s (lit "gdrive://") then
        mret (JStr (lit "google-drive"))
      else
        r ← get_prop p "repo";
        mret (if truthy r then r else JStr (lit "ungrouped"))
  | _ => Throw (lit "sourceUrl.startsWith is not a function")
  end.

(** The members of [Object.prototype], which every object made by [{}]
    inherits. *)
Definition proto_names : list jsstring :=
  lit <$> [ "constructor"; "__proto__"; "__defineGetter__";
            "__defineSetter__"; "__lookupGetter__"; "__lookupSetter__";
            "hasOwnProperty"; "isPrototypeOf"; "propertyIsEnumerable";
            "toLocaleString"; "toString"; "valueOf" ]%string.

Definition inherited (k : jsstring) : bool := bool_decide (k ∈ proto_names).

Fixpoint own {V} (k : jsstring) (o : list (jsstring * V)) : option V :=
  match o with
  | [] => None
  | (k', v) :: rest => if str_eqb k k' then Some v else own k rest
  end.

(** [!o[k]] is false when [k] is an own property (its value is an
    object) or an inherited member. *)
Definition has_key {V} (k : jsstring) (o : list (jsstring * V)) : bool :=
  bool_decide (is_Some (own k o)) || inherited k.

(** An update through [o[k]] of the object found there.  Found by
    inheritance, that object is not a property of [o]. *)
Fixpoint update_own {V} (f : V → V) (k : jsstring) (o : list (jsstring * V))
  : list (jsstring * V) :=
  match o with
  | [] => []
  | (k', v) :: rest =>
      if str_eqb k k' then (k', f v) :: rest
      else (k', v) :: update_own f k rest
  end.

Definition digit (c : N) : option N :=
  if (48 <=? c) && (c <=? 57) then Some (c - 48) else None.

(** The array index that a property key denotes, if any: a canonical
    decimal numeral (no leading zero) below 2^32 - 1. *)
Definition array_index (k : jsstring) : option N :=
  match k with
  | [] => None
  | c :: rest =>
      if (c =? 48) && negb (bool_decide (rest = [])) then None
      else
        n ← foldl (λ acc c, a ← acc; d ← digit c; Some (10 * a + d)) (Some 0) k;
        if n <? 4294967295 then Some n else None
  end.

Fixpoint insert_index {V} (i : N) (v : V) (sorted : list (N * V)) : list (N * V) :=
  match sorted with
  | [] => [(i, v)]
  | (j, w) :: rest =>
      if i <? j then (i, v) :: sorted else (j, w) :: insert_index i v rest
  end.

(** [Object.values(o)]: the properties whose keys are array indices
    first, in ascending order, then the others in insertion order. *)
Definition obj_values {V} (o : list (jsstring * V)) : list V :=
  let indexed :=
    foldr (λ kv acc,
             match array_index kv.1 with
             | Some i => insert_index i kv.2 acc
             | None => acc
             end) [] o in
  let named := filter (λ kv, array_index kv.1 = None) o in
  indexed.*2 ++ named.*2.

Definition incr_chunks (d : Doc) : Doc :=
  {| title := title d; repo := repo d; document_type := document_type d;
     jurisdictions := jurisdictions d; topics := topics d;
     chunks := S (chunks d) |}.

(** Line 440: the template literal converts the repo, then the title. *)
Definition doc_key (repo title : JsVal) : Res jsstring :=
  r ← ToString repo;
  t ← ToString title;
  mret (r ++ lit "::" ++ t).

(** The title and repo that lines 427-438 derive for a point. *)
Definition derive (pt : JsVal) : Res (JsVal * JsVal * JsVal) :=
  payload ← get_prop pt "payload";
  let p := js_or payload (JObj []) in
  title0 ← get_prop p "title";
  let title := js_or title0 (JStr (lit "Untitled")) in
  source_url ← get_prop p "source_url";
  let sourceUrl := js_or source_url (JStr []) in
  repo ← derive_repo p sourceUrl;
  mret (p, repo, title).

(** One iteration of the loop of lines 426-452. *)
Definition group_step (docMap : list (jsstring * Doc)) (pt : JsVal)
  : Res (list (jsstring * Doc)) :=
  '(p, repo, title) ← derive pt;
  key ← doc_key repo title;
  docMap ←
    (if has_key key docMap then mret docMap
     else
       document_type ← get_prop p "document_type";
       jurisdictions ← get_prop p "jurisdictions";
       topics ← get_prop p "topics";
       mret (docMap ++
               [ (key,
                  {| title := title; repo := repo;
                     document_type := js_or document_type (JStr (lit "unknown"));
                     jurisdictions := js_or jurisdictions (JArr []);
                     topics := js_or topics (JArr []);
                     chunks := 0 |}) ]));
  mret (update_own incr_chunks key docMap).

Fixpoint group_points (docMap : list (jsstring * Doc)) (points : list JsVal)
  : Res (list (jsstring * Doc)) :=
  match points with
  | [] => Ok docMap
  | pt :: rest => docMap ← group_step docMap pt; group_points docMap rest
  end.

(** One iteration of the loop of lines 457-464, on [repoMap]: the
    property key is the string of [doc.repo]. *)
Definition repo_step (repoMap : list (jsstring * RepoSummary)) (doc : Doc)
  : Res (list (jsstring * RepoSummary)) :=
  key ← ToString (repo doc);
  let repoMap :=
    if has_key key repoMap then repoMap
    else repoMap ++ [ (key, {| name := repo doc; doc_count := 0;
                               total_chunks := 0 |}) ] in
  mret (update_own
          (λ r, {| name := name r; doc_count := S (doc_count r);
                   total_chunks := total_chunks r + chunks doc |})
          key repoMap).

Fixpoint repo_steps (repoMap : list (jsstring * RepoSummary)) (docs : list Doc)
  : Res (list (jsstring * RepoSummary)) :=
  match docs with
  | [] => Ok repoMap
  | doc :: rest => repoMap ← repo_step repoMap doc; repo_steps repoMap rest
  end.

Fixpoint insert_repo (x : RepoSummary) (sorted : list RepoSummary)
  : list RepoSummary :=
  match sorted with
  | [] => [x]
  | y :: rest =>
      if (doc_count x <? doc_count y)%nat then y :: insert_repo x rest
      else x :: sorted
  end.

(** Line 466: [sort] is stable and the comparator orders by descending
    [doc_count]. *)
Definition sort_repos (l : list RepoSummary) : list RepoSummary :=
  foldr insert_repo [] l.

(** Lines 424-473, on the points collected by the scan. *)
Definition catalog (allPoints : list JsVal) : Res Response :=
  docMap ← group_points [] allPoints;
  let documents := obj_values docMap in
  repoMap ← repo_steps [] documents;
  let repos := sort_repos (obj_values repoMap) in
  mret {| status := 200;
          body := BDocuments repos documents (length documents)
                             (length allPoints) |}.

(** GET /api/documents (lines 400-478). *)
Definition documents_handler (cfg : Config) (env : Env) : M Response :=
  try_catch
    (scan <- scroll_pages cfg env maxPages 0 JNull [] ;;
     lift (catalog scan.1))
    (λ err,
       console_error "Documents error:" err ;;;
       ret (json 502 (error_body err))).

(** Line 480. *)
Definition health : M Response :=
  ret (json 200 (JObj [ (lit "status", JStr (lit "ok")) ])).

(** The routes of the application. *)
Inductive Request :=
| PostAsk (req_body : JsVal)
| PostIngest (req_body : JsVal)
| PostFeedback (req_body : JsVal)
| GetMemory
| GetDocuments
| GetHealth.

Definition serve (cfg : Config) (env : Env) (req : Request) : M Response :=
  match req with
  | PostAsk req_body => ask cfg env req_body
  | PostIngest req_body => ingest cfg env req_body
  | PostFeedback req_body => feedback_handler cfg env req_body
  | GetMemory => memory cfg env
  | GetDocuments => documents_handler cfg env
  | GetHealth => health
  end.

End Gateway.

(** * Properties *)

(** A choice of the platform operations for the closed examples below,
    none of which converts a number or runs an aggregate. *)
Definition sample_externals : Externals :=
  {| NumberToString := λ _, lit "0";
     parseFloat := λ _, 0%float;
     pg_text := λ _, [];
     sql_avg := λ _, JNull |}.

(** ** Strings *)

Lemma startsWith_app (p s : jsstring) : startsWith (p ++ s) p = true.
Proof.
  induction p as [|c p IH]; simpl; [done|].
  by rewrite N.eqb_refl.
Qed.

Lemma replace_prefix (s pat rep : jsstring) :
  startsWith s pat = true → replace s pat rep = rep ++ drop (length pat) s.
Proof. intros Hp. destruct s; simpl; by rewrite Hp. Qed.

(** The part of [s] before its first slash. *)
Fixpoint first_segment (s : jsstring) : jsstring :=
  match s with
  | [] => []
  | c :: s' => if c =? 47 then [] else c :: first_segment s'
  end.

Lemma split_go_slash_head (s cur : jsstring) :
  head (split_go (lit "/") s 0 cur) = Some (rev cur ++ first_segment s).
Proof.
  revert cur. induction s as [|c s IH]; intros cur.
  - simpl. by rewrite app_nil_r.
  - cbn [split_go first_segment].
    change (startsWith (c :: s) (lit "/")) with ((47 =? c) && true).
    rewrite andb_true_r, (N.eqb_sym 47 c).
    destruct (c =? 47).
    + simpl. by rewrite app_nil_r.
    + rewrite IH. simpl. by rewrite <- app_assoc.
Qed.

Lemma split_slash_head (s : jsstring) :
  head (split s (lit "/")) = Some (first_segment s).
Proof. unfold split. by rewrite split_go_slash_head. Qed.

Lemma first_segment_app_slash (r s : jsstring) :
  47 ∉ r → first_segment (r ++ lit "/" ++ s) = r.
Proof.
  induction r as [|c r IH]; intros Hr; [done|].
  simpl. destruct (N.eqb_spec c 47) as [->|_].
  - exfalso. apply Hr. left.
  - f_equal. apply IH. intros Hin. apply Hr. by right.
Qed.

(** ** Repo derivation *)

Definition absent_or_string (v : JsVal) : bool := nullish v || is_string v.

(** The precedence as the specification words it, on what the payload
    holds in [source_url] and [repo]. *)
Definition repo_by_precedence (source_url repo : JsVal) : jsstring :=
  let url := match source_url with JStr u => u | _ => [] end in
  if startsWith url (lit "form://") then
    match first_segment (drop 7 url) with
    | [] => lit "general"
    | segment => segment
    end
  else if startsWith url (lit "gdrive://") then lit "google-drive"
  else
    match repo with
    | JStr (c :: r) => c :: r
    | _ => lit "ungrouped"
    end.

Lemma derive_repo_form (p : JsVal) (s : jsstring) :
  startsWith s (lit "form://") = true →
  derive_repo p (JStr s) =
    Ok (JStr match first_segment (drop 7 s) with
             | [] => lit "general"
             | segment => segment
             end).
Proof.
  intros Hs. unfold derive_repo. rewrite Hs.
  rewrite (replace_prefix _ _ _ Hs), split_slash_head. simpl.
  by destruct (first_segment _).
Qed.

Lemma derive_repo_string (p repo : JsVal) (u : jsstring) :
  get_prop p "repo" = Ok repo →
  absent_or_string repo = true →
  derive_repo p (JStr u) = Ok (JStr (repo_by_precedence (JStr u) repo)).
Proof.
  intros Hrepo Hrp. unfold repo_by_precedence.
  destruct (startsWith u (lit "form://")) eqn:Hform.
  - by apply derive_repo_form.
  - unfold derive_repo. rewrite Hform.
    destruct (startsWith u (lit "gdrive://")); [done|].
    rewrite Hrepo. simpl.
    destruct repo as [| | | |r| |]; try done. by destruct r.
Qed.

(** Outside strings: a truthy [source_url] that is not a string has no
    [startsWith], and a truthy [repo] is returned whatever its type. *)
Lemma derive_repo_non_string_url (p sourceUrl : JsVal) :
  is_string sourceUrl = false →
  derive_repo p sourceUrl = Throw (lit "sourceUrl.startsWith is not a function").
Proof. by destruct sourceUrl. Qed.

(** C3, as amended: on a payload whose [source_url] and [repo] are each
    absent or a string, the derivation returns one string, the one the
    precedence names: the first segment after the form marker (or "general" when it
    is empty), else "google-drive" after the drive marker, else a
    non-empty [repo], else "ungrouped". *)
Theorem derive_repo_total_precedence
    (props : list (jsstring * JsVal)) (source_url repo : JsVal) :
  get_prop (JObj props) "source_url" = Ok source_url →
  get_prop (JObj props) "repo" = Ok repo →
  absent_or_string source_url = true →
  absent_or_string repo = true →
  derive_repo (JObj props) (js_or source_url (JStr []))
  = Ok (JStr (repo_by_precedence source_url repo)).
Proof.
  intros _ Hrepo Hsu Hrp.
  destruct source_url as [| | | |u| |]; try done.
  - exact (derive_repo_string _ _ [] Hrepo Hrp).
  - exact (derive_repo_string _ _ [] Hrepo Hrp).
  - destruct u as [|c u].
    + exact (derive_repo_string _ _ [] Hrepo Hrp).
    + exact (derive_repo_string _ _ (c :: u) Hrepo Hrp).
Qed.

Lemma derive_repo_total_precedence_witness :
  derive_repo
    (JObj [ (lit "title", JStr (lit "Policy A"));
            (lit "source_url", JStr (lit "form://acme/Policy A")) ])
    (js_or (JStr (lit "form://acme/Policy A")) (JStr []))
  = Ok (JStr (lit "acme")).
Proof.
  exact (derive_repo_total_precedence
           [ (lit "title", JStr (lit "Policy A"));
             (lit "source_url", JStr (lit "form://acme/Policy A")) ]
           (JStr (lit "form://acme/Policy A")) JUndefined
           eq_refl eq_refl eq_refl eq_refl).
Defined.

(** C3 as stated fails outside strings: a [source_url] that is a number
    has no [startsWith], so the derivation throws and names no repo; a
    [repo] that is an array is returned as it is, which is no string. *)
Lemma derive_repo_untyped_payload :
  let numbered :=
    JObj [ (lit "title", JStr (lit "Policy A")); (lit "source_url", JNum 5) ] in
  let listed :=
    JObj [ (lit "title", JStr (lit "Policy A"));
           (lit "repo", JArr [ JStr (lit "x"); JStr (lit "y") ]) ] in
  get_prop numbered "source_url" = Ok (JNum 5)
  ∧ derive_repo numbered (js_or (JNum 5) (JStr []))
    = Throw (lit "sourceUrl.startsWith is not a function")
  ∧ get_prop listed "source_url" = Ok JUndefined
  ∧ derive_repo listed (js_or JUndefined (JStr []))
    = Ok (JArr [ JStr (lit "x"); JStr (lit "y") ])
  ∧ ¬ (∃ s, derive_repo numbered (js_or (JNum 5) (JStr [])) = Ok (JStr s))
  ∧ ¬ (∃ s, derive_repo listed (js_or JUndefined (JStr [])) = Ok (JStr s)).
Proof.
  intros numbered listed.
  assert (Hn : derive_repo numbered (js_or (JNum 5) (JStr []))
               = Throw (lit "sourceUrl.startsWith is not a function"))
    by (vm_compute; reflexivity).
  assert (Hl : derive_repo listed (js_or JUndefined (JStr []))
               = Ok (JArr [ JStr (lit "x"); JStr (lit "y") ]))
    by (vm_compute; reflexivity).
  split; [reflexivity|]. split; [exact Hn|].
  split; [reflexivity|]. split; [exact Hl|]. split.
  - intros [s Hs]. rewrite Hn in Hs. discriminate Hs.
  - intros [s Hs]. rewrite Hl in Hs. discriminate Hs.
Qed.


(** ** Running a handler *)

Definition result_of {A} (run : Res A * State * list Event) : Res A := run.1.1.
Definition state_of {A} (run : Res A * State * list Event) : State := run.1.2.
Definition trace_of {A} (run : Res A * State * list Event) : list Event := run.2.

Lemma bind_run {A B} (m : M A) (k : A → M B) (st : State) :
  bind m k st =
  match result_of (m st) with
  | Ok a =>
      let next := k a (state_of (m st)) in
      (result_of next, state_of next, trace_of (m st) ++ trace_of next)
  | Throw e => (Throw e, state_of (m st), trace_of (m st))
  | Halted why => (Halted why, state_of (m st), trace_of (m st))
  end.
Proof.
  unfold bind, result_of, state_of, trace_of.
  destruct (m st) as [[[a|e|why] st1] tr1]; simpl; [|done..].
  by destruct (k a st1) as [[??]?].
Qed.

Lemma try_catch_run {A} (m : M A) (h : jsstring → M A) (st : State) :
  try_catch m h st =
  match result_of (m st) with
  | Ok a => (Ok a, state_of (m st), trace_of (m st))
  | Throw e =>
      let next := h e (state_of (m st)) in
      (result_of next, state_of next, trace_of (m st) ++ trace_of next)
  | Halted why => (Halted why, state_of (m st), trace_of (m st))
  end.
Proof.
  unfold try_catch, result_of, state_of, trace_of.
  destruct (m st) as [[[a|e|why] st1] tr1]; simpl; [done| |done].
  by destruct (h e st1) as [[??]?].
Qed.

(** What follows a block whose failure is only logged: the block never
    throws, and the handler goes on unless the block has stopped. *)
Definition after_block {A} (block : Res unit) (a : A) : Res A :=
  match block with
  | Halted why => Halted why
  | _ => Ok a
  end.

Lemma logged_block_never_throws (m : M unit) (label : string) (st : State)
    (e : jsstring) :
  result_of (try_catch m (λ e, console_error label e) st) ≠ Throw e.
Proof.
  rewrite try_catch_run. by destruct (result_of (m st)) as [[]|e'|why].
Qed.

Lemma then_ret_run {A} (block : M unit) (a : A) (st : State) :
  (∀ e, result_of (block st) ≠ Throw e) →
  bind block (λ _, ret a) st
  = (after_block (result_of (block st)) a, state_of (block st),
     trace_of (block st)).
Proof.
  intros Hblock. rewrite bind_run.
  destruct (result_of (block st)) as [[]|e|why];
    cbn [ret result_of state_of trace_of fst snd after_block];
    [by rewrite app_nil_r|by destruct (Hblock e)|done].
Qed.

Lemma log_query_never_throws `{Externals} cfg env question result st e :
  result_of (log_query cfg env question result st) ≠ Throw e.
Proof. apply logged_block_never_throws. Qed.

Lemma mark_cached_stale_never_throws `{Externals} cfg env title st e :
  result_of (mark_cached_stale cfg env title st) ≠ Throw e.
Proof. apply logged_block_never_throws. Qed.

(** ** POST /api/ask *)

(** The body sent to the question-answering endpoint (lines 276-280). *)
Definition ask_payload (q : jsstring) : JsVal :=
  JObj [ (lit "question", JStr (trim q));
         (lit "channel", JStr (lit "qa-form"));
         (lit "user", JStr (lit "form-user")) ].

(** A request that passes the validation calls upstream once, then logs. *)
Lemma ask_valid_run `{Externals} cfg env req_body q st :
  get_prop req_body "question" = Ok (JStr q) →
  (5 ≤ length (trim q))%nat →
  ask cfg env req_body st =
  let call := EUpstream (QUERY_URL cfg) (ask_payload q) 300000 in
  match upstream env 0%nat (ask_payload q) with
  | UpBody (Some parsed) =>
      let logged := log_query cfg env (JStr q) (normalize parsed) st in
      (after_block (result_of logged) (json 200 (normalize parsed)),
       state_of logged, call :: trace_of logged)
  | UpBody None =>
      let e := lit "Invalid response from upstream" in
      (Ok (json 502 (error_body e)), st,
       [call; EConsoleError (lit "Query error:") e])
  | UpError e =>
      (Ok (json 502 (error_body e)), st,
       [call; EConsoleError (lit "Query error:") e])
  | UpTimeout =>
      let e := lit "Request timed out (" ++ NumberToString (300000 / 1000)
               ++ lit "s)" in
      (Ok (json 502 (error_body e)), st,
       [call; EConsoleError (lit "Query error:") e])
  end.
Proof.
  intros Hq Hlen.
  assert (Hq' : truthy (JStr q) = true).
  { destruct q; [|done]. simpl in Hlen. lia. }
  unfold ask. rewrite Hq.
  rewrite bind_run. cbn [lift result_of state_of trace_of fst snd].
  rewrite Hq'. rewrite bind_run.
  cbn [lift result_of state_of trace_of fst snd call_trim].
  rewrite bind_run. cbn [lift ret result_of state_of trace_of fst snd].
  rewrite bool_decide_eq_false_2 by lia.
  rewrite try_catch_run, bind_run.
  cbn [lift ret result_of state_of trace_of fst snd call_trim app].
  rewrite bind_run. fold (ask_payload q).
  unfold proxyRequest at 1 2 3.
  destruct (upstream env 0%nat (ask_payload q)) as [[parsed|]|e|]; try reflexivity.
  cbn -[log_query].
  rewrite (then_ret_run _ _ _ (log_query_never_throws _ _ _ _ _)).
  cbn [result_of state_of trace_of fst snd app].
  by destruct (result_of (log_query _ _ _ _ _)) as [[]|e|why].
Qed.

Definition too_short_response : Response :=
  json 400 (error_body (lit "Question too short")).

Lemma ask_rejected_run `{Externals} cfg env req_body question st :
  get_prop req_body "question" = Ok question →
  truthy question = false
  ∨ (∃ q, question = JStr q ∧ (length (trim q) < 5)%nat) →
  ask cfg env req_body st = (Ok too_short_response, st, []).
Proof.
  intros Hq Hcase. unfold ask. rewrite Hq.
  rewrite bind_run. cbn [lift result_of state_of trace_of fst snd].
  destruct (truthy question) eqn:Htruthy.
  - destruct Hcase as [?|(q & -> & Hlen)]; [done|].
    rewrite bind_run. cbn [lift result_of state_of trace_of fst snd call_trim].
    rewrite bind_run. cbn [lift ret result_of state_of trace_of fst snd].
    by rewrite bool_decide_eq_true_2 by lia.
  - by rewrite bind_run.
Qed.

Lemma ask_throws_run `{Externals} cfg env req_body question st :
  get_prop req_body "question" = Ok question →
  truthy question = true → is_string question = false →
  ask cfg env req_body st
  = (Throw (lit "question.trim is not a function"), st, []).
Proof.
  intros Hq Htruthy Hstr. unfold ask. rewrite Hq.
  rewrite bind_run. cbn [lift result_of state_of trace_of fst snd].
  rewrite Htruthy, bind_run. rewrite bind_run.
  by destruct question.
Qed.

Lemma ask_no_body_run `{Externals} cfg env req_body e st :
  get_prop req_body "question" = Throw e →
  ask cfg env req_body st = (Throw e, st, []).
Proof. intros Hq. unfold ask. rewrite Hq. by rewrite bind_run. Qed.

(** C10: a [question] that is truthy and not a string makes the handler
    throw at [question.trim()] before any call or response, so neither
    the 400 nor a 502 is sent; for a [question] that is falsy or a
    string, the 400 is sent exactly when it is falsy or shorter than
    five characters once trimmed. *)
Theorem ask_validation_partial `{Externals} cfg env req_body question st :
  get_prop req_body "question" = Ok question →
  (truthy question = true → is_string question = false →
   ∃ e, ask cfg env req_body st = (Throw e, st, []))
  ∧ (truthy question = false ∨ is_string question = true →
     (ask cfg env req_body st = (Ok too_short_response, st, [])
      ↔ truthy question = false
        ∨ ∃ q, question = JStr q ∧ (length (trim q) < 5)%nat)).
Proof.
  intros Hq. split.
  - intros Ht Hs. eexists. by apply (ask_throws_run _ _ _ question).
  - intros Hdom. split; [|by apply (ask_rejected_run _ _ _ question)].
    intros Hrun. destruct (truthy question) eqn:Ht; [right|by left].
    destruct Hdom as [?|Hs]; [done|].
    destruct question as [| | | |q| |]; try done.
    exists q. split; [done|].
    destruct (decide (length (trim q) < 5)%nat) as [|Hlen]; [done|].
    rewrite (ask_valid_run cfg env req_body q st Hq) in Hrun by lia.
    cbv zeta in Hrun.
    destruct (upstream env 0%nat (ask_payload q)) as [[?|]|?|]; done.
Qed.

Lemma ask_validation_partial_witness :
  let env := {| upstream := λ _ _, UpTimeout; connect_error := None;
                db_fault := λ _, None; iso_now := []; db_now := 0 |} in
  let cfg := {| QUERY_URL := []; INGEST_URL := []; QDRANT_URL := [];
                PG_URL := [] |} in
  let st := {| db := None;
               server := {| query_log := None; next_id := 1 |} |} in
  ∃ e, ask (H := sample_externals) cfg env
           (JObj [ (lit "question", JNum 12345) ]) st
       = (Throw e, st, []).
Proof.
  intros env cfg st.
  exact (proj1 (ask_validation_partial (H := sample_externals) cfg env
                  (JObj [ (lit "question", JNum 12345) ]) (JNum 12345) st
                  eq_refl)
               eq_refl eq_refl).
Defined.

(** ** The database handle *)

(** The database answers every statement. *)
Lemma pg_exec_settles `{Externals} now s srv why :
  pg_exec now s srv ≠ Halted why.
Proof. unfold pg_exec, relation_missing. by repeat case_match. Qed.

Lemma pg_query_run `{Externals} (c : Client) (env : Env) (s : Stmt) (st : State) :
  pg_query c env s st =
  if connected c then
    match db_fault env s with
    | Some ConnectionLost => (Halted ProcessExits, st, [])
    | Some (Rejected message) => (Throw message, st, [EQuery s])
    | None =>
        match pg_exec (db_now env) s (server st) with
        | Ok (r, srv) => (Ok r, {| db := db st; server := srv |}, [EQuery s])
        | Throw message => (Throw message, st, [EQuery s])
        | Halted why => (Halted why, st, [EQuery s])
        end
    end
  else (Halted NeverSettles, st, []).
Proof.
  unfold pg_query. destruct (connected c); [|done].
  destruct (db_fault env s) as [[message|]|]; [done..|].
  unfold bind, emit, get_state.
  by destruct (pg_exec _ _ _) as [[r srv]|e|why].
Qed.

(** The database after [CREATE TABLE IF NOT EXISTS]. *)
Definition with_table (srv : Server) : Server :=
  {| query_log := Some (default [] (query_log srv)); next_id := next_id srv |}.

Lemma getDb_run `{Externals} (cfg : Config) (env : Env) (st : State) :
  getDb cfg env st =
  match db st with
  | Some c => (Ok (Some c), st, [])
  | None =>
      if bool_decide (PG_URL cfg = []) then (Ok None, st, [])
      else
        match connect_error env with
        | Some message =>
            (Throw message,
             {| db := Some {| connected := false |}; server := server st |},
             [EConnect])
        | None =>
            let c := {| connected := true |} in
            match db_fault env CreateTableIfNotExists with
            | Some (Rejected message) =>
                (Throw message, {| db := Some c; server := server st |},
                 [EConnect; EQuery CreateTableIfNotExists])
            | Some ConnectionLost =>
                (Halted ProcessExits, {| db := Some c; server := server st |},
                 [EConnect])
            | None =>
                (Ok (Some c), {| db := Some c; server := with_table (server st) |},
                 [EConnect; EQuery CreateTableIfNotExists])
            end
        end
  end.
Proof.
  unfold getDb. rewrite bind_run.
  cbn [get_state result_of state_of trace_of fst snd app].
  destruct (db st) as [c|]; [done|].
  destruct (bool_decide (PG_URL cfg = [])); [done|].
  rewrite bind_run. cbn [put_state result_of state_of trace_of fst snd app].
  rewrite bind_run. cbn [emit result_of state_of trace_of fst snd app].
  destruct (connect_error env) as [message|]; [done|].
  rewrite bind_run. cbn [put_state result_of state_of trace_of fst snd app].
  rewrite bind_run, pg_query_run. cbn [connected].
  by destruct (db_fault env CreateTableIfNotExists) as [[message|]|].
Qed.

(** C6 (the code departs from the claim): [db] is assigned before the
    connection is established, so after an acquisition whose [connect()]
    failed, every later acquisition returns that same unconnected
    client and makes no new attempt to connect, whatever the database
    would answer by then. *)
Theorem getDb_keeps_failed_handle `{Externals}
    (cfg : Config) (env later : Env) (srv : Server) (message : jsstring) :
  PG_URL cfg ≠ [] →
  connect_error env = Some message →
  let failed := getDb cfg env {| db := None; server := srv |} in
  result_of failed = Throw message
  ∧ trace_of failed = [EConnect]
  ∧ getDb cfg later (state_of failed)
    = (Ok (Some {| connected := false |}), state_of failed, []).
Proof.
  intros Hurl Hconn failed. subst failed.
  rewrite (getDb_run cfg env). cbn [db].
  rewrite bool_decide_eq_false_2 by done.
  rewrite Hconn. cbn [result_of state_of trace_of fst snd].
  by rewrite getDb_run.
Qed.

Definition sample_config : Config :=
  {| QUERY_URL := lit "https://qa.example/webhook";
     INGEST_URL := lit "https://qa.example/ingest";
     QDRANT_URL := lit "http://qdrant.example:6333";
     PG_URL := lit "postgres://db.example/qa" |}.

(** An environment in which nothing fails and upstream answers every
    call with the object [{}]. *)
Definition calm_env : Env :=
  {| upstream := λ _ _, UpBody (Some (JObj []));
     connect_error := None;
     db_fault := λ _, None;
     iso_now := lit "2024-05-01T10:00:00.000Z";
     db_now := 1000 |}.

Definition refusing_env : Env :=
  {| upstream := λ _ _, UpBody (Some (JObj []));
     connect_error := Some (lit "connect ECONNREFUSED");
     db_fault := λ _, None;
     iso_now := lit "2024-05-01T09:00:00.000Z";
     db_now := 900 |}.

Definition empty_server : Server := {| query_log := None; next_id := 1 |}.

Lemma getDb_keeps_failed_handle_witness :
  let failed :=
    getDb (H := sample_externals) sample_config refusing_env
          {| db := None; server := empty_server |} in
  result_of failed = Throw (lit "connect ECONNREFUSED")
  ∧ trace_of failed = [EConnect]
  ∧ getDb (H := sample_externals) sample_config calm_env (state_of failed)
    = (Ok (Some {| connected := false |}), state_of failed, []).
Proof.
  apply (getDb_keeps_failed_handle (H := sample_externals)
           sample_config refusing_env calm_env empty_server
           (lit "connect ECONNREFUSED")).
  - vm_compute. discriminate.
  - reflexivity.
Defined.

(** ** POST /api/feedback *)

Lemma pg_exec_attach_feedback `{Externals} now feedback question srv :
  pg_exec now (attach_feedback feedback question) srv
  = Throw (lit "syntax error at or near ORDER").
Proof. reflexivity. Qed.

(** C2 (the code departs from the claim): the statement of line 357 puts
    ORDER BY and LIMIT on an UPDATE, which PostgreSQL does not parse.
    With a connected handle in [db], a connection that stays up and a
    truthy question, the handler issues that one statement, no row
    changes, and the response is a 500 carrying the error, whether or
    not a matching row exists. *)
Theorem feedback_update_is_rejected `{Externals}
    (cfg : Config) (env : Env) (req_body question feedback : JsVal)
    (c : Client) (st : State) :
  get_prop req_body "question" = Ok question →
  get_prop req_body "feedback" = Ok feedback →
  truthy question = true →
  db st = Some c →
  connected c = true →
  db_fault env (attach_feedback feedback question) ≠ Some ConnectionLost →
  ∃ message,
    feedback_handler cfg env req_body st
    = (Ok (json 500 (error_body message)), st,
       [EQuery (attach_feedback feedback question)]).
Proof.
  intros Hq Hf Ht Hdb Hc Hup. unfold feedback_handler. rewrite Hq, Hf.
  rewrite bind_run. cbn [lift result_of state_of trace_of fst snd].
  rewrite bind_run. cbn [lift result_of state_of trace_of fst snd].
  rewrite try_catch_run, bind_run, getDb_run, Hdb.
  cbn [result_of state_of trace_of fst snd]. rewrite Ht.
  rewrite bind_run, bind_run, pg_query_run, pg_exec_attach_feedback, Hc.
  destruct (db_fault env _) as [[message|]|]; [by eexists|done|by eexists].
Qed.

Definition sample_row (i : N) (q : string) (at_ : Z) : Row :=
  {| row_id := i; question := lit q; answer := Some (lit "30 days");
     confidence := Some (lit "HIGH"); verdict := Some (lit "APPROVED");
     quality_score := None; category := None; complexity := None;
     citation_count := None; routing := None; processing_time_s := None;
     feedback := None; created_at := at_; stale := false;
     stale_reason := None |}.

Definition connected_state (rows : list Row) : State :=
  {| db := Some {| connected := true |};
     server := {| query_log := Some rows; next_id := 10 |} |}.

Definition feedback_request : JsVal :=
  JObj [ (lit "question", JStr (lit "What is the notice period?"));
         (lit "feedback", JStr (lit "up")) ].

Lemma feedback_update_is_rejected_witness :
  ∃ message,
    feedback_handler (H := sample_externals) sample_config calm_env
      feedback_request
      (connected_state [sample_row 1 "What is the notice period?" 500])
    = (Ok (json 500 (error_body message)),
       connected_state [sample_row 1 "What is the notice period?" 500],
       [EQuery (attach_feedback (JStr (lit "up"))
                                (JStr (lit "What is the notice period?")))]).
Proof.
  apply (feedback_update_is_rejected (H := sample_externals)
           sample_config calm_env feedback_request
           (JStr (lit "What is the notice period?")) (JStr (lit "up"))
           {| connected := true |}
           (connected_state [sample_row 1 "What is the notice period?" 500])).
  - reflexivity.
  - reflexivity.
  - reflexivity.
  - reflexivity.
  - reflexivity.
  - discriminate.
Defined.

(** ** The query log *)

Definition rows_of (srv : Server) : list Row := default [] (query_log srv).

Definition logged_error (label : string) (tr : list Event) : bool :=
  existsb (λ ev, match ev with
                 | EConsoleError l _ => str_eqb l (lit label)
                 | _ => false
                 end) tr.

Definition ran_insert (tr : list Event) : bool :=
  existsb (λ ev, match ev with EQuery (InsertLog _) => true | _ => false end) tr.

(** The INSERT was sent and the logging block caught no error: the
    INSERT being the last step of the block, it succeeded. *)
Definition insert_succeeded (tr : list Event) : bool :=
  ran_insert tr && negb (logged_error "DB log error:" tr).

Lemma log_params_shape `{Externals} (q : jsstring) (result : JsVal) (params : list JsVal) :
  log_params (JStr q) result = Ok params →
  ∃ p2 p3 p4 p5 p6 p7 p8 p9 p10,
    params = [JStr (trim q); p2; p3; p4; p5; p6; p7; p8; p9; p10].
Proof.
  unfold log_params. cbn [call_trim mbind Res_bind].
  destruct result; cbn; try discriminate;
    (destruct (ToString _) as [seconds|e|why]; cbn; [|discriminate..]);
    intros [= <-]; by repeat eexists.
Qed.

Lemma pg_exec_insert `{Externals} now t p2 p3 p4 p5 p6 p7 p8 p9 p10 srv r srv' :
  pg_exec now (InsertLog [JStr t; p2; p3; p4; p5; p6; p7; p8; p9; p10]) srv
  = Ok (r, srv') →
  ∃ row, question row = t ∧ stale row = false ∧ feedback row = None
         ∧ created_at row = now
         ∧ query_log srv' = Some (rows_of srv ++ [row])
         ∧ is_Some (query_log srv).
Proof.
  unfold pg_exec, rows_of. cbn [prepareValue].
  destruct (query_log srv) as [rows|]; [|done].
  intros [= <- <-]. eexists. by repeat split.
Qed.

Lemma log_query_inserted `{Externals} cfg env q result st :
  insert_succeeded (trace_of (log_query cfg env (JStr q) result st)) = true →
  ∃ row, question row = trim q ∧ stale row = false ∧ feedback row = None
         ∧ rows_of (server (state_of (log_query cfg env (JStr q) result st)))
           = rows_of (server st) ++ [row].
Proof.
  unfold log_query. rewrite try_catch_run, bind_run, getDb_run.
  destruct (db st) as [c|] eqn:Hdb.
  - cbn [result_of state_of trace_of fst snd app].
    rewrite bind_run. cbn [lift result_of state_of trace_of fst snd app].
    destruct (log_params (JStr q) result) as [params|e|why] eqn:Hparams; [|done..].
    destruct (log_params_shape _ _ _ Hparams)
      as (p2 & p3 & p4 & p5 & p6 & p7 & p8 & p9 & p10 & ->).
    rewrite bind_run, pg_query_run.
    destruct (connected c); [|done].
    destruct (db_fault env _) as [[?|]|]; [done..|].
    destruct (pg_exec _ _ _) as [[r srv]|e|why] eqn:Hexec;
      [|done|by destruct (pg_exec_settles _ _ _ _ Hexec)].
    intros _. cbn [result_of state_of trace_of fst snd server ret].
    destruct (pg_exec_insert _ _ _ _ _ _ _ _ _ _ _ _ _ _ Hexec)
      as (row & ? & ? & ? & ? & Hrows & ?).
    exists row. unfold rows_of at 1. by rewrite Hrows.
  - destruct (bool_decide (PG_URL cfg = [])); [done|].
    destruct (connect_error env); [done|]. cbv zeta.
    destruct (db_fault env CreateTableIfNotExists) as [[?|]|]; [done..|].
    cbn [result_of state_of trace_of fst snd app].
    rewrite bind_run. cbn [lift result_of state_of trace_of fst snd app].
    destruct (log_params (JStr q) result) as [params|e|why] eqn:Hparams; [|done..].
    destruct (log_params_shape _ _ _ Hparams)
      as (p2 & p3 & p4 & p5 & p6 & p7 & p8 & p9 & p10 & ->).
    rewrite bind_run, pg_query_run. cbn [connected].
    destruct (db_fault env _) as [[?|]|]; [done..|].
    destruct (pg_exec _ _ _) as [[r srv]|e|why] eqn:Hexec;
      [|done|by destruct (pg_exec_settles _ _ _ _ Hexec)].
    intros _. cbn [result_of state_of trace_of fst snd server ret].
    destruct (pg_exec_insert _ _ _ _ _ _ _ _ _ _ _ _ _ _ Hexec)
      as (row & ? & ? & ? & ? & Hrows & ?).
    exists row. unfold rows_of at 1. rewrite Hrows.
    cbn [state_of fst snd server]. by destruct (query_log (server st)).
Qed.

Definition ask_request : JsVal :=
  JObj [ (lit "question", JStr (lit " What is the notice period? ")) ].

Definition answering_env (fault : Stmt → option Fault) : Env :=
  {| upstream := λ _ _,
       UpBody (Some (JArr [ JObj [ (lit "answer", JStr (lit "30 days"));
                                   (lit "confidence", JStr (lit "HIGH")) ] ]));
     connect_error := None;
     db_fault := fault;
     iso_now := lit "2024-05-01T10:00:00.000Z";
     db_now := 1000 |}.

(** The process after a start-up whose [connect()] was refused. *)
Lemma startup_refused_run `{Externals} cfg env srv message :
  PG_URL cfg ≠ [] →
  connect_error env = Some message →
  startup cfg env {| db := None; server := srv |}
  = (Ok tt, {| db := Some {| connected := false |}; server := srv |},
     [EConnect; EConsoleError (lit "DB init:") message]).
Proof.
  intros Hurl Hconn. unfold startup.
  rewrite try_catch_run, bind_run, getDb_run. cbn [db].
  rewrite bool_decide_eq_false_2 by done. by rewrite Hconn.
Qed.

(** C8 (the code departs from the claim): the logging block awaits
    [pg.query] on whatever client [db] holds, and its [catch] sees only
    what that promise rejects with.  After a start-up whose [connect()]
    was refused, [db] holds the unconnected client (see C6): its query
    is never run, the promise never settles, and a valid question whose
    upstream call has succeeded and whose INSERT parameters are built
    gets no response at all, whatever the database would do by then.
    And with a connected client, when the connection drops at the
    INSERT the process exits on the client's "error" event, again
    without a response.  In both cases nothing is logged. *)
Theorem ask_answer_is_lost_with_the_log `{Externals}
    (cfg : Config) (env later : Env) (srv : Server) (message : jsstring)
    (req_body : JsVal) (q : jsstring) (parsed : JsVal) (params : list JsVal) :
  get_prop req_body "question" = Ok (JStr q) →
  (5 ≤ length (trim q))%nat →
  upstream later 0%nat (ask_payload q) = UpBody (Some parsed) →
  log_params (JStr q) (normalize parsed) = Ok params →
  let call := EUpstream (QUERY_URL cfg) (ask_payload q) 300000 in
  (PG_URL cfg ≠ [] →
   connect_error env = Some message →
   let st := state_of (startup cfg env {| db := None; server := srv |}) in
   ask cfg later req_body st = (Halted NeverSettles, st, [call]))
  ∧ (∀ st,
       db st = Some {| connected := true |} →
       db_fault later (InsertLog params) = Some ConnectionLost →
       ask cfg later req_body st = (Halted ProcessExits, st, [call])).
Proof.
  intros Hq Hlen Hup Hparams call. split.
  - intros Hurl Hconn st. subst st.
    rewrite (startup_refused_run cfg env srv message Hurl Hconn).
    cbn [state_of fst snd].
    rewrite (ask_valid_run cfg later req_body q _ Hq Hlen). cbv zeta.
    rewrite Hup. unfold log_query.
    rewrite try_catch_run, bind_run, getDb_run.
    cbn [db result_of state_of trace_of fst snd app].
    rewrite bind_run, Hparams. cbn [lift result_of state_of trace_of fst snd app].
    rewrite bind_run, pg_query_run.
    by cbn [connected result_of state_of trace_of fst snd app after_block].
  - intros st Hdb Hlost.
    rewrite (ask_valid_run cfg later req_body q _ Hq Hlen). cbv zeta.
    rewrite Hup. unfold log_query.
    rewrite try_catch_run, bind_run, getDb_run, Hdb.
    cbn [result_of state_of trace_of fst snd app].
    rewrite bind_run, Hparams. cbn [lift result_of state_of trace_of fst snd app].
    rewrite bind_run, pg_query_run, Hlost.
    by cbn [connected result_of state_of trace_of fst snd app after_block].
Qed.

Lemma ask_answer_is_lost_with_the_log_witness :
  let st :=
    state_of (startup (H := sample_externals) sample_config refusing_env
                {| db := None; server := empty_server |}) in
  ask (H := sample_externals) sample_config (answering_env (λ _, None))
      ask_request st
  = (Halted NeverSettles, st,
     [EUpstream (QUERY_URL sample_config)
                (ask_payload (lit " What is the notice period? ")) 300000]).
Proof.
  apply (ask_answer_is_lost_with_the_log (H := sample_externals)
           sample_config refusing_env (answering_env (λ _, None)) empty_server
           (lit "connect ECONNREFUSED") ask_request
           (lit " What is the notice period? ")
           (JArr [ JObj [ (lit "answer", JStr (lit "30 days"));
                          (lit "confidence", JStr (lit "HIGH")) ] ])
           [ JStr (lit "What is the notice period?");
             JStr (lit "30 days"); JStr (lit "HIGH");
             JStr (lit "NEEDS_EDIT"); JNum 0; JStr (lit "general");
             JStr (lit "complex"); JNum 0; JStr (lit "human_review");
             JNum 0 ]).
  - reflexivity.
  - vm_compute. lia.
  - reflexivity.
  - vm_compute. reflexivity.
  - vm_compute. discriminate.
  - reflexivity.
Defined.

(** C7: a POST /api/ask whose trimmed question has at least five
    characters, whose upstream call succeeds and whose INSERT succeeds,
    leaves the rows that were there unchanged and adds exactly one row,
    whose question is the trimmed question. *)
Theorem ask_logs_one_row `{Externals}
    (cfg : Config) (env : Env) (req_body : JsVal) (q : jsstring)
    (parsed : JsVal) (st : State) :
  get_prop req_body "question" = Ok (JStr q) →
  (5 ≤ length (trim q))%nat →
  upstream env 0%nat (ask_payload q) = UpBody (Some parsed) →
  insert_succeeded (trace_of (ask cfg env req_body st)) = true →
  ∃ row,
    question row = trim q
    ∧ stale row = false
    ∧ rows_of (server (state_of (ask cfg env req_body st)))
      = rows_of (server st) ++ [row].
Proof.
  intros Hq Hlen Hup.
  rewrite (ask_valid_run cfg env req_body q st Hq Hlen). cbv zeta.
  rewrite Hup. cbn [trace_of state_of fst snd].
  intros Hins.
  destruct (log_query_inserted cfg env q (normalize parsed) st Hins)
    as (row & ? & ? & _ & ?).
  by exists row.
Qed.

Lemma ask_logs_one_row_witness :
  ∃ row,
    question row = lit "What is the notice period?"
    ∧ stale row = false
    ∧ rows_of (server (state_of
        (ask (H := sample_externals) sample_config (answering_env (λ _, None))
             ask_request (connected_state [sample_row 1 "An older question" 500]))))
      = [sample_row 1 "An older question" 500] ++ [row].
Proof.
  apply (ask_logs_one_row (H := sample_externals) sample_config
           (answering_env (λ _, None)) ask_request
           (lit " What is the notice period? ")
           (JArr [ JObj [ (lit "answer", JStr (lit "30 days"));
                          (lit "confidence", JStr (lit "HIGH")) ] ])
           (connected_state [sample_row 1 "An older question" 500])).
  - reflexivity.
  - vm_compute. lia.
  - reflexivity.
  - vm_compute. reflexivity.
Defined.

(** ** Staleness *)

(** Every row that is stale [before] is still there [after], at the same
    place, stale and with the same reason. *)
Definition stale_kept (before after : list Row) : Prop :=
  ∀ i r, before !! i = Some r → stale r = true →
    ∃ r', after !! i = Some r' ∧ row_id r' = row_id r
          ∧ stale r' = true ∧ stale_reason r' = stale_reason r.

Lemma stale_kept_refl (rows : list Row) : stale_kept rows rows.
Proof. intros i r Hi Hs. by exists r. Qed.

Lemma stale_kept_trans (a b c : list Row) :
  stale_kept a b → stale_kept b c → stale_kept a c.
Proof.
  intros Hab Hbc i r Hi Hs.
  destruct (Hab i r Hi Hs) as (r' & Hi' & Hid & Hs' & Hr).
  destruct (Hbc i r' Hi' Hs') as (r'' & Hi'' & Hid' & Hs'' & Hr').
  exists r''. repeat split; congruence.
Qed.

(** The statements that the handlers send. *)
Inductive issued : Stmt → Prop :=
| issued_create : issued CreateTableIfNotExists
| issued_insert params : issued (InsertLog params)
| issued_mark_stale title now : issued (mark_stale title now)
| issued_attach_feedback fb q : issued (attach_feedback fb q)
| issued_recent n : issued (SelectRecent n)
| issued_stats : issued SelectStats.

(** What the bulk update of line 335 does to a row. *)
Definition stamp (reason : jsstring) (r : Row) : Row :=
  if stale r then r else set_stale true (Some reason) r.

Definition stale_message (title now : jsstring) : jsstring :=
  lit "KB updated: " ++ title ++ lit " ingested at " ++ now.

Lemma pg_exec_mark_stale `{Externals} at_ title now srv r srv' :
  pg_exec at_ (mark_stale title now) srv = Ok (r, srv') →
  is_Some (query_log srv)
  ∧ rows_of srv' = stamp (stale_message title now) <$> rows_of srv.
Proof.
  unfold pg_exec, rows_of. cbn [mark_stale upd_order_by upd_limit upd_where upd_set].
  destruct (query_log srv) as [rows|]; [|done].
  intros [= <- <-]. split; [done|]. cbn [query_log default].
  apply list_fmap_ext. intros i row _. unfold stamp. cbn [eval_cond].
  destruct (stale row) eqn:Hs; [done|].
  rewrite bool_decide_eq_true_2 by done. reflexivity.
Qed.

Lemma stale_kept_stamp (reason : jsstring) (rows : list Row) :
  stale_kept rows (stamp reason <$> rows).
Proof.
  intros i r Hi Hs. exists r. rewrite list_lookup_fmap, Hi.
  simpl. unfold stamp. by rewrite Hs.
Qed.

Lemma stale_kept_app (rows more : list Row) : stale_kept rows (rows ++ more).
Proof.
  intros i r Hi Hs. exists r. split; [|done].
  by apply lookup_app_l_Some.
Qed.

Lemma pg_exec_keeps_stale `{Externals} now s srv r srv' :
  issued s →
  pg_exec now s srv = Ok (r, srv') →
  stale_kept (rows_of srv) (rows_of srv').
Proof.
  intros Hissued Hexec. destruct Hissued.
  - injection Hexec as <- <-. unfold rows_of. cbn [query_log default].
    destruct (query_log srv); apply stale_kept_refl.
  - assert (Hcases : srv' = srv ∨ ∃ row, query_log srv' = Some (rows_of srv ++ [row])).
    { unfold pg_exec in Hexec. repeat case_match; simplify_eq; try by left.
      right. eexists. unfold rows_of.
      by match goal with Hq : query_log srv = _ |- _ => rewrite Hq end. }
    destruct Hcases as [->|[row Hrows]]; [apply stale_kept_refl|].
    unfold rows_of at 2. rewrite Hrows. apply stale_kept_app.
  - destruct (pg_exec_mark_stale _ _ _ _ _ _ Hexec) as [_ ->].
    apply stale_kept_stamp.
  - by rewrite pg_exec_attach_feedback in Hexec.
  - unfold pg_exec in Hexec. destruct (query_log srv); [|done].
    injection Hexec as <- <-. apply stale_kept_refl.
  - unfold pg_exec in Hexec. destruct (query_log srv); [|done].
    injection Hexec as <- <-. apply stale_kept_refl.
Qed.

(** A computation that keeps stale rows stale, from any state. *)
Definition keeps_stale {A} (m : M A) : Prop :=
  ∀ st, stale_kept (rows_of (server st)) (rows_of (server (state_of (m st)))).

Lemma keeps_ret {A} (a : A) : keeps_stale (ret a).
Proof. intros st. apply stale_kept_refl. Qed.

Lemma keeps_throw {A} (e : jsstring) : keeps_stale (throw (A := A) e).
Proof. intros st. apply stale_kept_refl. Qed.

Lemma keeps_lift {A} (r : Res A) : keeps_stale (lift r).
Proof. intros st. apply stale_kept_refl. Qed.

Lemma keeps_emit (e : Event) : keeps_stale (emit e).
Proof. intros st. apply stale_kept_refl. Qed.

Lemma keeps_console_error (label : string) (e : jsstring) :
  keeps_stale (console_error label e).
Proof. apply keeps_emit. Qed.

Lemma keeps_bind {A B} (m : M A) (k : A → M B) :
  keeps_stale m → (∀ a, keeps_stale (k a)) → keeps_stale (bind m k).
Proof.
  intros Hm Hk st. rewrite bind_run.
  destruct (result_of (m st)) as [a|e|why]; [|apply Hm..].
  eapply stale_kept_trans; [apply Hm|apply Hk].
Qed.

Lemma keeps_try_catch {A} (m : M A) (h : jsstring → M A) :
  keeps_stale m → (∀ e, keeps_stale (h e)) → keeps_stale (try_catch m h).
Proof.
  intros Hm Hh st. rewrite try_catch_run.
  destruct (result_of (m st)) as [a|e|why]; [apply Hm| |apply Hm].
  eapply stale_kept_trans; [apply Hm|apply Hh].
Qed.

Lemma keeps_pg_query `{Externals} c env s : issued s → keeps_stale (pg_query c env s).
Proof.
  intros Hs st. rewrite pg_query_run.
  destruct (connected c); [|apply stale_kept_refl].
  destruct (db_fault env s) as [[?|]|]; [apply stale_kept_refl..|].
  destruct (pg_exec _ _ _) as [[r srv]|e|why] eqn:Hexec; [|apply stale_kept_refl..].
  by apply (pg_exec_keeps_stale _ _ _ _ _ Hs Hexec).
Qed.

Lemma keeps_getDb `{Externals} cfg env : keeps_stale (getDb cfg env).
Proof.
  intros st. rewrite getDb_run.
  destruct (db st); [apply stale_kept_refl|].
  destruct (bool_decide _); [apply stale_kept_refl|].
  destruct (connect_error env); [apply stale_kept_refl|]. cbv zeta.
  destruct (db_fault env _) as [[?|]|]; [apply stale_kept_refl..|].
  cbn [state_of fst snd server]. unfold rows_of, with_table. cbn [query_log].
  destruct (query_log (server st)); apply stale_kept_refl.
Qed.

Lemma keeps_proxyRequest `{Externals} net target payload timeoutMs :
  keeps_stale (proxyRequest net target payload timeoutMs).
Proof.
  apply keeps_bind; [apply keeps_emit|]. intros _.
  destruct net as [[?|]|?|]; first [apply keeps_ret|apply keeps_throw].
Qed.

Ltac keeps_step :=
  first
    [ apply keeps_ret | apply keeps_throw | apply keeps_lift
    | apply keeps_emit | apply keeps_console_error
    | apply keeps_getDb | apply keeps_proxyRequest
    | apply keeps_pg_query; constructor
    | apply keeps_bind; [|intros ?]
    | apply keeps_try_catch; [|intros ?]
    | match goal with
      | |- keeps_stale (match ?x with _ => _ end) => destruct x
      end ].

Lemma keeps_scroll_pages `{Externals} cfg env remaining page offset allPoints :
  keeps_stale (scroll_pages cfg env remaining page offset allPoints).
Proof.
  revert page offset allPoints.
  induction remaining as [|n IH]; intros page offset allPoints; simpl.
  - apply keeps_ret.
  - repeat keeps_step. apply IH.
Qed.

Lemma keeps_serve `{Externals} cfg env req : keeps_stale (serve cfg env req).
Proof.
  destruct req; simpl.
  - unfold ask. repeat keeps_step.
  - unfold ingest. repeat keeps_step.
  - unfold feedback_handler. repeat keeps_step.
  - unfold memory. repeat keeps_step.
  - unfold documents_handler.
    apply keeps_try_catch; [|intros e; repeat keeps_step].
    apply keeps_bind; [apply keeps_scroll_pages|intros scan; apply keeps_lift].
  - apply keeps_ret.
Qed.

Lemma keeps_startup `{Externals} cfg env : keeps_stale (startup cfg env).
Proof. unfold startup. repeat keeps_step. Qed.

(** ** POST /api/ingest *)

Lemma ToString_convertible `{Externals} (v : JsVal) :
  convertible v = true → ToString v = Ok (to_text v).
Proof. intros Hv. unfold ToString. by rewrite Hv. Qed.

Lemma ToString_unconvertible `{Externals} (v : JsVal) :
  convertible v = false →
  ToString v = Throw (lit "Cannot convert object to primitive value").
Proof. intros Hv. unfold ToString. by rewrite Hv. Qed.

Lemma convertible_or_string (v : JsVal) (s : jsstring) :
  convertible (js_or v (JStr s)) = convertible v.
Proof. unfold js_or. destruct (truthy v) eqn:Hv; [done|]. by destruct v. Qed.

(** The body sent to the ingestion endpoint for a title [t] and a
    content [c] that are strings and a repo that has a string. *)
Definition ingest_body `{Externals} (t : jsstring) (type repo : JsVal) (c : jsstring)
  : JsVal :=
  JObj
    [ (lit "title", JStr (trim t));
      (lit "document_type", js_or type (JStr (lit "policy")));
      (lit "repo", js_or repo (JStr (lit "general")));
      (lit "content", JStr (trim c));
      (lit "source_url",
        JStr (lit "form://" ++ to_text (js_or repo (JStr (lit "general")))
                ++ lit "/" ++ trim t));
      (lit "source", JStr (lit "qa-form")) ].

Lemma ingest_payload_strings `{Externals} t type repo c :
  convertible repo = true →
  ingest_payload (JStr t) type repo (JStr c) = Ok (ingest_body t type repo c).
Proof.
  intros Hrepo. unfold ingest_payload. cbn [call_trim mbind Res_bind].
  rewrite ToString_convertible by by rewrite convertible_or_string.
  reflexivity.
Qed.

Lemma ingest_payload_unconvertible `{Externals} t type repo c :
  convertible repo = false →
  ingest_payload (JStr t) type repo (JStr c)
  = Throw (lit "Cannot convert object to primitive value").
Proof.
  intros Hrepo. unfold ingest_payload. cbn [call_trim mbind Res_bind].
  rewrite ToString_unconvertible by by rewrite convertible_or_string.
  reflexivity.
Qed.

(** A request whose title and content are truthy and whose body cannot
    be built: the error of [trim] or of the conversion is answered with
    a 502. *)
Lemma ingest_type_error_run `{Externals} cfg env req_body title type repo content e st :
  get_prop req_body "title" = Ok title →
  get_prop req_body "type" = Ok type →
  get_prop req_body "repo" = Ok repo →
  get_prop req_body "content" = Ok content →
  truthy title = true → truthy content = true →
  ingest_payload title type repo content = Throw e →
  ingest cfg env req_body st
  = (Ok (json 502 (error_body e)), st, [EConsoleError (lit "Ingest error:") e]).
Proof.
  intros Ht Hty Hr Hc Htt Htc He. unfold ingest. rewrite Ht, Hty, Hr, Hc.
  do 4 (rewrite bind_run; cbn [lift result_of state_of trace_of fst snd app]).
  rewrite Htt, Htc. cbn [negb orb].
  rewrite try_catch_run, bind_run, He.
  by cbn [lift console_error bind emit ret result_of state_of trace_of fst snd app].
Qed.

Lemma truthy_string (s : jsstring) : s ≠ [] → truthy (JStr s) = true.
Proof. by destruct s. Qed.

Lemma ingest_valid_run `{Externals} cfg env req_body type repo t c st :
  get_prop req_body "title" = Ok (JStr t) →
  get_prop req_body "type" = Ok type →
  get_prop req_body "repo" = Ok repo →
  get_prop req_body "content" = Ok (JStr c) →
  t ≠ [] → c ≠ [] →
  convertible repo = true →
  ingest cfg env req_body st =
  let payload := ingest_body t type repo c in
  let call := EUpstream (INGEST_URL cfg) payload 180000 in
  match upstream env 0%nat payload with
  | UpBody (Some parsed) =>
      let marked := mark_cached_stale cfg env (JStr t) st in
      (after_block (result_of marked) (json 200 (normalize parsed)),
       state_of marked, call :: trace_of marked)
  | UpBody None =>
      let e := lit "Invalid response from upstream" in
      (Ok (json 502 (error_body e)), st,
       [call; EConsoleError (lit "Ingest error:") e])
  | UpError e =>
      (Ok (json 502 (error_body e)), st,
       [call; EConsoleError (lit "Ingest error:") e])
  | UpTimeout =>
      let e := lit "Request timed out (" ++ NumberToString (180000 / 1000)
               ++ lit "s)" in
      (Ok (json 502 (error_body e)), st,
       [call; EConsoleError (lit "Ingest error:") e])
  end.
Proof.
  intros Ht Hty Hr Hc Htne Hcne Hrepo.
  unfold ingest. rewrite Ht, Hty, Hr, Hc.
  do 4 (rewrite bind_run; cbn [lift result_of state_of trace_of fst snd app]).
  rewrite !truthy_string by done. cbn [negb orb].
  rewrite try_catch_run, bind_run, ingest_payload_strings by done.
  cbn [lift result_of state_of trace_of fst snd app].
  rewrite bind_run. unfold proxyRequest at 1 2 3.
  cbv zeta.
  destruct (upstream env 0%nat _) as [[parsed|]|e|]; try reflexivity.
  cbn -[mark_cached_stale ingest_body].
  rewrite (then_ret_run _ _ _ (mark_cached_stale_never_throws _ _ _ _)).
  cbn [result_of state_of trace_of fst snd app].
  by destruct (result_of (mark_cached_stale _ _ _ _)) as [[]|e|why].
Qed.

Definition ran_update (tr : list Event) : bool :=
  existsb (λ ev, match ev with EQuery (Update _) => true | _ => false end) tr.

(** The UPDATE was sent and the block caught no error: the UPDATE being
    the last step of the block, it succeeded. *)
Definition update_succeeded (tr : list Event) : bool :=
  ran_update tr && negb (logged_error "DB stale-mark error:" tr).

Lemma mark_cached_stale_updated `{Externals} cfg env t st :
  update_succeeded (trace_of (mark_cached_stale cfg env (JStr t) st)) = true →
  result_of (mark_cached_stale cfg env (JStr t) st) = Ok tt
  ∧ rows_of (server (state_of (mark_cached_stale cfg env (JStr t) st)))
    = stamp (stale_message (trim t) (iso_now env)) <$> rows_of (server st).
Proof.
  unfold mark_cached_stale. rewrite try_catch_run, bind_run, getDb_run.
  destruct (db st) as [c|] eqn:Hdb.
  - cbn [result_of state_of trace_of fst snd app].
    rewrite bind_run. cbn [lift call_trim result_of state_of trace_of fst snd app].
    rewrite bind_run, pg_query_run.
    destruct (connected c); [|done].
    destruct (db_fault env _) as [[?|]|]; [done..|].
    destruct (pg_exec _ _ _) as [[r srv]|e|why] eqn:Hexec;
      [|done|by destruct (pg_exec_settles _ _ _ _ Hexec)].
    intros _. cbn [result_of state_of trace_of fst snd server ret].
    split; [done|].
    by destruct (pg_exec_mark_stale _ _ _ _ _ _ Hexec) as [_ ->].
  - destruct (bool_decide (PG_URL cfg = [])); [done|].
    destruct (connect_error env); [done|]. cbv zeta.
    destruct (db_fault env CreateTableIfNotExists) as [[?|]|]; [done..|].
    cbn [result_of state_of trace_of fst snd app].
    rewrite bind_run. cbn [lift call_trim result_of state_of trace_of fst snd app].
    rewrite bind_run, pg_query_run. cbn [connected].
    destruct (db_fault env _) as [[?|]|]; [done..|].
    destruct (pg_exec _ _ _) as [[r srv]|e|why] eqn:Hexec;
      [|done|by destruct (pg_exec_settles _ _ _ _ Hexec)].
    intros _. cbn [result_of state_of trace_of fst snd server ret].
    split; [done|].
    destruct (pg_exec_mark_stale _ _ _ _ _ _ Hexec) as [_ ->].
    cbn [state_of fst snd server]. unfold rows_of, with_table. cbn [query_log].
    by destruct (query_log (server st)).
Qed.

Lemma stale_message_contains (title now : jsstring) :
  contains (stale_message title now) title.
Proof. by exists (lit "KB updated: "), (lit " ingested at " ++ now). Qed.

Lemma stamp_stale (reason : jsstring) (r : Row) : stale (stamp reason r) = true.
Proof. unfold stamp. by destruct (stale r) eqn:Hs. Qed.

(** C1, as amended: when the upstream ingestion call has succeeded and
    the bulk UPDATE has succeeded, then with the 200 response every row
    is stale, a row that was fresh carrying a reason that contains the
    trimmed title and a row that was stale being unchanged; and no
    request and no start-up makes a stale row fresh or changes its
    reason. *)
Theorem ingest_marks_fresh_rows_stale `{Externals}
    (cfg : Config) (env : Env) (req_body type repo : JsVal)
    (t c : jsstring) (parsed : JsVal) (st : State) :
  get_prop req_body "title" = Ok (JStr t) →
  get_prop req_body "type" = Ok type →
  get_prop req_body "repo" = Ok repo →
  get_prop req_body "content" = Ok (JStr c) →
  t ≠ [] → c ≠ [] →
  upstream env 0%nat (ingest_body t type repo c) = UpBody (Some parsed) →
  update_succeeded (trace_of (ingest cfg env req_body st)) = true →
  result_of (ingest cfg env req_body st) = Ok (json 200 (normalize parsed))
  ∧ (∃ reason,
       contains reason (trim t)
       ∧ rows_of (server (state_of (ingest cfg env req_body st)))
         = stamp reason <$> rows_of (server st))
  ∧ (∀ r, r ∈ rows_of (server (state_of (ingest cfg env req_body st))) →
          stale r = true)
  ∧ (∀ cfg' env' req, keeps_stale (serve cfg' env' req))
  ∧ (∀ cfg' env', keeps_stale (startup cfg' env')).
Proof.
  intros Ht Hty Hr Hc Htne Hcne Hup.
  destruct (convertible repo) eqn:Hrepo; cycle 1.
  { rewrite (ingest_type_error_run cfg env req_body (JStr t) type repo (JStr c)
               _ st Ht Hty Hr Hc (truthy_string t Htne) (truthy_string c Hcne)
               (ingest_payload_unconvertible t type repo c Hrepo)).
    done. }
  rewrite (ingest_valid_run cfg env req_body type repo t c st
             Ht Hty Hr Hc Htne Hcne Hrepo).
  cbv zeta. rewrite Hup. cbn [result_of state_of trace_of fst snd].
  intros Hupd.
  destruct (mark_cached_stale_updated cfg env t st Hupd) as [Hres Hrows].
  rewrite Hres. cbn [after_block].
  split; [done|]. split; [|split; [|split]].
  - exists (stale_message (trim t) (iso_now env)).
    split; [apply stale_message_contains|done].
  - intros r. rewrite Hrows. intros (r0 & -> & _)%list_elem_of_fmap.
    apply stamp_stale.
  - intros. apply keeps_serve.
  - intros. apply keeps_startup.
Qed.

Definition ingest_request : JsVal :=
  JObj [ (lit "title", JStr (lit " Policy B "));
         (lit "content", JStr (lit "Notice is thirty days.")) ].

Definition three_fresh_rows : list Row :=
  [ sample_row 1 "What is the notice period?" 500;
    sample_row 2 "Who approves leave requests?" 510;
    sample_row 3 "What is the probation period?" 520 ].

Lemma ingest_marks_fresh_rows_stale_witness :
  ∃ reason,
    contains reason (lit "Policy B")
    ∧ rows_of (server (state_of
        (ingest (H := sample_externals) sample_config calm_env ingest_request
                (connected_state three_fresh_rows))))
      = stamp reason <$> three_fresh_rows.
Proof.
  apply (ingest_marks_fresh_rows_stale (H := sample_externals)
           sample_config calm_env ingest_request JUndefined JUndefined
           (lit " Policy B ") (lit "Notice is thirty days.") (JObj [])
           (connected_state three_fresh_rows)).
  - reflexivity.
  - reflexivity.
  - reflexivity.
  - reflexivity.
  - vm_compute. discriminate.
  - vm_compute. discriminate.
  - reflexivity.
  - vm_compute. reflexivity.
Defined.

(** An environment in which upstream answers and the database rejects
    every statement. *)
Definition faulty_db_env : Env :=
  {| upstream := λ _ _, UpBody (Some (JObj []));
     connect_error := None;
     db_fault := λ _, Some (Rejected (lit "permission denied for table query_log"));
     iso_now := lit "2024-05-01T10:00:00.000Z";
     db_now := 1000 |}.

(** C1 as stated fails: the ingestion succeeds upstream, the bulk UPDATE
    is sent and fails, the failure is logged, the 200 is sent and the
    rows are as fresh as before. *)
Lemma ingest_update_failure_leaves_rows_fresh :
  let run := ingest (H := sample_externals) sample_config faulty_db_env
                    ingest_request (connected_state three_fresh_rows) in
  result_of run = Ok (json 200 (JObj []))
  ∧ ran_update (trace_of run) = true
  ∧ rows_of (server (state_of run)) = three_fresh_rows
  ∧ ¬ (∀ r, r ∈ rows_of (server (state_of run)) → stale r = true).
Proof.
  split; [reflexivity|]. split; [reflexivity|]. split; [reflexivity|].
  intros Hall.
  specialize (Hall (sample_row 1 "What is the notice period?" 500)).
  discriminate Hall. left.
Qed.

(** ** Ingestion and the catalog agree on the repo *)

Lemma derive_repo_of_form_url (p : JsVal) (r rest : jsstring) :
  r ≠ [] → 47 ∉ r →
  derive_repo p (js_or (JStr (lit "form://" ++ r ++ lit "/" ++ rest)) (JStr []))
  = Ok (JStr r).
Proof.
  intros Hne Hslash.
  change (js_or _ _) with (JStr (lit "form://" ++ r ++ lit "/" ++ rest)).
  rewrite derive_repo_form by apply startsWith_app.
  change (drop 7 _) with (r ++ lit "/" ++ rest).
  rewrite first_segment_app_slash by done.
  by destruct r.
Qed.

Lemma general_has_no_slash : 47 ∉ lit "general".
Proof.
  intros Hin. vm_compute in Hin.
  repeat (apply elem_of_cons in Hin as [Hin|Hin]; [done|]).
  by apply elem_of_nil in Hin.
Qed.

(** C9: for a repo that is a non-empty string without a slash, or a
    missing (falsy) repo standing for "general", the [source_url] that
    POST /api/ingest sends upstream is [form://repo/title] with the
    trimmed title, and the catalog's derivation maps it back to that
    repo. *)
Theorem ingest_repo_round_trip `{Externals}
    (cfg : Config) (env : Env) (st : State) (req_body type repo : JsVal)
    (t c expected : jsstring) :
  get_prop req_body "title" = Ok (JStr t) →
  get_prop req_body "type" = Ok type →
  get_prop req_body "repo" = Ok repo →
  get_prop req_body "content" = Ok (JStr c) →
  t ≠ [] → c ≠ [] →
  (repo = JStr expected ∧ expected ≠ [] ∧ 47 ∉ expected)
  ∨ (truthy repo = false ∧ expected = lit "general") →
  ∃ payload rest,
    trace_of (ingest cfg env req_body st)
    = EUpstream (INGEST_URL cfg) payload 180000 :: rest
    ∧ get_prop payload "source_url"
      = Ok (JStr (lit "form://" ++ expected ++ lit "/" ++ trim t))
    ∧ ∀ p,
        derive_repo p
          (js_or (JStr (lit "form://" ++ expected ++ lit "/" ++ trim t))
                 (JStr []))
        = Ok (JStr expected).
Proof.
  intros Ht Hty Hr Hc Htne Hcne Hrepo.
  assert (Hexp : to_text (js_or repo (JStr (lit "general"))) = expected
                 ∧ expected ≠ [] ∧ (47 ∉ expected) ∧ convertible repo = true).
  { destruct Hrepo as [(-> & Hne & Hs)|[Hf ->]].
    - split; [|done]. unfold js_or. simpl. by destruct expected.
    - unfold js_or. rewrite Hf. split; [done|]. split; [done|].
      split; [apply general_has_no_slash|]. by destruct repo. }
  destruct Hexp as (Hts & Hne & Hs & Hconv).
  exists (ingest_body t type repo c).
  rewrite (ingest_valid_run cfg env req_body type repo t c st
             Ht Hty Hr Hc Htne Hcne Hconv).
  cbv zeta.
  assert (Hsu : get_prop (ingest_body t type repo c) "source_url"
                = Ok (JStr (lit "form://" ++ expected ++ lit "/" ++ trim t))).
  { by rewrite <- Hts. }
  destruct (upstream env 0%nat _) as [[parsed|]|e|]; eexists;
    (split; [reflexivity|]); (split; [exact Hsu|]);
    intros p; by apply derive_repo_of_form_url.
Qed.

Lemma ingest_repo_round_trip_witness :
  ∃ payload rest,
    trace_of (ingest (H := sample_externals) sample_config calm_env
                (JObj [ (lit "title", JStr (lit " Policy A "));
                        (lit "repo", JStr (lit "acme"));
                        (lit "content", JStr (lit "Text")) ])
                (connected_state []))
    = EUpstream (INGEST_URL sample_config) payload 180000 :: rest
    ∧ get_prop payload "source_url"
      = Ok (JStr (lit "form://" ++ lit "acme" ++ lit "/" ++ trim (lit " Policy A ")))
    ∧ ∀ p,
        derive_repo p
          (js_or (JStr (lit "form://" ++ lit "acme" ++ lit "/"
                          ++ trim (lit " Policy A ")))
                 (JStr []))
        = Ok (JStr (lit "acme")).
Proof.
  apply (ingest_repo_round_trip (H := sample_externals) sample_config calm_env
           (connected_state [])
           (JObj [ (lit "title", JStr (lit " Policy A "));
                   (lit "repo", JStr (lit "acme"));
                   (lit "content", JStr (lit "Text")) ])
           JUndefined (JStr (lit "acme"))
           (lit " Policy A ") (lit "Text") (lit "acme")).
  - reflexivity.
  - reflexivity.
  - reflexivity.
  - reflexivity.
  - vm_compute. discriminate.
  - vm_compute. discriminate.
  - left. split; [reflexivity|]. split; [vm_compute; discriminate|].
    intros Hin. vm_compute in Hin.
    repeat (apply elem_of_cons in Hin as [Hin|Hin]; [done|]).
    by apply elem_of_nil in Hin.
Defined.

(** ** The scan of GET /api/documents *)

(** *** A scroll answer, as the specification reads it *)

(** [v.name] without the errors: what is absent is undefined. *)
Definition field (name : string) (v : JsVal) : JsVal :=
  match v with
  | JObj props => default JUndefined (assoc (lit name) props)
  | _ => JUndefined
  end.

(** A field of a scroll answer is accepted bare, and otherwise nested
    under a [result] wrapper. *)
Definition bare_or_nested (name : string) (answer : JsVal) : JsVal :=
  if truthy (field name answer) then field name answer
  else field name (field "result" answer).

(** The next-page cursor of an answer. *)
Definition cursor_of (answer : JsVal) : JsVal :=
  bare_or_nested "next_page_offset" answer.

(** The point set of an answer: the array found under [points], the
    empty set when nothing is found there; [None] when what is found is
    not an array. *)
Definition point_set (answer : JsVal) : option (list JsVal) :=
  match bare_or_nested "points" answer with
  | JArr items => Some items
  | v => if truthy v then None else Some []
  end.

(** What is found under [points] has elements: an array, or a string,
    which the spread of line 417 takes character by character. *)
Definition non_empty (points : JsVal) : bool :=
  match points with
  | JArr (_ :: _) | JStr (_ :: _) => true
  | _ => false
  end.

Lemma get_prop_field (v : JsVal) (name : string) :
  nullish v = false → get_prop v name = Ok (field name v).
Proof. by destruct v. Qed.

Lemma get_prop_opt_field (v : JsVal) (name : string) :
  get_prop_opt v name = Ok (field name v).
Proof. by destruct v. Qed.

(** Lines 416 and 419 read the answer as the specification does. *)
Lemma scroll_answer_reading (answer : JsVal) :
  nullish answer = false →
  page_points answer = Ok (js_or (bare_or_nested "points" answer) (JArr []))
  ∧ next_page_offset answer = Ok (cursor_of answer).
Proof.
  intros Hanswer. unfold page_points, next_page_offset, cursor_of, bare_or_nested.
  rewrite !(get_prop_field _ _ Hanswer). cbn [mbind Res_bind mret Res_ret].
  split.
  - destruct (truthy (field "points" answer)) eqn:Hbare.
    + unfold js_or. by rewrite Hbare.
    + by rewrite get_prop_opt_field.
  - destruct (truthy (field "next_page_offset" answer)); [done|].
    by rewrite get_prop_opt_field.
Qed.

Lemma page_points_set (answer : JsVal) (items : list JsVal) :
  nullish answer = false →
  point_set answer = Some items →
  page_points answer = Ok (JArr items).
Proof.
  intros Hanswer Hset.
  rewrite (proj1 (scroll_answer_reading answer Hanswer)).
  unfold point_set in Hset. unfold js_or.
  destruct (bare_or_nested "points" answer) as [| |b|x|str|arr|props];
    cbn [truthy] in *; repeat case_match; by simplify_eq.
Qed.

Lemma non_empty_or_none (v : JsVal) : non_empty (js_or v (JArr [])) = non_empty v.
Proof. unfold js_or. destruct (truthy v) eqn:Hv; [done|]. by destruct v as [| | | |[|??]| |]. Qed.

Lemma spread_non_empty (points : JsVal) :
  non_empty points
  = match spread points with
    | Ok _ => negb (length_is_zero points)
    | _ => false
    end.
Proof. by destruct points as [| | | |[|??]|[|??]|]. Qed.

(** *** The requests of a scan *)

Lemma page_payload_shape (offset : JsVal) :
  get_prop (page_payload offset) "limit" = Ok (JNum 100)
  ∧ get_prop (page_payload offset) "with_payload" = Ok (JBool true)
  ∧ get_prop (page_payload offset) "with_vector" = Ok (JBool false)
  ∧ get_prop (page_payload offset) "offset"
    = Ok (if truthy offset then offset else JUndefined).
Proof.
  unfold page_payload. by destruct (truthy offset).
Qed.

Definition scroll_call (cfg : Config) (offset : JsVal) : Event :=
  EUpstream (scroll_url cfg) (page_payload offset) 15000.

(** The calls of a scan that starts at [page] with the cursor [offset]:
    a call follows another only when the page before answered with a
    non-empty point set and a cursor, each bare or nested under
    [result], and it carries that cursor. *)
Inductive scan_trace (cfg : Config) (env : Env)
  : nat → JsVal → list Event → Prop :=
| scan_none page offset :
    scan_trace cfg env page offset []
| scan_last page offset :
    scan_trace cfg env page offset [scroll_call cfg offset]
| scan_next page offset parsed calls :
    upstream env page (page_payload offset) = UpBody (Some parsed) →
    non_empty (bare_or_nested "points" (normalize parsed)) = true →
    truthy (cursor_of (normalize parsed)) = true →
    scan_trace cfg env (S page) (cursor_of (normalize parsed)) calls →
    scan_trace cfg env page offset (scroll_call cfg offset :: calls).

(** The call fails: no JSON body, a transport error or the timeout. *)
Definition upstream_failed (net : Upstream) : bool :=
  match net with UpBody (Some _) => false | _ => true end.

(** How the vector store answers a scan that starts at [page] with the
    cursor [offset]: the point sets of the pages that follow one another
    by their cursors, up to a page that carries no cursor or no point
    ([complete = true]) or to a call that fails ([complete = false]). *)
Inductive pages_of (env : Env) : nat → JsVal → list (list JsVal) → bool → Prop :=
| pages_last page offset parsed items :
    upstream env page (page_payload offset) = UpBody (Some parsed) →
    nullish (normalize parsed) = false →
    point_set (normalize parsed) = Some items →
    truthy (cursor_of (normalize parsed)) = false ∨ items = [] →
    pages_of env page offset [items] true
| pages_failed page offset :
    upstream_failed (upstream env page (page_payload offset)) = true →
    pages_of env page offset [] false
| pages_more page offset parsed items rest complete :
    upstream env page (page_payload offset) = UpBody (Some parsed) →
    nullish (normalize parsed) = false →
    point_set (normalize parsed) = Some items →
    items ≠ [] →
    truthy (cursor_of (normalize parsed)) = true →
    pages_of env (S page) (cursor_of (normalize parsed)) rest complete →
    pages_of env page offset (items :: rest) complete.

(** The error of line 416 on an answer that is null or undefined. *)
Definition unreadable (answer : JsVal) : jsstring :=
  match answer with
  | JNull => lit "Cannot read properties of null (reading 'points')"
  | _ => lit "Cannot read properties of undefined (reading 'points')"
  end.

Lemma page_points_nullish (answer : JsVal) :
  nullish answer = true → page_points answer = Throw (unreadable answer).
Proof. by destruct answer. Qed.

(** One turn of the loop. *)
Lemma scroll_pages_turn `{Externals} cfg env remaining page offset allPoints st :
  scroll_pages cfg env (S remaining) page offset allPoints st =
  let call := scroll_call cfg offset in
  match upstream env page (page_payload offset) with
  | UpBody (Some parsed) =>
      let answer := normalize parsed in
      let points := js_or (bare_or_nested "points" answer) (JArr []) in
      if nullish answer then (Throw (unreadable answer), st, [call])
      else
        match spread points with
        | Ok items =>
            if negb (truthy (cursor_of answer)) || length_is_zero points
            then (Ok (allPoints ++ items, false), st, [call])
            else
              let rest :=
                scroll_pages cfg env remaining (S page) (cursor_of answer)
                             (allPoints ++ items) st in
              (result_of rest, state_of rest, call :: trace_of rest)
        | Throw e => (Throw e, st, [call])
        | Halted why => (Halted why, st, [call])
        end
  | UpBody None => (Throw (lit "Invalid response from upstream"), st, [call])
  | UpError e => (Throw e, st, [call])
  | UpTimeout =>
      (Throw (lit "Request timed out (" ++ NumberToString (15000 / 1000)
                ++ lit "s)"), st, [call])
  end.
Proof.
  cbn [scroll_pages]. rewrite bind_run.
  destruct (upstream env page (page_payload offset)) as [[parsed|]|e|];
    cbn [proxyRequest bind emit ret throw result_of state_of trace_of fst snd app];
    [|done..].
  rewrite bind_run. cbn [lift result_of state_of trace_of fst snd app].
  cbv zeta. destruct (nullish (normalize parsed)) eqn:Hanswer.
  { by rewrite (page_points_nullish _ Hanswer). }
  destruct (scroll_answer_reading _ Hanswer) as [-> Hcursor].
  rewrite bind_run. cbn [lift result_of state_of trace_of fst snd app].
  destruct (spread _) as [items|e|why]; [|done..].
  rewrite bind_run, Hcursor. cbn [lift result_of state_of trace_of fst snd app].
  by destruct (negb (truthy _) || length_is_zero _).
Qed.

Lemma scroll_pages_trace `{Externals} cfg env remaining page offset allPoints st :
  scan_trace cfg env page offset
    (trace_of (scroll_pages cfg env remaining page offset allPoints st))
  ∧ (length (trace_of (scroll_pages cfg env remaining page offset allPoints st))
     ≤ remaining)%nat.
Proof.
  revert page offset allPoints st.
  induction remaining as [|n IH]; intros page offset allPoints st.
  - split; [apply scan_none|done].
  - rewrite scroll_pages_turn. cbv zeta.
    destruct (upstream env page (page_payload offset)) as [[parsed|]|e|] eqn:Hup;
      try (split; [apply scan_last|simpl; lia]).
    destruct (nullish (normalize parsed)); [split; [apply scan_last|simpl; lia]|].
    pose proof (spread_non_empty
                  (js_or (bare_or_nested "points" (normalize parsed)) (JArr [])))
      as Hne.
    rewrite non_empty_or_none in Hne.
    destruct (spread _) as [items|e|why];
      [|split; [apply scan_last|simpl; lia]..].
    destruct (truthy (cursor_of (normalize parsed))) eqn:Hcursor;
      [|split; [apply scan_last|simpl; lia]].
    destruct (length_is_zero _);
      [split; [apply scan_last|simpl; lia]|].
    cbn [negb orb result_of state_of trace_of fst snd app].
    destruct (IH (S page) (cursor_of (normalize parsed)) (allPoints ++ items) st)
      as [Hscan Hlen].
    split; [|simpl; lia].
    by eapply scan_next.
Qed.


(** A scan of the pages that the store holds collects them all, up to
    the ceiling. *)
Lemma scroll_pages_collects `{Externals} cfg env remaining page offset allPoints st
    pages :
  pages_of env page offset pages true →
  let scan := scroll_pages cfg env remaining page offset allPoints st in
  result_of scan
  = Ok (allPoints ++ concat (take remaining pages),
        bool_decide (remaining < length pages)%nat)
  ∧ state_of scan = st
  ∧ length (trace_of scan) = (remaining `min` length pages)%nat.
Proof.
  cbv zeta. revert page offset allPoints pages.
  induction remaining as [|n IH]; intros page offset allPoints pages Hpages.
  - cbn [scroll_pages ret result_of state_of trace_of fst snd take concat].
    rewrite app_nil_r. split; [|done].
    rewrite bool_decide_eq_true_2; [done|]. inversion Hpages; simpl; lia.
  - rewrite scroll_pages_turn. cbv zeta.
    inversion Hpages
      as [? ? parsed items Hup Hanswer Hset Hstop| |
          ? ? parsed items rest ? Hup Hanswer Hset Hitems Hcursor Hrest];
      subst; rewrite Hup, Hanswer;
      pose proof (page_points_set _ _ Hanswer Hset) as Hpoints;
      rewrite (proj1 (scroll_answer_reading _ Hanswer)) in Hpoints;
      injection Hpoints as ->; cbn [spread length_is_zero].
    + assert (negb (truthy (cursor_of (normalize parsed)))
              || bool_decide (items = []) = true) as ->.
      { destruct Hstop as [->| ->]; [done|]. by rewrite orb_true_r. }
      cbn [result_of state_of trace_of fst snd].
      cbn [take]. rewrite take_nil.
      cbn [concat length]. rewrite app_nil_r.
      split; [|split; [done|lia]].
      by rewrite bool_decide_eq_false_2 by lia.
    + rewrite Hcursor, bool_decide_eq_false_2 by done.
      cbn [negb orb result_of state_of trace_of fst snd take concat length].
      destruct (IH (S page) _ (allPoints ++ items) rest Hrest)
        as (-> & -> & ->).
      split; [|split; [done|lia]]. rewrite <- app_assoc. do 2 f_equal.
      apply bool_decide_ext. lia.
Qed.

(** A scan that meets a failing call throws. *)
Lemma scroll_pages_fails `{Externals} cfg env remaining page offset allPoints st
    pages :
  pages_of env page offset pages false →
  (length pages < remaining)%nat →
  let scan := scroll_pages cfg env remaining page offset allPoints st in
  ∃ message,
    result_of scan = Throw message
    ∧ state_of scan = st
    ∧ length (trace_of scan) = S (length pages).
Proof.
  cbv zeta. revert page offset allPoints pages.
  induction remaining as [|n IH]; intros page offset allPoints pages Hpages Hlen;
    [lia|].
  rewrite scroll_pages_turn. cbv zeta.
  inversion Hpages
    as [|? ? Hfail|
        ? ? parsed items rest ? Hup Hanswer Hset Hitems Hcursor Hrest];
    subst.
  - destruct (upstream env page (page_payload offset)) as [[parsed|]|e|];
      [done|by eexists..].
  - rewrite Hup, Hanswer.
    pose proof (page_points_set _ _ Hanswer Hset) as Hpoints.
    rewrite (proj1 (scroll_answer_reading _ Hanswer)) in Hpoints.
    injection Hpoints as ->. cbn [spread length_is_zero].
    rewrite Hcursor, bool_decide_eq_false_2 by done.
    cbn [negb orb result_of state_of trace_of fst snd length].
    simpl in Hlen.
    destruct (IH (S page) _ (allPoints ++ items) rest Hrest)
      as (message & -> & -> & ->); [lia|].
    by exists message.
Qed.

Lemma documents_handler_run `{Externals} cfg env st :
  documents_handler cfg env st =
  let scan := scroll_pages cfg env maxPages 0 JNull [] st in
  let failed e :=
    (Ok (json 502 (error_body e)), state_of scan,
     trace_of scan ++ [EConsoleError (lit "Documents error:") e]) in
  match result_of scan with
  | Ok (points, _) =>
      match catalog points with
      | Ok response => (Ok response, state_of scan, trace_of scan)
      | Throw e => failed e
      | Halted why => (Halted why, state_of scan, trace_of scan)
      end
  | Throw e => failed e
  | Halted why => (Halted why, state_of scan, trace_of scan)
  end.
Proof.
  unfold documents_handler. rewrite try_catch_run, bind_run. cbv zeta.
  destruct (result_of (scroll_pages _ _ _ _ _ _ _)) as [[points ceiling]|e|why].
  - cbn [lift result_of state_of trace_of fst snd].
    destruct (catalog points) as [response|e|why].
    + by rewrite app_nil_r.
    + cbn [console_error bind emit ret result_of state_of trace_of fst snd app].
      by rewrite !app_nil_r.
    + by rewrite app_nil_r.
  - by cbn [console_error bind emit ret result_of state_of trace_of fst snd app].
  - done.
Qed.

(** C5, as amended: every scroll request asks for 100 points with the
    payload and without the vector, and carries the cursor of the page
    before as its offset; the answer of a page is read for its points
    and its cursor bare first and under [result] otherwise; a request
    follows another only when the page before returned a non-empty
    point set and a cursor, and it does follow then, so that the pages
    the store chains by its cursors are all read, up to twenty; at most
    twenty requests are made; and the response is computed from the
    collected points alone, so that a scan cut at the twentieth page is
    answered like a complete one, with no flag and nothing logged. *)
Theorem documents_scan_is_bounded_and_unflagged `{Externals}
    (cfg : Config) (env : Env) (st : State) :
  let scan := scroll_pages cfg env maxPages 0 JNull [] st in
  (∀ offset,
     get_prop (page_payload offset) "limit" = Ok (JNum 100)
     ∧ get_prop (page_payload offset) "with_payload" = Ok (JBool true)
     ∧ get_prop (page_payload offset) "with_vector" = Ok (JBool false)
     ∧ get_prop (page_payload offset) "offset"
       = Ok (if truthy offset then offset else JUndefined))
  ∧ (∀ answer,
       nullish answer = false →
       page_points answer
       = Ok (js_or (bare_or_nested "points" answer) (JArr []))
       ∧ next_page_offset answer = Ok (cursor_of answer))
  ∧ scan_trace cfg env 0 JNull (trace_of scan)
  ∧ (∀ pages,
       pages_of env 0 JNull pages true →
       result_of scan
       = Ok (concat (take 20 pages), bool_decide (20 < length pages)%nat)
       ∧ length (trace_of scan) = (20 `min` length pages)%nat)
  ∧ (length (trace_of scan) ≤ 20)%nat
  ∧ (∀ points ceiling,
       result_of scan = Ok (points, ceiling) →
       documents_handler cfg env st =
       match catalog points with
       | Ok response => (Ok response, state_of scan, trace_of scan)
       | Throw e =>
           (Ok (json 502 (error_body e)), state_of scan,
            trace_of scan ++ [EConsoleError (lit "Documents error:") e])
       | Halted why => (Halted why, state_of scan, trace_of scan)
       end).
Proof.
  intros scan. split; [apply page_payload_shape|].
  split; [apply scroll_answer_reading|].
  destruct (scroll_pages_trace cfg env maxPages 0 JNull [] st) as [Hscan Hlen].
  split; [done|]. split.
  { intros pages Hpages.
    destruct (scroll_pages_collects cfg env maxPages 0 JNull [] st pages Hpages)
      as (Hres & _ & Htr).
    by split. }
  split; [done|].
  intros points ceiling Hres. rewrite documents_handler_run. cbv zeta.
  fold scan. by rewrite Hres.
Qed.

(** Whether a scan ended because the page ceiling was reached. *)
Definition ceiling_reached (scan : Res (list JsVal * bool) * State * list Event)
  : option bool :=
  match result_of scan with
  | Ok (_, ceiling) => Some ceiling
  | _ => None
  end.

(** A store whose every page holds one point and a cursor. *)
Definition one_point_page (more : bool) : JsVal :=
  JObj ([ (lit "points",
            JArr [ JObj [ (lit "id", JStr (lit "p"));
                          (lit "payload",
                            JObj [ (lit "title", JStr (lit "Policy A"));
                                   (lit "source_url",
                                     JStr (lit "form://acme/Policy A")) ]) ] ]) ]
        ++ if more then [ (lit "next_page_offset", JStr (lit "next")) ] else []).

Definition endless_env : Env :=
  {| upstream := λ _ _, UpBody (Some (one_point_page true));
     connect_error := None; db_fault := λ _, None;
     iso_now := []; db_now := 0 |}.

(** A store of exactly twenty pages: the twentieth has no cursor. *)
Definition twenty_pages_env : Env :=
  {| upstream := λ page _, UpBody (Some (one_point_page (page <? 19)%nat));
     connect_error := None; db_fault := λ _, None;
     iso_now := []; db_now := 0 |}.

(** C5 as stated fails: a scan stopped by the page ceiling with a cursor
    pending and a scan that reached the last page give the same
    response, the same calls and the same (empty) log. *)
Lemma truncated_scan_is_not_signalled :
  let st := {| db := None; server := empty_server |} in
  let scan env :=
    scroll_pages (H := sample_externals) sample_config env maxPages 0 JNull [] st in
  ceiling_reached (scan endless_env) = Some true
  ∧ ceiling_reached (scan twenty_pages_env) = Some false
  ∧ documents_handler (H := sample_externals) sample_config endless_env st
    = documents_handler (H := sample_externals) sample_config twenty_pages_env st.
Proof. vm_compute. by repeat split. Qed.

(** ** Grouping the points into documents *)

(** *** Keys of [docMap] are plain property names *)

(** The key of line 440 when both conversions succeed. *)
Definition key_text `{Externals} (repo title : JsVal) : jsstring :=
  to_text repo ++ lit "::" ++ to_text title.

Lemma doc_key_Ok `{Externals} (repo title : JsVal) (key : jsstring) :
  doc_key repo title = Ok key ↔
  key = key_text repo title
  ∧ convertible repo = true ∧ convertible title = true.
Proof.
  unfold doc_key, ToString, key_text.
  destruct (convertible repo), (convertible title);
    cbn [mbind Res_bind mret Res_ret]; split; try done;
    try (by intros (_ & ? & ?)).
  - by intros [= <-].
  - by intros (-> & _).
Qed.

Lemma key_text_has_colon `{Externals} (repo title : JsVal) : 58 ∈ key_text repo title.
Proof.
  unfold key_text. apply elem_of_app. right. apply elem_of_app. left.
  change (lit "::") with [58; 58]. left.
Qed.

Lemma colon_not_inherited (k : jsstring) : 58 ∈ k → inherited k = false.
Proof.
  intros Hk. unfold inherited. apply bool_decide_eq_false_2. intros Hin.
  assert (Hall : Forall (λ n : jsstring, 58 ∉ n) proto_names).
  { apply (bool_decide_unpack _). by vm_compute. }
  by apply (proj1 (Forall_forall _ _) Hall k Hin).
Qed.

Lemma digits_stay_none (k : jsstring) :
  foldl (λ acc c, a ← acc; d ← digit c; Some (10 * a + d)) None k = None.
Proof. induction k as [|c k IH]; [done|]. simpl. apply IH. Qed.

Lemma digits_none (k : jsstring) (acc : option N) (c : N) :
  c ∈ k → digit c = None →
  foldl (λ acc c, a ← acc; d ← digit c; Some (10 * a + d)) acc k = None.
Proof.
  intros Hin Hc. revert acc.
  induction Hin as [c k|c c' k Hin IH]; intros acc; simpl.
  - rewrite Hc. destruct acc; simpl; apply digits_stay_none.
  - by apply IH.
Qed.

Lemma colon_not_index (k : jsstring) : 58 ∈ k → array_index k = None.
Proof.
  intros Hk. unfold array_index. destruct k as [|c rest]; [done|].
  destruct (_ && _); [done|].
  by rewrite (digits_none _ _ 58 Hk).
Qed.

Lemma obj_values_plain {V} (o : list (jsstring * V)) :
  Forall (λ kv, array_index kv.1 = None) o → obj_values o = o.*2.
Proof.
  intros Hall. unfold obj_values.
  assert (Hidx : foldr (λ kv acc,
                          match array_index kv.1 with
                          | Some i => insert_index i kv.2 acc
                          | None => acc
                          end) [] o = []).
  { induction Hall as [|kv o Hkv _ IH]; [done|].
    cbn [foldr]. rewrite Hkv. exact IH. }
  rewrite Hidx. clear Hidx. simpl. f_equal.
  induction Hall as [|kv o Hkv _ IH]; [done|].
  rewrite filter_cons_True by exact Hkv. by rewrite IH.
Qed.

(** *** Reading and updating own properties *)

Lemma own_app {V} (k : jsstring) (o o' : list (jsstring * V)) :
  own k (o ++ o') = match own k o with Some v => Some v | None => own k o' end.
Proof.
  induction o as [|[k' v] o IH]; [done|]. simpl.
  by destruct (str_eqb k k').
Qed.

Lemma own_update_own {V} (f : V → V) (k k' : jsstring) (o : list (jsstring * V)) :
  own k' (update_own f k o)
  = if decide (k' = k) then f <$> own k o else own k' o.
Proof.
  induction o as [|[k0 v] o IH]; simpl.
  - by case_decide.
  - unfold str_eqb in *.
    destruct (decide (k = k0)) as [->|Hne0].
    + rewrite bool_decide_eq_true_2 by done. simpl. unfold str_eqb.
      case_decide as Hk.
      * subst. by rewrite bool_decide_eq_true_2.
      * by rewrite bool_decide_eq_false_2.
    + rewrite (bool_decide_eq_false_2 (k = k0)) by done. simpl.
      unfold str_eqb. rewrite IH.
      case_decide as Hk.
      * subst. by rewrite bool_decide_eq_false_2.
      * done.
Qed.

Lemma update_own_keys {V} (f : V → V) (k : jsstring) (o : list (jsstring * V)) :
  (update_own f k o).*1 = o.*1.
Proof.
  induction o as [|[k0 v] o IH]; [done|]. simpl.
  destruct (str_eqb k k0); simpl; by f_equal.
Qed.

Lemma own_None {V} (k : jsstring) (o : list (jsstring * V)) :
  own k o = None ↔ k ∉ o.*1.
Proof.
  induction o as [|[k0 v] o IH]; simpl.
  - split; [intros _; apply not_elem_of_nil|done].
  - unfold str_eqb. destruct (decide (k = k0)) as [->|Hne].
    + rewrite bool_decide_eq_true_2 by done. split; [done|].
      intros Hn. exfalso. apply Hn. left.
    + rewrite bool_decide_eq_false_2 by done. rewrite IH.
      rewrite not_elem_of_cons. tauto.
Qed.

Lemma own_Some_elem {V} (k : jsstring) (v : V) (o : list (jsstring * V)) :
  NoDup o.*1 → (own k o = Some v ↔ (k, v) ∈ o).
Proof.
  induction o as [|[k0 v0] o IH]; simpl; intros Hnd.
  - split; [done|]. intros Hin. by apply elem_of_nil in Hin.
  - apply NoDup_cons in Hnd as [Hk0 Hnd]. unfold str_eqb.
    destruct (decide (k = k0)) as [->|Hne].
    + rewrite bool_decide_eq_true_2 by done. split.
      * intros [= ->]. left.
      * intros [[= ->]|Hin]%elem_of_cons; [done|].
        exfalso. apply Hk0. apply list_elem_of_fmap. by exists (k0, v).
    + rewrite bool_decide_eq_false_2 by done. rewrite (IH Hnd).
      rewrite elem_of_cons. split; [by right|].
      intros [[= ? ?]|?]; done.
Qed.

(** *** The loop as a fold over keyed seeds *)

(** [v.name] where it cannot throw. *)
Definition prop (v : JsVal) (name : string) : JsVal :=
  match get_prop v name with Ok x => x | _ => JUndefined end.

(** The document that lines 442-449 create for a point. *)
Definition seed (p repo title : JsVal) : Doc :=
  {| title := title; repo := repo;
     document_type := js_or (prop p "document_type") (JStr (lit "unknown"));
     jurisdictions := js_or (prop p "jurisdictions") (JArr []);
     topics := js_or (prop p "topics") (JArr []);
     chunks := 0 |}.

(** The key of a point in [docMap] and the document it would seed, when
    lines 427-440 do not throw on it. *)
Definition keyed `{Externals} (pt : JsVal) : option (jsstring * Doc) :=
  match derive pt with
  | Ok (p, repo, title) =>
      match doc_key repo title with
      | Ok key => Some (key, seed p repo title)
      | _ => None
      end
  | _ => None
  end.

(** The derived [(repo, title)] of a point. *)
Definition pair_of (pt : JsVal) : option (JsVal * JsVal) :=
  match derive pt with
  | Ok (_, repo, title) => Some (repo, title)
  | _ => None
  end.

Definition key_of `{Externals} (pt : JsVal) : option jsstring :=
  (λ e, e.1) <$> keyed pt.

Definition doc_pair (d : Doc) : JsVal * JsVal := (repo d, title d).

Definition with_chunks (d : Doc) (n : nat) : Doc :=
  {| title := title d; repo := repo d; document_type := document_type d;
     jurisdictions := jurisdictions d; topics := topics d; chunks := n |}.

Definition add_point (docMap : list (jsstring * Doc)) (entry : jsstring * Doc)
  : list (jsstring * Doc) :=
  update_own incr_chunks entry.1
    match own entry.1 docMap with
    | Some _ => docMap
    | None => docMap ++ [entry]
    end.

Lemma get_prop_truthy (v : JsVal) (name : string) :
  truthy v = true → get_prop v name = Ok (prop v name).
Proof. unfold prop. by destruct v. Qed.

Lemma js_or_object_truthy (v : JsVal) : truthy (js_or v (JObj [])) = true.
Proof. unfold js_or. by destruct (truthy v) eqn:Hv. Qed.

Lemma derive_payload_truthy (pt p repo title : JsVal) :
  derive pt = Ok (p, repo, title) → truthy p = true.
Proof.
  unfold derive. destruct (get_prop pt "payload") as [payload| |]; [|done..].
  cbn [mbind Res_bind].
  rewrite !(get_prop_truthy _ _ (js_or_object_truthy payload)).
  cbn [mbind Res_bind].
  destruct (derive_repo _ _); [|done..].
  intros [= <- _ _]. apply js_or_object_truthy.
Qed.

Lemma group_step_keyed `{Externals} docMap pt entry :
  keyed pt = Some entry → group_step docMap pt = Ok (add_point docMap entry).
Proof.
  unfold keyed, group_step.
  destruct (derive pt) as [[[p repo] title]| |] eqn:Hderive; [|done..].
  destruct (doc_key repo title) as [key| |] eqn:Hkey; [|done..].
  intros [= <-]. cbn [mbind Res_bind]. rewrite Hkey. cbn [mbind Res_bind].
  apply doc_key_Ok in Hkey as (-> & _ & _).
  pose proof (derive_payload_truthy _ _ _ _ Hderive) as Hp.
  unfold has_key, add_point. cbn [fst snd].
  rewrite (colon_not_inherited _ (key_text_has_colon repo title)), orb_false_r.
  destruct (own (key_text repo title) docMap) as [d|] eqn:Hown.
  - by rewrite bool_decide_eq_true_2 by done.
  - rewrite bool_decide_eq_false_2 by (by intros [??]).
    by rewrite !(get_prop_truthy _ _ Hp).
Qed.

Lemma group_points_keyed `{Externals} docMap points entries :
  Forall2 (λ pt entry, keyed pt = Some entry) points entries →
  group_points docMap points = Ok (foldl add_point docMap entries).
Proof.
  intros Hall. revert docMap.
  induction Hall as [|pt entry points entries Hpt _ IH]; intros docMap; [done|].
  cbn [group_points foldl]. rewrite (group_step_keyed _ _ _ Hpt).
  apply IH.
Qed.

(** *** What the fold computes *)

Definition count_key (k : jsstring) (entries : list (jsstring * Doc)) : nat :=
  length (filter (λ e, e.1 = k) entries).

Lemma count_key_snoc k entries entry :
  count_key k (entries ++ [entry])
  = (count_key k entries + if decide (entry.1 = k) then 1 else 0)%nat.
Proof.
  unfold count_key. rewrite filter_app, length_app. f_equal.
  case_decide.
  - by rewrite filter_cons_True.
  - by rewrite filter_cons_False.
Qed.

Lemma own_singleton {V} (k k0 : jsstring) (v : V) :
  own k [(k0, v)] = if decide (k = k0) then Some v else None.
Proof.
  simpl. unfold str_eqb. case_decide.
  - by rewrite bool_decide_eq_true_2.
  - by rewrite bool_decide_eq_false_2.
Qed.

Lemma count_key_absent (k : jsstring) (entries : list (jsstring * Doc)) :
  own k entries = None → count_key k entries = 0%nat.
Proof.
  unfold count_key. induction entries as [|[k0 s0] entries IH]; [done|].
  simpl. unfold str_eqb. case_bool_decide as Hk; [done|].
  intros Hown. rewrite filter_cons_False by (simpl; congruence).
  by apply IH.
Qed.

(** After the fold, a key holds the first seed that came with it, with
    the number of points that came with that key as its [chunks]. *)
Lemma foldl_add_point (entries : list (jsstring * Doc)) :
  let docMap := foldl add_point [] entries in
  NoDup docMap.*1
  ∧ ∀ k, own k docMap
         = (λ s, with_chunks s (chunks s + count_key k entries))
           <$> own k entries.
Proof.
  induction entries as [|[k0 s0] entries IH] using rev_ind.
  - split; [constructor|done].
  - cbv zeta in *. rewrite foldl_app. cbn [foldl].
    set (docMap := foldl add_point [] entries) in *.
    destruct IH as [Hnd Hown]. unfold add_point. cbn [fst snd].
    pose proof (Hown k0) as Hk0.
    split.
    + rewrite update_own_keys.
      destruct (own k0 docMap) eqn:Hd; [done|].
      rewrite fmap_app. apply NoDup_app. split; [done|].
      split; [|apply NoDup_singleton].
      intros k Hk [->|[]%elem_of_nil]%elem_of_cons.
      by apply own_None in Hd.
    + intros k. rewrite own_update_own, own_app, count_key_snoc. cbn [fst].
      destruct (decide (k = k0)) as [->|Hne].
      * rewrite decide_True by done.
        destruct (own k0 docMap) as [d|] eqn:Hd.
        -- rewrite Hd. destruct (own k0 entries) as [s|]; [|done].
           injection Hk0 as ->. simpl. unfold incr_chunks, with_chunks. simpl.
           do 2 f_equal. lia.
        -- rewrite own_app, Hd, own_singleton, decide_True by done.
           destruct (own k0 entries) as [s|] eqn:He; [done|].
           rewrite count_key_absent by done.
           simpl. unfold incr_chunks, with_chunks. simpl.
           do 2 f_equal. lia.
      * rewrite decide_False by done. rewrite Nat.add_0_r.
        rewrite own_singleton, decide_False by done.
        destruct (own k0 docMap) eqn:Hd.
        -- rewrite Hown. by destruct (own k entries).
        -- rewrite own_app, own_singleton, decide_False by done.
           rewrite Hown. by destruct (own k entries).
Qed.

Lemma keyed_inv `{Externals} (pt : JsVal) (k : jsstring) (s : Doc) :
  keyed pt = Some (k, s) →
  k = key_text (repo s) (title s)
  ∧ pair_of pt = Some (doc_pair s)
  ∧ key_of pt = Some k
  ∧ chunks s = 0%nat.
Proof.
  unfold key_of. intros Hkeyed. rewrite Hkeyed. revert Hkeyed.
  unfold keyed, pair_of.
  destruct (derive pt) as [[[p r] t]| |]; [|done..].
  destruct (doc_key r t) as [key| |] eqn:Hkey; [|done..].
  apply doc_key_Ok in Hkey as (-> & _ & _).
  by intros [= <- <-].
Qed.

(** The repo and the title of a keyed point have strings. *)
Lemma keyed_convertible `{Externals} (pt : JsVal) (k : jsstring) (s : Doc) :
  keyed pt = Some (k, s) →
  convertible (repo s) = true ∧ convertible (title s) = true.
Proof.
  unfold keyed.
  destruct (derive pt) as [[[p r] t]| |]; [|done..].
  destruct (doc_key r t) as [key| |] eqn:Hkey; [|done..].
  apply doc_key_Ok in Hkey as (_ & ? & ?).
  by intros [= _ <-].
Qed.

Lemma keyed_entries `{Externals} (points : list JsVal) :
  Forall (λ pt, is_Some (keyed pt)) points →
  ∃ entries, Forall2 (λ pt entry, keyed pt = Some entry) points entries.
Proof.
  induction 1 as [|pt points [entry Hpt] _ [entries IH]].
  - by exists [].
  - exists (entry :: entries). by constructor.
Qed.

Lemma own_first {V} (k : jsstring) (v : V) (o : list (jsstring * V)) :
  own k o = Some v →
  ∃ i, o !! i = Some (k, v)
       ∧ ∀ j kv, (j < i)%nat → o !! j = Some kv → kv.1 ≠ k.
Proof.
  induction o as [|[k0 v0] o IH]; [done|]. simpl. unfold str_eqb.
  case_bool_decide as Hk.
  - intros [= ->]. subst. exists 0%nat. split; [done|]. intros; lia.
  - intros Hown. destruct (IH Hown) as (i & Hi & Hfirst).
    exists (S i). split; [done|].
    intros [|j] kv Hj Hkv.
    + injection Hkv as <-. simpl. congruence.
    + apply (Hfirst j); [lia|done].
Qed.

Lemma own_elem {V} (k : jsstring) (v : V) (o : list (jsstring * V)) :
  (k, v) ∈ o → is_Some (own k o).
Proof.
  intros Hin. destruct (own k o) eqn:Hown; [done|].
  apply own_None in Hown. exfalso. apply Hown.
  apply list_elem_of_fmap. by exists (k, v).
Qed.

Lemma count_key_points `{Externals} (k : jsstring) points entries :
  Forall2 (λ pt entry, keyed pt = Some entry) points entries →
  count_key k entries = length (filter (λ pt, key_of pt = Some k) points).
Proof.
  unfold count_key.
  induction 1 as [|pt entry points entries Hpt _ IH]; [done|].
  assert (Hkey : key_of pt = Some entry.1) by (unfold key_of; by rewrite Hpt).
  rewrite !filter_cons.
  destruct (decide (entry.1 = k)) as [Hk|Hk];
    destruct (decide (key_of pt = Some k)) as [Hk'|Hk'];
    simpl; congruence.
Qed.

(** The entries of [docMap] after the scan of [points]. *)
Lemma docMap_entries `{Externals} points entries k d :
  Forall2 (λ pt entry, keyed pt = Some entry) points entries →
  (k, d) ∈ foldl add_point [] entries →
  k = key_text (repo d) (title d)
  ∧ chunks d = length (filter (λ pt, key_of pt = Some k) points)
  ∧ ∃ i pt, points !! i = Some pt
            ∧ keyed pt = Some (k, with_chunks d 0)
            ∧ ∀ j pt', (j < i)%nat → points !! j = Some pt' →
                       key_of pt' ≠ Some k.
Proof.
  intros Hall Hin.
  destruct (foldl_add_point entries) as [Hnd Hown].
  apply (own_Some_elem _ _ _ Hnd) in Hin. rewrite Hown in Hin.
  destruct (own k entries) as [s|] eqn:Hs; [|done].
  injection Hin as <-.
  destruct (own_first _ _ _ Hs) as (i & Hi & Hfirst).
  destruct (Forall2_lookup_r _ _ _ _ _ Hall Hi) as (pt & Hpt & Hkeyed).
  destruct (keyed_inv _ _ _ Hkeyed) as (Hk & _ & _ & Hzero).
  split; [done|]. split.
  - cbn [chunks with_chunks]. rewrite Hzero. simpl.
    by apply count_key_points.
  - exists i, pt. split; [done|]. split.
    + rewrite Hkeyed. do 2 f_equal. unfold with_chunks. cbn.
      destruct s. by simplify_eq/=.
    + intros j pt' Hj Hpt' Hkey.
      destruct (Forall2_lookup_l _ _ _ _ _ Hall Hpt') as ([k' s'] & He & Hk').
      destruct (keyed_inv _ _ _ Hk') as (_ & _ & Hkey' & _).
      rewrite Hkey' in Hkey. injection Hkey as ->.
      by apply (Hfirst j (k, s') Hj He).
Qed.

Lemma docMap_covers `{Externals} points entries pt k :
  Forall2 (λ pt entry, keyed pt = Some entry) points entries →
  pt ∈ points → key_of pt = Some k →
  ∃ d, (k, d) ∈ foldl add_point [] entries.
Proof.
  intros Hall Hpt Hkey.
  destruct (foldl_add_point entries) as [Hnd Hown].
  apply list_elem_of_lookup in Hpt as [i Hi].
  destruct (Forall2_lookup_l _ _ _ _ _ Hall Hi) as ([k' s'] & He & Hk').
  destruct (keyed_inv _ _ _ Hk') as (_ & _ & Hkey' & _).
  rewrite Hkey' in Hkey. injection Hkey as ->.
  destruct (own_elem k s' entries) as [s Hs].
  { apply list_elem_of_lookup. by exists i. }
  eexists. apply (own_Some_elem _ _ _ Hnd). by rewrite Hown, Hs.
Qed.

(** *** The repo summaries as a fold *)

(** One iteration of the loop of lines 457-464 for a document whose
    repo has a string. *)
Definition summarize `{Externals} (repoMap : list (jsstring * RepoSummary))
    (doc : Doc) : list (jsstring * RepoSummary) :=
  let key := to_text (repo doc) in
  update_own
    (λ r, {| name := name r; doc_count := S (doc_count r);
             total_chunks := total_chunks r + chunks doc |})
    key
    (if has_key key repoMap then repoMap
     else repoMap ++ [ (key, {| name := repo doc; doc_count := 0;
                                total_chunks := 0 |}) ]).

Lemma repo_steps_convertible `{Externals} repoMap (docs : list Doc) :
  Forall (λ d, convertible (repo d) = true) docs →
  repo_steps repoMap docs = Ok (foldl summarize repoMap docs).
Proof.
  intros Hall. revert repoMap.
  induction Hall as [|d docs Hd _ IH]; intros repoMap; [done|].
  cbn [repo_steps foldl]. unfold repo_step.
  rewrite (ToString_convertible _ Hd). cbn [mbind Res_bind mret Res_ret].
  apply IH.
Qed.

(** The catalog of points on which lines 427-440 do not throw. *)
Lemma catalog_run `{Externals} points entries :
  Forall2 (λ pt entry, keyed pt = Some entry) points entries →
  let documents := (foldl add_point [] entries).*2 in
  catalog points
  = Ok {| status := 200;
          body := BDocuments
                    (sort_repos (obj_values (foldl summarize [] documents)))
                    documents (length documents) (length points) |}.
Proof.
  intros Hall. cbv zeta. unfold catalog.
  rewrite (group_points_keyed _ _ _ Hall). cbn [mbind Res_bind mret Res_ret].
  assert (Hplain : obj_values (foldl add_point [] entries)
                   = (foldl add_point [] entries).*2).
  { apply obj_values_plain. apply Forall_forall. intros [k d] Hin.
    destruct (docMap_entries _ _ _ _ Hall Hin) as [-> _]. simpl.
    apply colon_not_index, key_text_has_colon. }
  rewrite Hplain, repo_steps_convertible; [done|].
  apply Forall_forall. intros d ([k d'] & -> & Hin)%list_elem_of_fmap.
  destruct (docMap_entries _ _ _ _ Hall Hin) as (_ & _ & i & pt & _ & Hk & _).
  by destruct (keyed_convertible _ _ _ Hk).
Qed.

(** *** Two pairs, one key *)

Lemma keyed_derived `{Externals} (pt p : JsVal) (r t : jsstring) :
  derive pt = Ok (p, JStr r, JStr t) →
  keyed pt = Some (r ++ lit "::" ++ t, seed p (JStr r) (JStr t)).
Proof. intros Hpt. unfold keyed. by rewrite Hpt. Qed.

Lemma add_point_same_key (k : jsstring) (s s' : Doc) :
  foldl add_point [] [(k, s); (k, s')] = [(k, incr_chunks (incr_chunks s))].
Proof.
  cbn [foldl add_point own app update_own fst snd]. unfold str_eqb.
  rewrite bool_decide_eq_true_2 by done.
  cbn [own update_own fst snd]. unfold str_eqb.
  rewrite bool_decide_eq_true_2 by done.
  cbn [update_own]. unfold str_eqb.
  by rewrite bool_decide_eq_true_2 by done.
Qed.

(** C4 (the code departs from the claim): [docMap] is keyed by the
    string [repo::title] of line 440, which does not determine the pair.
    Two points whose derived pairs are [(a::b, c)] and [(a, b::c)] share
    the key [a::b::c]: the catalog holds one document for both, with two
    chunks and the pair of the first point; the pair of the second point
    has no document, though the pairs differ. *)
Theorem colliding_keys_are_one_document `{Externals}
    (first second p p' : JsVal) (a b c : jsstring) :
  derive first = Ok (p, JStr (a ++ lit "::" ++ b), JStr c) →
  derive second = Ok (p', JStr a, JStr (b ++ lit "::" ++ c)) →
  ∃ repos d,
    catalog [first; second]
    = Ok {| status := 200; body := BDocuments repos [d] 1 2 |}
    ∧ chunks d = 2%nat
    ∧ pair_of first = Some (repo d, title d)
    ∧ pair_of second = Some (JStr a, JStr (b ++ lit "::" ++ c))
    ∧ pair_of second ≠ pair_of first.
Proof.
  intros Hfirst Hsecond.
  pose proof (keyed_derived _ _ _ _ Hfirst) as Hk.
  pose proof (keyed_derived _ _ _ _ Hsecond) as Hk'.
  rewrite <- !app_assoc in Hk.
  assert (Hall : Forall2 (λ pt entry, keyed pt = Some entry) [first; second]
            [ (a ++ lit "::" ++ b ++ lit "::" ++ c,
               seed p (JStr (a ++ lit "::" ++ b)) (JStr c));
              (a ++ lit "::" ++ b ++ lit "::" ++ c,
               seed p' (JStr a) (JStr (b ++ lit "::" ++ c))) ]).
  { by repeat constructor. }
  pose proof (catalog_run _ _ Hall) as Hrun.
  cbv zeta in Hrun. rewrite add_point_same_key in Hrun.
  eexists _, _. split; [exact Hrun|].
  unfold pair_of. rewrite Hfirst, Hsecond.
  split; [done|]. split; [done|]. split; [done|].
  intros [= Ha _]. apply (f_equal length) in Ha.
  rewrite length_app in Ha. cbn [length] in Ha. lia.
Qed.

(** The two documents as POST /api/ingest stores them: repo "hr::eu"
    with title "leave", and repo "hr" with title "eu::leave". *)
Definition ingested_point (source_url title_ : string) : JsVal :=
  JObj [ (lit "payload",
           JObj [ (lit "title", JStr (lit title_));
                  (lit "source_url", JStr (lit source_url)) ]) ].

Lemma colliding_keys_are_one_document_witness :
  let first := ingested_point "form://hr::eu/leave" "leave" in
  let second := ingested_point "form://hr/eu::leave" "eu::leave" in
  ∃ repos d,
    catalog (H := sample_externals) [first; second]
    = Ok {| status := 200; body := BDocuments repos [d] 1 2 |}
    ∧ chunks d = 2%nat
    ∧ pair_of first = Some (repo d, title d)
    ∧ pair_of second
      = Some (JStr (lit "hr"), JStr (lit "eu" ++ lit "::" ++ lit "leave"))
    ∧ pair_of second ≠ pair_of first.
Proof.
  intros first second.
  apply (colliding_keys_are_one_document (H := sample_externals) first second
           (JObj [ (lit "title", JStr (lit "leave"));
                   (lit "source_url", JStr (lit "form://hr::eu/leave")) ])
           (JObj [ (lit "title", JStr (lit "eu::leave"));
                   (lit "source_url", JStr (lit "form://hr/eu::leave")) ])
           (lit "hr") (lit "eu") (lit "leave")).
  - reflexivity.
  - reflexivity.
Defined.

(** * Further properties of the handlers *)

(** ** POST /api/ask: upstream failures and empty answers *)

(** X1: when the upstream call of a valid question fails (no JSON body,
    a transport error or the timeout), the answer is a 502 carrying the
    error's message; the failure is logged, the database is not
    contacted and the process state is unchanged. *)
Theorem ask_upstream_failure_is_502 `{Externals}
    (cfg : Config) (env : Env) (req_body : JsVal) (q : jsstring) (st : State) :
  get_prop req_body "question" = Ok (JStr q) →
  (5 ≤ length (trim q))%nat →
  upstream_failed (upstream env 0%nat (ask_payload q)) = true →
  ∃ message,
    ask cfg env req_body st
    = (Ok (json 502 (error_body message)), st,
       [ EUpstream (QUERY_URL cfg) (ask_payload q) 300000;
         EConsoleError (lit "Query error:") message ]).
Proof.
  intros Hq Hlen Hfail.
  rewrite (ask_valid_run cfg env req_body q st Hq Hlen). cbv zeta.
  destruct (upstream env 0%nat (ask_payload q)) as [[parsed|]|e|];
    [done|by eexists..].
Qed.

Definition timing_out_env : Env :=
  {| upstream := λ _ _, UpTimeout;
     connect_error := None;
     db_fault := λ _, None;
     iso_now := lit "2024-05-01T10:00:00.000Z";
     db_now := 1000 |}.

Lemma ask_upstream_failure_is_502_witness :
  ∃ message,
    ask (H := sample_externals) sample_config timing_out_env ask_request
        (connected_state three_fresh_rows)
    = (Ok (json 502 (error_body message)), connected_state three_fresh_rows,
       [ EUpstream (QUERY_URL sample_config)
                   (ask_payload (lit " What is the notice period? ")) 300000;
         EConsoleError (lit "Query error:") message ]).
Proof.
  apply (ask_upstream_failure_is_502 (H := sample_externals) sample_config
           timing_out_env ask_request (lit " What is the notice period? ")
           (connected_state three_fresh_rows)).
  - reflexivity.
  - vm_compute. lia.
  - reflexivity.
Defined.

Lemma log_params_nullish `{Externals} (q : jsstring) (result : JsVal) :
  nullish result = true → ∃ e, log_params (JStr q) result = Throw e.
Proof. destruct result; try done; intros _; by eexists. Qed.

(** X2: when upstream answers with an empty array or with null, the
    normalized result is undefined or null; the handler still answers
    200 with it, and with a handle in [db] no INSERT is sent: reading
    [result.answer] throws inside the logging block, which logs the
    error and leaves the table as it was. *)
Theorem ask_empty_answer_is_not_logged `{Externals}
    (cfg : Config) (env : Env) (req_body : JsVal) (q : jsstring)
    (parsed : JsVal) (c : Client) (st : State) :
  get_prop req_body "question" = Ok (JStr q) →
  (5 ≤ length (trim q))%nat →
  upstream env 0%nat (ask_payload q) = UpBody (Some parsed) →
  nullish (normalize parsed) = true →
  db st = Some c →
  ∃ message,
    ask cfg env req_body st
    = (Ok (json 200 (normalize parsed)), st,
       [ EUpstream (QUERY_URL cfg) (ask_payload q) 300000;
         EConsoleError (lit "DB log error:") message ]).
Proof.
  intros Hq Hlen Hup Hnull Hdb.
  rewrite (ask_valid_run cfg env req_body q st Hq Hlen). cbv zeta.
  rewrite Hup.
  destruct (log_params_nullish q (normalize parsed) Hnull) as [e He].
  exists e. unfold log_query.
  rewrite try_catch_run, bind_run, getDb_run, Hdb.
  cbn [result_of state_of trace_of fst snd app].
  rewrite bind_run. cbn [lift result_of state_of trace_of fst snd app].
  by rewrite He.
Qed.

Definition empty_array_env : Env :=
  {| upstream := λ _ _, UpBody (Some (JArr []));
     connect_error := None;
     db_fault := λ _, None;
     iso_now := lit "2024-05-01T10:00:00.000Z";
     db_now := 1000 |}.

Lemma ask_empty_answer_is_not_logged_witness :
  ∃ message,
    ask (H := sample_externals) sample_config empty_array_env ask_request
        (connected_state three_fresh_rows)
    = (Ok (json 200 JUndefined), connected_state three_fresh_rows,
       [ EUpstream (QUERY_URL sample_config)
                   (ask_payload (lit " What is the notice period? ")) 300000;
         EConsoleError (lit "DB log error:") message ]).
Proof.
  apply (ask_empty_answer_is_not_logged (H := sample_externals) sample_config
           empty_array_env ask_request (lit " What is the notice period? ")
           (JArr []) {| connected := true |}
           (connected_state three_fresh_rows)).
  - reflexivity.
  - vm_compute. lia.
  - reflexivity.
  - reflexivity.
  - reflexivity.
Defined.

(** ** POST /api/ingest: validation and failures *)

Definition missing_fields_response : Response :=
  json 400 (error_body (lit "Title and content required")).

Lemma ingest_rejected_run `{Externals} cfg env req_body title type repo content st :
  get_prop req_body "title" = Ok title →
  get_prop req_body "type" = Ok type →
  get_prop req_body "repo" = Ok repo →
  get_prop req_body "content" = Ok content →
  truthy title = false ∨ truthy content = false →
  ingest cfg env req_body st = (Ok missing_fields_response, st, []).
Proof.
  intros Ht Hty Hr Hc Hfalsy. unfold ingest. rewrite Ht, Hty, Hr, Hc.
  do 4 (rewrite bind_run; cbn [lift result_of state_of trace_of fst snd app]).
  by destruct Hfalsy as [->| ->]; [|rewrite orb_true_r].
Qed.

Lemma ingest_payload_Ok `{Externals} title type repo content payload :
  ingest_payload title type repo content = Ok payload →
  ∃ t c, title = JStr t ∧ content = JStr c ∧ convertible repo = true.
Proof.
  unfold ingest_payload.
  destruct title as [| | | |t| |]; try done.
  destruct content as [| | | |c| |]; try done.
  cbn [call_trim mbind Res_bind]. unfold ToString.
  rewrite convertible_or_string.
  destruct (convertible repo); [|done]. by exists t, c.
Qed.

Lemma ingest_payload_settles `{Externals} title type repo content why :
  ingest_payload title type repo content ≠ Halted why.
Proof.
  unfold ingest_payload, ToString.
  destruct title as [| | | |t| |]; try done.
  destruct content as [| | | |c| |]; try done.
  cbn [call_trim mbind Res_bind]. by destruct (convertible _).
Qed.

Lemma ingest_payload_non_string `{Externals} title type repo content :
  truthy title = true → truthy content = true →
  is_string title = false ∨ is_string content = false →
  ∃ e, ingest_payload title type repo content = Throw e.
Proof.
  intros Ht Hc [Hs|Hs].
  - destruct title; try done; by eexists.
  - destruct title; try done; destruct content; try done;
      cbn [ingest_payload call_trim mbind Res_bind]; by eexists.
Qed.

(** X3: POST /api/ingest answers the 400 "Title and content required"
    exactly when the title or the content is missing or falsy, and then
    nothing is sent upstream or to the database and the process state is
    unchanged. *)
Theorem ingest_rejects_missing_fields `{Externals}
    (cfg : Config) (env : Env) (req_body title type repo content : JsVal)
    (st : State) :
  get_prop req_body "title" = Ok title →
  get_prop req_body "type" = Ok type →
  get_prop req_body "repo" = Ok repo →
  get_prop req_body "content" = Ok content →
  (result_of (ingest cfg env req_body st) = Ok missing_fields_response
   ↔ truthy title = false ∨ truthy content = false)
  ∧ (truthy title = false ∨ truthy content = false →
     ingest cfg env req_body st = (Ok missing_fields_response, st, [])).
Proof.
  intros Ht Hty Hr Hc. split; [split|].
  - intros Hres.
    destruct (truthy title) eqn:Htt; [|by left].
    destruct (truthy content) eqn:Htc; [|by right]. exfalso.
    destruct (ingest_payload title type repo content) as [payload|e|why] eqn:Hp.
    + destruct (ingest_payload_Ok _ _ _ _ _ Hp) as (t & c & -> & -> & Hrepo).
      rewrite (ingest_valid_run cfg env req_body type repo t c st Ht Hty Hr Hc)
        in Hres by (done || by intros ->).
      cbv zeta in Hres.
      destruct (upstream env 0%nat _) as [[?|]|?|]; try done.
      cbn [result_of fst] in Hres.
      by destruct (result_of (mark_cached_stale _ _ _ _)) as [[]|?|?].
    + by rewrite (ingest_type_error_run _ _ _ _ _ _ _ _ _ Ht Hty Hr Hc Htt Htc Hp)
        in Hres.
    + by destruct (ingest_payload_settles _ _ _ _ _ Hp).
  - intros Hfalsy.
    by rewrite (ingest_rejected_run _ _ _ _ _ _ _ _ Ht Hty Hr Hc Hfalsy).
  - by apply (ingest_rejected_run _ _ _ title type repo content).
Qed.

Lemma ingest_rejects_missing_fields_witness :
  ingest (H := sample_externals) sample_config calm_env
         (JObj [ (lit "title", JStr (lit "Policy B")) ])
         (connected_state three_fresh_rows)
  = (Ok missing_fields_response, connected_state three_fresh_rows, []).
Proof.
  apply (ingest_rejects_missing_fields (H := sample_externals) sample_config
           calm_env (JObj [ (lit "title", JStr (lit "Policy B")) ])
           (JStr (lit "Policy B")) JUndefined JUndefined JUndefined
           (connected_state three_fresh_rows)
           eq_refl eq_refl eq_refl eq_refl).
  by right.
Defined.

(** X4: a title or content that is truthy but not a string makes
    [.trim()] throw inside the handler's [try]: unlike POST /api/ask,
    POST /api/ingest then answers a 502 with the TypeError's message,
    having sent nothing upstream or to the database. *)
Theorem ingest_non_string_field_is_502 `{Externals}
    (cfg : Config) (env : Env) (req_body title type repo content : JsVal)
    (st : State) :
  get_prop req_body "title" = Ok title →
  get_prop req_body "type" = Ok type →
  get_prop req_body "repo" = Ok repo →
  get_prop req_body "content" = Ok content →
  truthy title = true → truthy content = true →
  is_string title = false ∨ is_string content = false →
  ∃ message,
    ingest cfg env req_body st
    = (Ok (json 502 (error_body message)), st,
       [EConsoleError (lit "Ingest error:") message]).
Proof.
  intros Ht Hty Hr Hc Htt Htc Hstr.
  destruct (ingest_payload_non_string title type repo content Htt Htc Hstr)
    as [e He].
  exists e. by apply (ingest_type_error_run _ _ _ title type repo content).
Qed.

Lemma ingest_non_string_field_is_502_witness :
  ∃ message,
    ingest (H := sample_externals) sample_config calm_env
           (JObj [ (lit "title", JNum 42);
                   (lit "content", JStr (lit "Text")) ])
           (connected_state three_fresh_rows)
    = (Ok (json 502 (error_body message)), connected_state three_fresh_rows,
       [EConsoleError (lit "Ingest error:") message]).
Proof.
  apply (ingest_non_string_field_is_502 (H := sample_externals) sample_config
           calm_env
           (JObj [ (lit "title", JNum 42); (lit "content", JStr (lit "Text")) ])
           (JNum 42) JUndefined JUndefined (JStr (lit "Text"))
           (connected_state three_fresh_rows)
           eq_refl eq_refl eq_refl eq_refl eq_refl eq_refl).
  by left.
Defined.

(** X5: when the upstream ingestion call fails (the body having been
    built: the repo, if any, has a string), POST /api/ingest answers a
    502 with the error's message and does not mark anything stale: no
    statement is sent and the process state is unchanged. *)
Theorem ingest_upstream_failure_is_502 `{Externals}
    (cfg : Config) (env : Env) (req_body type repo : JsVal)
    (t c : jsstring) (st : State) :
  get_prop req_body "title" = Ok (JStr t) →
  get_prop req_body "type" = Ok type →
  get_prop req_body "repo" = Ok repo →
  get_prop req_body "content" = Ok (JStr c) →
  t ≠ [] → c ≠ [] →
  convertible repo = true →
  upstream_failed (upstream env 0%nat (ingest_body t type repo c)) = true →
  ∃ message,
    ingest cfg env req_body st
    = (Ok (json 502 (error_body message)), st,
       [ EUpstream (INGEST_URL cfg) (ingest_body t type repo c) 180000;
         EConsoleError (lit "Ingest error:") message ]).
Proof.
  intros Ht Hty Hr Hc Htne Hcne Hrepo Hfail.
  rewrite (ingest_valid_run cfg env req_body type repo t c st
             Ht Hty Hr Hc Htne Hcne Hrepo).
  cbv zeta.
  destruct (upstream env 0%nat _) as [[parsed|]|e|]; [done|by eexists..].
Qed.

Lemma ingest_upstream_failure_is_502_witness :
  ∃ message,
    ingest (H := sample_externals) sample_config timing_out_env ingest_request
           (connected_state three_fresh_rows)
    = (Ok (json 502 (error_body message)), connected_state three_fresh_rows,
       [ EUpstream (INGEST_URL sample_config)
           (ingest_body (H := sample_externals) (lit " Policy B ") JUndefined
                        JUndefined (lit "Notice is thirty days.")) 180000;
         EConsoleError (lit "Ingest error:") message ]).
Proof.
  apply (ingest_upstream_failure_is_502 (H := sample_externals) sample_config
           timing_out_env ingest_request JUndefined JUndefined
           (lit " Policy B ") (lit "Notice is thirty days.")
           (connected_state three_fresh_rows)).
  - reflexivity.
  - reflexivity.
  - reflexivity.
  - reflexivity.
  - vm_compute. discriminate.
  - vm_compute. discriminate.
  - reflexivity.
  - reflexivity.
Defined.

(** ** The database handle, continued *)

(** X6: the first acquisition that succeeds connects once, runs the
    CREATE TABLE once, which creates the relation empty or keeps the
    rows it has, and leaves a connected client in [db]; every later
    acquisition returns that client without contacting the database. *)
Theorem getDb_reuses_ready_handle `{Externals}
    (cfg : Config) (env later : Env) (srv : Server) :
  PG_URL cfg ≠ [] →
  connect_error env = None →
  db_fault env CreateTableIfNotExists = None →
  let first := getDb cfg env {| db := None; server := srv |} in
  result_of first = Ok (Some {| connected := true |})
  ∧ trace_of first = [EConnect; EQuery CreateTableIfNotExists]
  ∧ query_log (server (state_of first)) = Some (rows_of srv)
  ∧ getDb cfg later (state_of first)
    = (Ok (Some {| connected := true |}), state_of first, []).
Proof.
  intros Hurl Hconn Hcreate first. subst first.
  rewrite (getDb_run cfg env). cbn [db].
  rewrite bool_decide_eq_false_2 by done.
  rewrite Hconn. cbv zeta. rewrite Hcreate.
  cbn [result_of state_of trace_of fst snd server].
  split; [done|]. split; [done|]. split; [done|]. by rewrite getDb_run.
Qed.

Lemma getDb_reuses_ready_handle_witness :
  let first :=
    getDb (H := sample_externals) sample_config calm_env
          {| db := None; server := empty_server |} in
  result_of first = Ok (Some {| connected := true |})
  ∧ trace_of first = [EConnect; EQuery CreateTableIfNotExists]
  ∧ query_log (server (state_of first)) = Some (rows_of empty_server)
  ∧ getDb (H := sample_externals) sample_config refusing_env (state_of first)
    = (Ok (Some {| connected := true |}), state_of first, []).
Proof.
  apply (getDb_reuses_ready_handle (H := sample_externals) sample_config
           calm_env refusing_env empty_server).
  - vm_compute. discriminate.
  - reflexivity.
  - reflexivity.
Defined.

(** X7: when the connection succeeds and the CREATE TABLE is rejected,
    the acquisition throws but the connected client stays in [db]:
    later acquisitions return it and never run the CREATE TABLE again,
    so a relation that was missing stays missing and every later
    statement on it that reaches the database fails. *)
Theorem getDb_never_retries_schema `{Externals}
    (cfg : Config) (env later : Env) (srv : Server) (message : jsstring) :
  PG_URL cfg ≠ [] →
  connect_error env = None →
  db_fault env CreateTableIfNotExists = Some (Rejected message) →
  query_log srv = None →
  let first := getDb cfg env {| db := None; server := srv |} in
  result_of first = Throw message
  ∧ getDb cfg later (state_of first)
    = (Ok (Some {| connected := true |}), state_of first, [])
  ∧ ∀ s, s ≠ CreateTableIfNotExists →
      db_fault later s ≠ Some ConnectionLost →
      ∃ e, pg_query {| connected := true |} later s (state_of first)
           = (Throw e, state_of first, [EQuery s]).
Proof.
  intros Hurl Hconn Hcreate Hnone first. subst first.
  rewrite (getDb_run cfg env). cbn [db].
  rewrite bool_decide_eq_false_2 by done.
  rewrite Hconn. cbv zeta. rewrite Hcreate.
  cbn [result_of state_of trace_of fst snd server].
  split; [done|]. split; [by rewrite getDb_run|].
  intros s Hs Hup. rewrite pg_query_run. cbn [connected server].
  destruct (db_fault later s) as [[e|]|]; [by eexists|done|].
  destruct s as [|params|u|n|]; [done|..]; unfold pg_exec; rewrite ?Hnone.
  - repeat (destruct params as [|? params]; try by eexists).
  - destruct (upd_order_by u), (upd_limit u); by eexists.
  - by eexists.
  - by eexists.
Qed.

Definition create_failing_env : Env :=
  {| upstream := λ _ _, UpBody (Some (JObj []));
     connect_error := None;
     db_fault := λ s, match s with
                      | CreateTableIfNotExists =>
                          Some (Rejected (lit "permission denied for schema public"))
                      | _ => None
                      end;
     iso_now := lit "2024-05-01T09:00:00.000Z";
     db_now := 900 |}.

Lemma getDb_never_retries_schema_witness :
  let first :=
    getDb (H := sample_externals) sample_config create_failing_env
          {| db := None; server := empty_server |} in
  result_of first = Throw (lit "permission denied for schema public")
  ∧ getDb (H := sample_externals) sample_config calm_env (state_of first)
    = (Ok (Some {| connected := true |}), state_of first, [])
  ∧ ∀ s, s ≠ CreateTableIfNotExists →
      db_fault calm_env s ≠ Some ConnectionLost →
      ∃ e, pg_query (H := sample_externals) {| connected := true |} calm_env s
                    (state_of first)
           = (Throw e, state_of first, [EQuery s]).
Proof.
  apply (getDb_never_retries_schema (H := sample_externals) sample_config
           create_failing_env calm_env empty_server
           (lit "permission denied for schema public")).
  - vm_compute. discriminate.
  - reflexivity.
  - reflexivity.
  - reflexivity.
Defined.

(** ** Running without a database *)

Definition no_db_event (ev : Event) : bool :=
  match ev with
  | EConnect | EQuery _ => false
  | EUpstream _ _ _ | EConsoleError _ _ => true
  end.

(** The run leaves the process state as it was and contacts no database. *)
Definition leaves_db_alone {A} (st : State) (run : Res A * State * list Event)
  : Prop :=
  state_of run = st ∧ forallb no_db_event (trace_of run) = true.

Lemma getDb_unconfigured `{Externals} cfg env st :
  PG_URL cfg = [] → db st = None → getDb cfg env st = (Ok None, st, []).
Proof.
  intros Hurl Hdb. rewrite getDb_run, Hdb.
  by rewrite bool_decide_eq_true_2.
Qed.

Lemma log_query_unconfigured `{Externals} cfg env question result st :
  PG_URL cfg = [] → db st = None →
  log_query cfg env question result st = (Ok tt, st, []).
Proof.
  intros Hurl Hdb. unfold log_query.
  by rewrite try_catch_run, bind_run, getDb_unconfigured.
Qed.

Lemma mark_cached_stale_unconfigured `{Externals} cfg env title st :
  PG_URL cfg = [] → db st = None →
  mark_cached_stale cfg env title st = (Ok tt, st, []).
Proof.
  intros Hurl Hdb. unfold mark_cached_stale.
  by rewrite try_catch_run, bind_run, getDb_unconfigured.
Qed.

Lemma get_prop_settles (v : JsVal) (name : string) (why : Halt) :
  get_prop v name ≠ Halted why.
Proof. by destruct v. Qed.

Lemma get_prop_other_name (v : JsVal) (name name' : string) (x : JsVal) :
  get_prop v name = Ok x → ∃ y, get_prop v name' = Ok y.
Proof. destruct v; try done; intros _; by eexists. Qed.

Lemma ingest_no_body_run `{Externals} cfg env req_body e st :
  get_prop req_body "title" = Throw e →
  ingest cfg env req_body st = (Throw e, st, []).
Proof. intros Ht. unfold ingest. rewrite Ht. by rewrite bind_run. Qed.

Lemma ask_unconfigured `{Externals} cfg env req_body st :
  PG_URL cfg = [] → db st = None →
  leaves_db_alone st (ask cfg env req_body st).
Proof.
  intros Hurl Hdb.
  destruct (get_prop req_body "question") as [question|e|why] eqn:Hq;
    [|by rewrite (ask_no_body_run _ _ _ _ _ Hq)
     |by destruct (get_prop_settles _ _ _ Hq)].
  destruct (truthy question) eqn:Ht;
    [|by rewrite (ask_rejected_run _ _ _ question _ Hq) by by left].
  destruct (is_string question) eqn:Hs;
    [|by rewrite (ask_throws_run _ _ _ question _ Hq Ht Hs)].
  destruct question as [| | | |q| |]; try done.
  destruct (decide (length (trim q) < 5)%nat) as [Hlen|Hlen];
    [by rewrite (ask_rejected_run _ _ _ (JStr q) _ Hq) by (right; eauto)|].
  rewrite (ask_valid_run cfg env req_body q st Hq) by lia. cbv zeta.
  destruct (upstream env 0%nat (ask_payload q)) as [[parsed|]|e|]; try done.
  by rewrite log_query_unconfigured.
Qed.

Lemma ingest_unconfigured `{Externals} cfg env req_body st :
  PG_URL cfg = [] → db st = None →
  leaves_db_alone st (ingest cfg env req_body st).
Proof.
  intros Hurl Hdb.
  destruct (get_prop req_body "title") as [title|e|why] eqn:Ht;
    [|by rewrite (ingest_no_body_run _ _ _ _ _ Ht)
     |by destruct (get_prop_settles _ _ _ Ht)].
  destruct (get_prop_other_name _ _ "type" _ Ht) as [type Hty].
  destruct (get_prop_other_name _ _ "repo" _ Ht) as [repo Hr].
  destruct (get_prop_other_name _ _ "content" _ Ht) as [content Hc].
  destruct (truthy title) eqn:Htt;
    [|by rewrite (ingest_rejected_run _ _ _ _ _ _ _ _ Ht Hty Hr Hc) by by left].
  destruct (truthy content) eqn:Htc;
    [|by rewrite (ingest_rejected_run _ _ _ _ _ _ _ _ Ht Hty Hr Hc) by by right].
  destruct (ingest_payload title type repo content) as [payload|e|why] eqn:Hp;
    [|by rewrite (ingest_type_error_run _ _ _ _ _ _ _ _ _ Ht Hty Hr Hc Htt Htc Hp)
     |by destruct (ingest_payload_settles _ _ _ _ _ Hp)].
  destruct (ingest_payload_Ok _ _ _ _ _ Hp) as (t & c & -> & -> & Hrepo).
  rewrite (ingest_valid_run cfg env req_body type repo t c st Ht Hty Hr Hc)
    by (done || by intros ->).
  cbv zeta.
  destruct (upstream env 0%nat _) as [[parsed|]|e|]; try done.
  by rewrite mark_cached_stale_unconfigured.
Qed.

Definition ok_response : Response := json 200 (JObj [ (lit "ok", JBool true) ]).

Lemma feedback_unconfigured `{Externals} cfg env req_body question feedback st :
  get_prop req_body "question" = Ok question →
  get_prop req_body "feedback" = Ok feedback →
  PG_URL cfg = [] → db st = None →
  feedback_handler cfg env req_body st = (Ok ok_response, st, []).
Proof.
  intros Hq Hf Hurl Hdb. unfold feedback_handler. rewrite Hq, Hf.
  do 2 (rewrite bind_run; cbn [lift result_of state_of trace_of fst snd app]).
  rewrite try_catch_run, bind_run, getDb_unconfigured by done.
  cbn [result_of state_of trace_of fst snd app]. by rewrite bind_run.
Qed.

Definition not_connected_response : Response :=
  json 200 (JObj [ (lit "entries", JArr []);
                   (lit "total", JNum 0);
                   (lit "message", JStr (lit "Database not connected")) ]).

Lemma memory_unconfigured `{Externals} cfg env st :
  PG_URL cfg = [] → db st = None →
  memory cfg env st = (Ok not_connected_response, st, []).
Proof.
  intros Hurl Hdb. unfold memory.
  by rewrite try_catch_run, bind_run, getDb_unconfigured.
Qed.

(** *** Synchronous code returns or throws *)

Definition settled {A} (r : Res A) : Prop :=
  match r with Halted _ => False | _ => True end.

Lemma settled_bind {A B} (m : Res A) (k : A → Res B) :
  settled m → (∀ a, settled (k a)) → settled (m ≫= k).
Proof. destruct m as [a|e|why]; [|done..]. intros _ Hk. apply Hk. Qed.

Lemma settled_get_prop (v : JsVal) (name : string) : settled (get_prop v name).
Proof. by destruct v. Qed.

Lemma settled_ToString `{Externals} (v : JsVal) : settled (ToString v).
Proof. unfold ToString. by destruct (convertible v). Qed.







Lemma scroll_pages_outbound `{Externals} cfg env remaining page offset allPoints st :
  leaves_db_alone st (scroll_pages cfg env remaining page offset allPoints st).
Proof.
  revert page offset allPoints.
  induction remaining as [|n IH]; intros page offset allPoints; [done|].
  rewrite scroll_pages_turn. cbv zeta.
  destruct (upstream env page (page_payload offset)) as [[parsed|]|e|];
    try done.
  destruct (nullish (normalize parsed)); [done|].
  destruct (spread _) as [items|e|why]; [|done..].
  destruct (negb _ || _); [done|].
  destruct (IH (S page) (cursor_of (normalize parsed)) (allPoints ++ items))
    as [Hst Htr].
  cbn [result_of state_of trace_of fst snd app]. split; [exact Hst|].
  exact Htr.
Qed.

Lemma forallb_app_true {A} (f : A → bool) (l l' : list A) :
  forallb f l = true → forallb f l' = true → forallb f (l ++ l') = true.
Proof. intros Hl Hl'. rewrite forallb_app. by rewrite Hl, Hl'. Qed.

(** GET /api/documents has no part in the database. *)
Lemma documents_handler_outbound `{Externals} cfg env st :
  leaves_db_alone st (documents_handler cfg env st).
Proof.
  rewrite documents_handler_run. cbv zeta.
  destruct (scroll_pages_outbound cfg env maxPages 0 JNull [] st) as [Hst Htr].
  destruct (result_of (scroll_pages _ _ _ _ _ _ _)) as [[points ceiling]|e|why];
    [destruct (catalog points) as [response|e|why]|..];
    first [done|split; [done|by apply forallb_app_true]].
Qed.


(** X9: when no connection string is configured ([PG_URL] empty, [db]
    null), no route contacts a database or changes the process state:
    asking and ingesting work as usual without the log, a feedback is
    acknowledged with [{ok: true}] and the memory page answers 200 with
    no entries and the message "Database not connected". *)
Theorem no_database_configured `{Externals}
    (cfg : Config) (env : Env) (st : State) :
  PG_URL cfg = [] → db st = None →
  (∀ req, leaves_db_alone st (serve cfg env req st))
  ∧ (∀ req_body question feedback,
       get_prop req_body "question" = Ok question →
       get_prop req_body "feedback" = Ok feedback →
       result_of (serve cfg env (PostFeedback req_body) st) = Ok ok_response)
  ∧ result_of (serve cfg env GetMemory st) = Ok not_connected_response.
Proof.
  intros Hurl Hdb. split; [|split].
  - intros [req_body|req_body|req_body| | |]; cbn [serve].
    + by apply ask_unconfigured.
    + by apply ingest_unconfigured.
    + destruct (get_prop req_body "question") as [question|e|why] eqn:Hq.
      * destruct (get_prop_other_name _ _ "feedback" _ Hq) as [feedback Hf].
        by rewrite (feedback_unconfigured _ _ _ _ _ _ Hq Hf Hurl Hdb).
      * unfold feedback_handler. rewrite Hq. by rewrite bind_run.
      * by destruct (get_prop_settles _ _ _ Hq).
    + by rewrite memory_unconfigured.
    + apply documents_handler_outbound.
    + done.
  - intros req_body question feedback Hq Hf. cbn [serve].
    by rewrite (feedback_unconfigured _ _ _ _ _ _ Hq Hf Hurl Hdb).
  - cbn [serve]. by rewrite memory_unconfigured.
Qed.

Definition unconfigured : Config :=
  {| QUERY_URL := lit "https://qa.example/webhook";
     INGEST_URL := lit "https://qa.example/ingest";
     QDRANT_URL := lit "http://qdrant.example:6333";
     PG_URL := [] |}.

Lemma no_database_configured_witness :
  leaves_db_alone {| db := None; server := empty_server |}
    (serve (H := sample_externals) unconfigured calm_env (PostAsk ask_request)
           {| db := None; server := empty_server |})
  ∧ result_of (serve (H := sample_externals) unconfigured calm_env GetMemory
                     {| db := None; server := empty_server |})
    = Ok not_connected_response.
Proof.
  destruct (no_database_configured (H := sample_externals) unconfigured calm_env
              {| db := None; server := empty_server |} eq_refl eq_refl)
    as (Hall & _ & Hmem).
  split; [apply Hall|exact Hmem].
Defined.

(** ** POST /api/feedback without a question *)

(** X10: with a handle in [db], a feedback whose question is missing or
    falsy (the empty string, null) is acknowledged with [{ok: true}]
    and no statement is sent: the process state is unchanged. *)
Theorem feedback_without_question_is_acknowledged `{Externals}
    (cfg : Config) (env : Env) (req_body question feedback : JsVal)
    (c : Client) (st : State) :
  get_prop req_body "question" = Ok question →
  get_prop req_body "feedback" = Ok feedback →
  truthy question = false →
  db st = Some c →
  feedback_handler cfg env req_body st = (Ok ok_response, st, []).
Proof.
  intros Hq Hf Ht Hdb. unfold feedback_handler. rewrite Hq, Hf.
  do 2 (rewrite bind_run; cbn [lift result_of state_of trace_of fst snd app]).
  rewrite try_catch_run, bind_run, getDb_run, Hdb.
  cbn [result_of state_of trace_of fst snd app]. rewrite Ht.
  by rewrite bind_run.
Qed.

Lemma feedback_without_question_is_acknowledged_witness :
  feedback_handler (H := sample_externals) sample_config faulty_db_env
    (JObj [ (lit "question", JStr []); (lit "feedback", JStr (lit "down")) ])
    (connected_state three_fresh_rows)
  = (Ok ok_response, connected_state three_fresh_rows, []).
Proof.
  exact (feedback_without_question_is_acknowledged (H := sample_externals)
           sample_config faulty_db_env
           (JObj [ (lit "question", JStr []);
                   (lit "feedback", JStr (lit "down")) ])
           (JStr []) (JStr (lit "down")) {| connected := true |}
           (connected_state three_fresh_rows)
           eq_refl eq_refl eq_refl eq_refl).
Defined.

(** ** GET /api/memory *)

(** Newest first. *)
Definition newer_or_same (a b : Row) : Prop := (created_at b ≤ created_at a)%Z.

Lemma insert_newest_perm (r : Row) (sorted : list Row) :
  insert_newest r sorted ≡ₚ r :: sorted.
Proof.
  induction sorted as [|r' rest IH]; [done|]. simpl.
  destruct (created_at r <? created_at r')%Z; [|done].
  rewrite IH. apply Permutation_swap.
Qed.

Lemma newest_first_perm (rows : list Row) : newest_first rows ≡ₚ rows.
Proof.
  unfold newest_first. induction rows as [|r rows IH]; [done|]. simpl.
  by rewrite insert_newest_perm, IH.
Qed.

Lemma insert_newest_sorted (r : Row) (sorted : list Row) :
  StronglySorted newer_or_same sorted →
  StronglySorted newer_or_same (insert_newest r sorted).
Proof.
  induction 1 as [|r' rest Hrest IH Hall]; simpl.
  - repeat constructor.
  - destruct (Z.ltb_spec (created_at r) (created_at r')) as [Hlt|Hge].
    + constructor; [exact IH|].
      rewrite insert_newest_perm. constructor; [|exact Hall].
      unfold newer_or_same. lia.
    + constructor; [by constructor|].
      constructor; [unfold newer_or_same; lia|].
      eapply Forall_impl; [exact Hall|].
      intros x Hx. unfold newer_or_same in *. lia.
Qed.

Lemma newest_first_sorted (rows : list Row) :
  StronglySorted newer_or_same (newest_first rows).
Proof.
  unfold newest_first. induction rows as [|r rows IH]; simpl.
  - constructor.
  - by apply insert_newest_sorted.
Qed.

Lemma count_disjoint {A} (P Q : A → Prop)
    `{∀ x, Decision (P x)} `{∀ x, Decision (Q x)} (l : list A) :
  (∀ x, P x → Q x → False) →
  (length (filter P l) + length (filter Q l) ≤ length l)%nat.
Proof.
  intros Hdisj. induction l as [|x l IH]; [done|].
  rewrite !filter_cons.
  destruct (decide (P x)) as [HP|HP]; destruct (decide (Q x)) as [HQ|HQ];
    simpl; try lia.
  destruct (Hdisj x HP HQ).
Qed.

Lemma memory_connected_run `{Externals} cfg env rows next st :
  st = {| db := Some {| connected := true |};
          server := {| query_log := Some rows; next_id := next |} |} →
  db_fault env (SelectRecent 100) = None →
  db_fault env SelectStats = None →
  memory cfg env st
  = (Ok {| status := 200;
           body := BMemory (take 100 (newest_first rows)) (stats_of rows)
                           (length rows) |},
     st, [EQuery (SelectRecent 100); EQuery SelectStats]).
Proof.
  intros -> Hrecent Hstats. unfold memory.
  rewrite try_catch_run, bind_run, getDb_run.
  cbn [db result_of state_of trace_of fst snd app].
  rewrite bind_run, pg_query_run, Hrecent.
  cbn [connected server pg_exec query_log result_of state_of trace_of fst snd app db].
  rewrite bind_run, pg_query_run, Hstats.
  by cbn [connected server pg_exec query_log result_of state_of trace_of fst snd
            app db ret stats_of total].
Qed.

(** X11: with a connected handle, an existing relation and no failure,
    GET /api/memory answers 200 with at most 100 entries, all of them
    rows of the table, newest first, none older left out for a newer
    one kept; [total] counts every row of the table, also beyond the
    hundred; the stale count is at most [total] and so is the number
    of feedbacks up and down together; and the table is unchanged. *)
Theorem memory_lists_newest_rows `{Externals}
    (cfg : Config) (env : Env) (rows : list Row) (next : N) (st : State) :
  st = {| db := Some {| connected := true |};
          server := {| query_log := Some rows; next_id := next |} |} →
  db_fault env (SelectRecent 100) = None →
  db_fault env SelectStats = None →
  ∃ entries stats,
    memory cfg env st
    = (Ok {| status := 200; body := BMemory entries stats (length rows) |},
       st, [EQuery (SelectRecent 100); EQuery SelectStats])
    ∧ length entries = (length rows `min` 100)%nat
    ∧ entries ⊆+ rows
    ∧ StronglySorted newer_or_same entries
    ∧ (∀ r, r ∈ rows → r ∉ entries →
         ∀ e, e ∈ entries → newer_or_same e r)
    ∧ total stats = length rows
    ∧ (stale_count stats ≤ total stats)%nat
    ∧ (thumbs_up stats + thumbs_down stats ≤ total stats)%nat.
Proof.
  intros Hst Hrecent Hstats.
  exists (take 100 (newest_first rows)), (stats_of rows).
  split; [by apply (memory_connected_run _ _ rows next)|].
  split.
  { rewrite length_take, (Permutation_length (newest_first_perm rows)). lia. }
  split.
  { rewrite <- (newest_first_perm rows) at 2. apply submseteq_take. }
  split.
  { apply (StronglySorted_app_1_l _ _ (drop 100 (newest_first rows))).
    rewrite take_drop. apply newest_first_sorted. }
  split.
  { intros r Hr Hnot e He.
    assert (Hin : r ∈ drop 100 (newest_first rows)).
    { rewrite <- (newest_first_perm rows), <- (take_drop 100) in Hr.
      apply elem_of_app in Hr as [Hr|Hr]; [done|exact Hr]. }
    eapply (StronglySorted_app_1_elem_of newer_or_same); [|exact He|exact Hin].
    rewrite take_drop. apply newest_first_sorted. }
  split; [done|]. split.
  - apply length_filter.
  - cbn [stats_of thumbs_up thumbs_down total]. unfold count_rows.
    apply count_disjoint. intros r Hup Hdown.
    apply bool_decide_eq_true_1 in Hup, Hdown.
    rewrite Hup in Hdown. by vm_compute in Hdown.
Qed.

Lemma memory_lists_newest_rows_witness :
  ∃ entries stats,
    memory (H := sample_externals) sample_config calm_env
           (connected_state three_fresh_rows)
    = (Ok {| status := 200; body := BMemory entries stats 3 |},
       connected_state three_fresh_rows,
       [EQuery (SelectRecent 100); EQuery SelectStats])
    ∧ length entries = 3%nat
    ∧ StronglySorted newer_or_same entries.
Proof.
  destruct (memory_lists_newest_rows (H := sample_externals) sample_config
              calm_env three_fresh_rows 10 (connected_state three_fresh_rows)
              eq_refl eq_refl eq_refl)
    as (entries & stats & Hrun & Hlen & _ & Hsorted & _).
  exists entries, stats. split; [exact Hrun|]. split; [exact Hlen|exact Hsorted].
Defined.

(** X12: when [db] holds no client or a connected one and the
    connection stays up, GET /api/memory always answers, with a 200 or,
    when the handle cannot be acquired or a SELECT is rejected, with a
    500; and it changes no row. *)
Theorem memory_always_answers `{Externals}
    (cfg : Config) (env : Env) (st : State) :
  db st = None ∨ db st = Some {| connected := true |} →
  (∀ s, db_fault env s ≠ Some ConnectionLost) →
  (∃ response,
     result_of (memory cfg env st) = Ok response
     ∧ (status response = 200 ∨ status response = 500))
  ∧ rows_of (server (state_of (memory cfg env st))) = rows_of (server st).
Proof.
  intros Hdb Hup. unfold memory. rewrite try_catch_run, bind_run, getDb_run.
  assert (Hqueries : ∀ st',
    rows_of (server st') = rows_of (server st) →
    let run := (rows <- pg_query {| connected := true |} env (SelectRecent 100) ;;
                stats <- pg_query {| connected := true |} env SelectStats ;;
                match rows, stats with
                | QRows entries, QStats s =>
                    ret {| status := 200; body := BMemory entries s (total s) |}
                | _, _ =>
                    throw (lit "Cannot read properties of undefined (reading 'total')")
                end) st' in
    rows_of (server (state_of run)) = rows_of (server st)
    ∧ match result_of run with
      | Ok response => status response = 200
      | Throw _ => True
      | Halted _ => False
      end).
  { intros st' Hrows; cbv zeta; rewrite bind_run, pg_query_run;
      cbn [connected].
    pose proof (Hup (SelectRecent 100)) as Hrecent.
    destruct (db_fault env (SelectRecent 100)) as [[?|]|]; [done|done|].
    cbn [pg_exec]. unfold relation_missing.
    destruct (query_log (server st')) as [rows|] eqn:Hlog; [|done].
    cbn [result_of state_of trace_of fst snd app].
    rewrite bind_run, pg_query_run.
    cbn [connected].
    pose proof (Hup SelectStats) as Hstats.
    destruct (db_fault env SelectStats) as [[?|]|]; [done|done|].
    cbn [server pg_exec]. rewrite Hlog.
    cbn [result_of state_of trace_of fst snd app server ret].
    split; [|done]. unfold rows_of in *. cbn [query_log]. by rewrite <- Hrows, Hlog. }
  destruct Hdb as [Hdb|Hdb]; rewrite Hdb.
  - destruct (bool_decide (PG_URL cfg = [])).
    { cbn [result_of state_of trace_of fst snd app ret].
      split; [|done]. eexists. split; [reflexivity|by left]. }
    destruct (connect_error env).
    { cbn [console_error bind emit ret result_of state_of trace_of fst snd app server].
      split; [|done]. eexists. split; [reflexivity|by right]. }
    cbv zeta. pose proof (Hup CreateTableIfNotExists) as Hcreate.
    destruct (db_fault env CreateTableIfNotExists) as [[?|]|]; [|done|].
    { cbn [console_error bind emit ret result_of state_of trace_of fst snd app server].
      split; [|done]. eexists. split; [reflexivity|by right]. }
    cbn [result_of state_of trace_of fst snd app].
    set (st' := {| db := Some {| connected := true |};
                   server := with_table (server st) |}).
    assert (Hst' : rows_of (server st') = rows_of (server st)).
    { unfold rows_of, st', with_table. cbn. by destruct (query_log (server st)). }
    destruct (Hqueries st' Hst') as [Hrows Hres].
    cbv zeta in Hrows, Hres.
    destruct (result_of _) as [response|e|why] eqn:Hrun; [| |done].
    + split; [|exact Hrows]. exists response. split; [done|by left].
    + cbn [console_error bind emit ret result_of state_of trace_of fst snd app].
      split; [|exact Hrows]. eexists. split; [reflexivity|by right].
  - cbn [result_of state_of trace_of fst snd app].
    destruct (Hqueries st eq_refl) as [Hrows Hres]. cbv zeta in Hrows, Hres.
    destruct (result_of _) as [response|e|why] eqn:Hrun; [| |done].
    + split; [|exact Hrows]. exists response. split; [done|by left].
    + cbn [console_error bind emit ret result_of state_of trace_of fst snd app].
      split; [|exact Hrows]. eexists. split; [reflexivity|by right].
Qed.

(** The database rejects the SELECT and the page answers a 500. *)
Lemma memory_always_answers_witness :
  (∃ response,
     result_of (memory (H := sample_externals) sample_config faulty_db_env
                       (connected_state three_fresh_rows)) = Ok response
     ∧ (status response = 200 ∨ status response = 500))
  ∧ rows_of (server (state_of
      (memory (H := sample_externals) sample_config faulty_db_env
              (connected_state three_fresh_rows))))
    = three_fresh_rows.
Proof.
  apply (memory_always_answers (H := sample_externals) sample_config
           faulty_db_env (connected_state three_fresh_rows)).
  - by right.
  - intros s. discriminate.
Defined.

(** ** What no route does to the log *)

Section Kept.
Context `{Externals}.

(** A relation between the rows before and after, kept by every
    statement that the handlers send. *)
Variable R : list Row → list Row → Prop.
Hypothesis R_refl : ∀ rows, R rows rows.
Hypothesis R_trans : ∀ a b c, R a b → R b c → R a c.
Hypothesis R_exec : ∀ now s srv r srv',
  issued s → pg_exec now s srv = Ok (r, srv') → R (rows_of srv) (rows_of srv').

Definition keeps {A} (m : M A) : Prop :=
  ∀ st, R (rows_of (server st)) (rows_of (server (state_of (m st)))).

Lemma keeps_same {A} (m : M A) : (∀ st, state_of (m st) = st) → keeps m.
Proof. intros Hm st. rewrite Hm. apply R_refl. Qed.

Lemma keeps_bind_gen {A B} (m : M A) (k : A → M B) :
  keeps m → (∀ a, keeps (k a)) → keeps (bind m k).
Proof.
  intros Hm Hk st. rewrite bind_run.
  destruct (result_of (m st)) as [a|e|why]; [|apply Hm..].
  eapply R_trans; [apply Hm|apply Hk].
Qed.

Lemma keeps_try_catch_gen {A} (m : M A) (h : jsstring → M A) :
  keeps m → (∀ e, keeps (h e)) → keeps (try_catch m h).
Proof.
  intros Hm Hh st. rewrite try_catch_run.
  destruct (result_of (m st)) as [a|e|why]; [apply Hm| |apply Hm].
  eapply R_trans; [apply Hm|apply Hh].
Qed.

Lemma keeps_pg_query_gen c env s : issued s → keeps (pg_query c env s).
Proof.
  intros Hs st. rewrite pg_query_run.
  destruct (connected c); [|apply R_refl].
  destruct (db_fault env s) as [[?|]|]; [apply R_refl..|].
  destruct (pg_exec _ _ _) as [[r srv]|e|why] eqn:Hexec; [|apply R_refl..].
  by apply (R_exec _ _ _ _ _ Hs Hexec).
Qed.

Lemma keeps_getDb_gen cfg env : keeps (getDb cfg env).
Proof.
  intros st. rewrite getDb_run.
  destruct (db st); [apply R_refl|].
  destruct (bool_decide _); [apply R_refl|].
  destruct (connect_error env); [apply R_refl|]. cbv zeta.
  destruct (db_fault env _) as [[?|]|]; [apply R_refl..|].
  cbn [state_of fst snd server]. unfold rows_of, with_table. cbn [query_log].
  destruct (query_log (server st)); apply R_refl.
Qed.

Lemma keeps_proxyRequest_gen net target payload timeoutMs :
  keeps (proxyRequest net target payload timeoutMs).
Proof. apply keeps_same. intros st. by destruct net as [[?|]|?|]. Qed.

Ltac keeps_gen_step :=
  first
    [ apply keeps_getDb_gen | apply keeps_proxyRequest_gen
    | apply keeps_pg_query_gen; constructor
    | apply keeps_same; intros ?; reflexivity
    | apply keeps_bind_gen; [|intros ?]
    | apply keeps_try_catch_gen; [|intros ?]
    | match goal with
      | |- keeps (match ?x with _ => _ end) => destruct x
      end ].

Lemma keeps_scroll_pages_gen cfg env remaining page offset allPoints :
  keeps (scroll_pages cfg env remaining page offset allPoints).
Proof.
  apply keeps_same. intros st. apply scroll_pages_outbound.
Qed.

Lemma keeps_serve_gen cfg env req : keeps (serve cfg env req).
Proof.
  destruct req; simpl.
  - unfold ask. repeat keeps_gen_step.
  - unfold ingest. repeat keeps_gen_step.
  - unfold feedback_handler. repeat keeps_gen_step.
  - unfold memory. repeat keeps_gen_step.
  - apply keeps_same. intros st. apply documents_handler_outbound.
  - by apply keeps_same.
Qed.

Lemma keeps_startup_gen cfg env : keeps (startup cfg env).
Proof. unfold startup. repeat keeps_gen_step. Qed.

End Kept.

(** The columns that are written once, at the INSERT. *)
Definition same_record (r r' : Row) : Prop :=
  row_id r' = row_id r ∧ question r' = question r ∧ answer r' = answer r
  ∧ confidence r' = confidence r ∧ verdict r' = verdict r
  ∧ quality_score r' = quality_score r ∧ category r' = category r
  ∧ complexity r' = complexity r ∧ citation_count r' = citation_count r
  ∧ routing r' = routing r ∧ processing_time_s r' = processing_time_s r
  ∧ created_at r' = created_at r.

Definition rows_kept (before after : list Row) : Prop :=
  ∀ i r, before !! i = Some r → ∃ r', after !! i = Some r' ∧ same_record r r'.

Lemma same_record_refl (r : Row) : same_record r r.
Proof. by repeat split. Qed.

Lemma rows_kept_refl (rows : list Row) : rows_kept rows rows.
Proof. intros i r Hi. exists r. split; [done|apply same_record_refl]. Qed.

Lemma rows_kept_trans (a b c : list Row) :
  rows_kept a b → rows_kept b c → rows_kept a c.
Proof.
  intros Hab Hbc i r Hi.
  destruct (Hab i r Hi) as (r' & Hi' & Hr).
  destruct (Hbc i r' Hi') as (r'' & Hi'' & Hr').
  exists r''. split; [done|].
  unfold same_record in *. intuition congruence.
Qed.

Lemma rows_kept_length (before after : list Row) :
  rows_kept before after → (length before ≤ length after)%nat.
Proof.
  intros Hkept. destruct (decide (length before = 0)%nat) as [|Hne]; [lia|].
  destruct (lookup_lt_is_Some_2 before (length before - 1)) as [r Hr]; [lia|].
  destruct (Hkept _ _ Hr) as (r' & Hr' & _).
  apply lookup_lt_Some in Hr'. lia.
Qed.

Lemma pg_exec_keeps_rows `{Externals} now s srv r srv' :
  issued s →
  pg_exec now s srv = Ok (r, srv') →
  rows_kept (rows_of srv) (rows_of srv').
Proof.
  intros Hissued Hexec. destruct Hissued as [|params|t iso|fb q|n|].
  - injection Hexec as <- <-. unfold rows_of. cbn [query_log default].
    destruct (query_log srv); apply rows_kept_refl.
  - assert (Hcases : srv' = srv ∨ ∃ row, query_log srv' = Some (rows_of srv ++ [row])).
    { unfold pg_exec in Hexec. repeat case_match; simplify_eq; try by left.
      right. eexists. unfold rows_of.
      by match goal with Hq : query_log srv = _ |- _ => rewrite Hq end. }
    destruct Hcases as [->|[row Hrows]]; [apply rows_kept_refl|].
    unfold rows_of at 2. rewrite Hrows. intros i r0 Hi. exists r0.
    split; [by apply lookup_app_l_Some|apply same_record_refl].
  - destruct (pg_exec_mark_stale _ _ _ _ _ _ Hexec) as [_ ->].
    intros i r0 Hi. exists (stamp (stale_message t iso) r0).
    rewrite list_lookup_fmap, Hi. split; [done|].
    unfold stamp. destruct (stale r0); by repeat split.
  - by rewrite pg_exec_attach_feedback in Hexec.
  - unfold pg_exec in Hexec. destruct (query_log srv); [|done].
    injection Hexec as <- <-. apply rows_kept_refl.
  - unfold pg_exec in Hexec. destruct (query_log srv); [|done].
    injection Hexec as <- <-. apply rows_kept_refl.
Qed.

(** X13: no request and no start-up deletes a row, moves it, or changes
    its id, question, answer, scores or creation time: every row of the
    table is found afterwards at the same place with those columns
    unchanged, so the table never shrinks. *)
Theorem no_route_rewrites_the_log `{Externals}
    (cfg : Config) (env : Env) (st : State) :
  (∀ req,
     rows_kept (rows_of (server st))
               (rows_of (server (state_of (serve cfg env req st))))
     ∧ (length (rows_of (server st))
        ≤ length (rows_of (server (state_of (serve cfg env req st)))))%nat)
  ∧ rows_kept (rows_of (server st))
              (rows_of (server (state_of (startup cfg env st)))).
Proof.
  split.
  - intros req.
    assert (Hkept := keeps_serve_gen rows_kept rows_kept_refl rows_kept_trans
                       pg_exec_keeps_rows cfg env req st).
    split; [exact Hkept|by apply rows_kept_length].
  - exact (keeps_startup_gen rows_kept rows_kept_refl rows_kept_trans
             cfg env st).
Qed.

(** ** The row that POST /api/ask logs *)

(** The row for the question [q] and the upstream result [result]: a
    field of the result that is missing or falsy is replaced by its
    default before it is bound.  The processing time is parsed from its
    string (there is a row only when it has one). *)
Definition logged_row `{Externals} (id_ : N) (now : Z) (q : jsstring)
    (result : JsVal) : Row :=
  let stored name fallback := prepareValue (js_or (prop result name) fallback) in
  {| row_id := id_;
     question := trim q;
     answer := stored "answer" (JStr []);
     confidence := stored "confidence" (JStr (lit "MEDIUM"));
     verdict := stored "judge_verdict" (JStr (lit "NEEDS_EDIT"));
     quality_score := stored "judge_quality" (JNum 0);
     category := stored "category" (JStr (lit "general"));
     complexity := stored "complexity" (JStr (lit "complex"));
     citation_count := stored "citation_count" (JNum 0);
     routing := stored "routing" (JStr (lit "human_review"));
     processing_time_s :=
       prepareValue
         (js_or (JNum (parseFloat (to_text (prop result "processing_time_s"))))
                (JNum 0));
     feedback := None;
     created_at := now;
     stale := false;
     stale_reason := None |}.

Lemma log_params_unconvertible `{Externals} (q : jsstring) (result : JsVal) :
  convertible (prop result "processing_time_s") = false →
  ∃ e, log_params (JStr q) result = Throw e.
Proof.
  intros Hconv.
  destruct result as [| |b|x|str|items|props];
    try (by cbn in Hconv); try (by eexists).
  unfold prop in Hconv. cbn [get_prop] in Hconv.
  unfold log_params. cbn [call_trim get_prop mbind Res_bind].
  rewrite (ToString_unconvertible _ Hconv). by eexists.
Qed.

Lemma log_params_object `{Externals} (q : jsstring) (result : JsVal) :
  nullish result = false →
  convertible (prop result "processing_time_s") = true →
  log_params (JStr q) result
  = Ok [ JStr (trim q);
         js_or (prop result "answer") (JStr []);
         js_or (prop result "confidence") (JStr (lit "MEDIUM"));
         js_or (prop result "judge_verdict") (JStr (lit "NEEDS_EDIT"));
         js_or (prop result "judge_quality") (JNum 0);
         js_or (prop result "category") (JStr (lit "general"));
         js_or (prop result "complexity") (JStr (lit "complex"));
         js_or (prop result "citation_count") (JNum 0);
         js_or (prop result "routing") (JStr (lit "human_review"));
         js_or (JNum (parseFloat (to_text (prop result "processing_time_s"))))
               (JNum 0) ].
Proof.
  intros Hnull Hconv. unfold log_params, ToString.
  destruct result; try done; unfold prop in *; cbn in *; by rewrite Hconv.
Qed.

Lemma stored_not_null `{Externals} (v fallback : JsVal) :
  nullish fallback = false → is_Some (prepareValue (js_or v fallback)).
Proof.
  intros Hf. unfold js_or. destruct (truthy v) eqn:Hv.
  - by destruct v.
  - by destruct fallback.
Qed.

Lemma log_query_row `{Externals} cfg env q result st :
  insert_succeeded (trace_of (log_query cfg env (JStr q) result st)) = true →
  rows_of (server (state_of (log_query cfg env (JStr q) result st)))
  = rows_of (server st)
    ++ [logged_row (next_id (server st)) (db_now env) q result].
Proof.
  assert (Hinsert : ∀ srv r srv',
    pg_exec (db_now env)
      (InsertLog [ JStr (trim q);
         js_or (prop result "answer") (JStr []);
         js_or (prop result "confidence") (JStr (lit "MEDIUM"));
         js_or (prop result "judge_verdict") (JStr (lit "NEEDS_EDIT"));
         js_or (prop result "judge_quality") (JNum 0);
         js_or (prop result "category") (JStr (lit "general"));
         js_or (prop result "complexity") (JStr (lit "complex"));
         js_or (prop result "citation_count") (JNum 0);
         js_or (prop result "routing") (JStr (lit "human_review"));
         js_or (JNum (parseFloat (to_text (prop result "processing_time_s"))))
               (JNum 0) ]) srv = Ok (r, srv') →
    rows_of srv' = rows_of srv ++ [logged_row (next_id srv) (db_now env) q result]).
  { intros srv r srv'. unfold pg_exec, rows_of. cbn [prepareValue].
    destruct (query_log srv) as [rows|]; [|done]. by intros [= <- <-]. }
  unfold log_query. rewrite try_catch_run, bind_run, getDb_run.
  destruct (db st) as [c|] eqn:Hdb.
  - cbn [result_of state_of trace_of fst snd app].
    rewrite bind_run. cbn [lift result_of state_of trace_of fst snd app].
    destruct (nullish result) eqn:Hnull.
    { destruct (log_params_nullish q result Hnull) as [e ->]. done. }
    destruct (convertible (prop result "processing_time_s")) eqn:Hconv; cycle 1.
    { destruct (log_params_unconvertible q result Hconv) as [e ->]. done. }
    rewrite (log_params_object q result Hnull Hconv).
    rewrite bind_run, pg_query_run.
    destruct (connected c); [|done].
    destruct (db_fault env _) as [[?|]|]; [done..|].
    destruct (pg_exec _ _ _) as [[r srv]|e|why] eqn:Hexec;
      [|done|by destruct (pg_exec_settles _ _ _ _ Hexec)].
    intros _. cbn [result_of state_of trace_of fst snd server ret].
    by apply (Hinsert _ _ _ Hexec).
  - destruct (bool_decide (PG_URL cfg = [])); [done|].
    destruct (connect_error env); [done|]. cbv zeta.
    destruct (db_fault env CreateTableIfNotExists) as [[?|]|]; [done..|].
    cbn [result_of state_of trace_of fst snd app].
    rewrite bind_run. cbn [lift result_of state_of trace_of fst snd app].
    destruct (nullish result) eqn:Hnull.
    { destruct (log_params_nullish q result Hnull) as [e ->]. done. }
    destruct (convertible (prop result "processing_time_s")) eqn:Hconv; cycle 1.
    { destruct (log_params_unconvertible q result Hconv) as [e ->]. done. }
    rewrite (log_params_object q result Hnull Hconv).
    rewrite bind_run, pg_query_run. cbn [connected].
    destruct (db_fault env _) as [[?|]|]; [done..|].
    destruct (pg_exec _ _ _) as [[r srv]|e|why] eqn:Hexec;
      [|done|by destruct (pg_exec_settles _ _ _ _ Hexec)].
    intros _. cbn [result_of state_of trace_of fst snd server ret].
    rewrite (Hinsert _ _ _ Hexec).
    unfold rows_of, with_table. cbn [query_log next_id].
    by destruct (query_log (server st)).
Qed.

(** X14: the row that a successful POST /api/ask adds is fresh, has no
    feedback and no stale reason, carries the database's time and the
    next id of the sequence, and none of its answer, confidence,
    verdict, quality, category, complexity, citation count, routing and
    processing time is NULL: a field that upstream leaves out or
    returns falsy is stored as its default ("", "MEDIUM", "NEEDS_EDIT",
    0, "general", "complex", 0, "human_review", 0). *)
Theorem ask_logged_row_has_defaults `{Externals}
    (cfg : Config) (env : Env) (req_body : JsVal) (q : jsstring)
    (parsed : JsVal) (st : State) :
  get_prop req_body "question" = Ok (JStr q) →
  (5 ≤ length (trim q))%nat →
  upstream env 0%nat (ask_payload q) = UpBody (Some parsed) →
  insert_succeeded (trace_of (ask cfg env req_body st)) = true →
  let row := logged_row (next_id (server st)) (db_now env) q (normalize parsed) in
  rows_of (server (state_of (ask cfg env req_body st)))
  = rows_of (server st) ++ [row]
  ∧ is_Some (answer row) ∧ is_Some (confidence row) ∧ is_Some (verdict row)
  ∧ is_Some (quality_score row) ∧ is_Some (category row)
  ∧ is_Some (complexity row) ∧ is_Some (citation_count row)
  ∧ is_Some (routing row) ∧ is_Some (processing_time_s row)
  ∧ (∀ name fallback,
       truthy (prop (normalize parsed) name) = false →
       prepareValue (js_or (prop (normalize parsed) name) fallback)
       = prepareValue fallback).
Proof.
  intros Hq Hlen Hup.
  rewrite (ask_valid_run cfg env req_body q st Hq Hlen). cbv zeta.
  rewrite Hup. cbn [trace_of state_of fst snd].
  intros Hins.
  split; [by apply log_query_row|].
  cbn [logged_row answer confidence verdict quality_score category complexity
       citation_count routing processing_time_s].
  repeat (split; [by apply stored_not_null|]).
  intros name fallback Hfalsy. unfold js_or. by rewrite Hfalsy.
Qed.

Lemma ask_logged_row_has_defaults_witness :
  rows_of (server (state_of
    (ask (H := sample_externals) sample_config (answering_env (λ _, None))
         ask_request (connected_state []))))
  = [ logged_row (H := sample_externals) 10 1000
        (lit " What is the notice period? ")
        (JObj [ (lit "answer", JStr (lit "30 days"));
                (lit "confidence", JStr (lit "HIGH")) ]) ]
  ∧ category (logged_row (H := sample_externals) 10 1000
        (lit " What is the notice period? ")
        (JObj [ (lit "answer", JStr (lit "30 days"));
                (lit "confidence", JStr (lit "HIGH")) ]))
    = Some (lit "general").
Proof.
  destruct (ask_logged_row_has_defaults (H := sample_externals) sample_config
              (answering_env (λ _, None)) ask_request
              (lit " What is the notice period? ")
              (JArr [ JObj [ (lit "answer", JStr (lit "30 days"));
                             (lit "confidence", JStr (lit "HIGH")) ] ])
              (connected_state []))
    as (Hrows & _).
  - reflexivity.
  - vm_compute. lia.
  - reflexivity.
  - vm_compute. reflexivity.
  - split; [exact Hrows|reflexivity].
Defined.

(** ** The catalog: documents and pairs *)

(** Two points with different derived pairs never share a key. *)
Definition keys_separate `{Externals} (points : list JsVal) : Prop :=
  ∀ pt pt', pt ∈ points → pt' ∈ points →
    key_of pt = key_of pt' → pair_of pt = pair_of pt'.

(** The payload of a point, an empty object when it has none. *)
Definition payload_of (pt : JsVal) : JsVal := js_or (prop pt "payload") (JObj []).

(** What a document takes from the payload of the point that seeds it:
    the title, "Untitled" when there is none, and the description, with
    its defaults. *)
Definition described_by (pt : JsVal) (d : Doc) : Prop :=
  title d = js_or (prop (payload_of pt) "title") (JStr (lit "Untitled"))
  ∧ document_type d
    = js_or (prop (payload_of pt) "document_type") (JStr (lit "unknown"))
  ∧ jurisdictions d = js_or (prop (payload_of pt) "jurisdictions") (JArr [])
  ∧ topics d = js_or (prop (payload_of pt) "topics") (JArr []).

Lemma keyed_described `{Externals} (pt : JsVal) (k : jsstring) (s : Doc) :
  keyed pt = Some (k, s) → described_by pt s.
Proof.
  unfold keyed, derive.
  destruct (get_prop pt "payload") as [payload| |] eqn:Hpayload; [|done..].
  assert (Hp : payload_of pt = js_or payload (JObj [])).
  { unfold payload_of, prop. by rewrite Hpayload. }
  cbn [mbind Res_bind].
  rewrite !(get_prop_truthy _ _ (js_or_object_truthy payload)).
  cbn [mbind Res_bind].
  destruct (derive_repo _ _) as [r| |]; [|done..].
  cbn [mbind Res_bind mret Res_ret].
  destruct (doc_key _ _) as [key| |]; [|done..].
  intros [= _ <-]. unfold described_by. by rewrite Hp.
Qed.

(** X20: when lines 427-440 throw on no point and points with different
    derived [(repo, title)] have different keys [repo::title], the
    documents of the response are in bijection with the distinct
    derived pairs; the [chunks] of a document is the number of points
    with its pair (equivalently, with its key); and a document is
    seeded by the first point with its pair, whose payload gives its
    title ("Untitled" when it has none), [document_type] ("unknown"),
    [jurisdictions] and [topics] (empty arrays). *)
Theorem catalog_groups_points `{Externals} (points : list JsVal) :
  Forall (λ pt, is_Some (keyed pt)) points →
  keys_separate points →
  ∃ repos documents,
    catalog points
    = Ok {| status := 200;
            body := BDocuments repos documents (length documents)
                               (length points) |}
    ∧ NoDup (doc_pair <$> documents)
    ∧ (∀ pair, pair ∈ doc_pair <$> documents
               ↔ ∃ pt, pt ∈ points ∧ pair_of pt = Some pair)
    ∧ ∀ d, d ∈ documents →
        (∀ pt, pt ∈ points →
           (pair_of pt = Some (doc_pair d)
            ↔ key_of pt = Some (key_text (repo d) (title d))))
        ∧ chunks d
          = length (filter (λ pt, key_of pt = Some (key_text (repo d) (title d)))
                           points)
        ∧ ∃ i pt,
            points !! i = Some pt
            ∧ keyed pt = Some (key_text (repo d) (title d), with_chunks d 0)
            ∧ described_by pt d
            ∧ ∀ j pt', (j < i)%nat → points !! j = Some pt' →
                       pair_of pt' ≠ Some (doc_pair d).
Proof.
  intros Hwf Hsep.
  destruct (keyed_entries points Hwf) as [entries Hall].
  set (docMap := foldl add_point [] entries).
  assert (Hentry : ∀ k d, (k, d) ∈ docMap →
            k = key_text (repo d) (title d)
            ∧ chunks d = length (filter (λ pt, key_of pt = Some k) points)
            ∧ ∃ i pt, points !! i = Some pt
                      ∧ keyed pt = Some (k, with_chunks d 0)
                      ∧ ∀ j pt', (j < i)%nat → points !! j = Some pt' →
                                 key_of pt' ≠ Some k).
  { intros k d. apply docMap_entries. exact Hall. }
  assert (Hplain : obj_values docMap = docMap.*2).
  { apply obj_values_plain. apply Forall_forall. intros [k d] Hin.
    destruct (Hentry k d Hin) as [-> _]. simpl.
    apply colon_not_index, key_text_has_colon. }
  assert (Hkeys : docMap.*1
                  = (λ pr, key_text pr.1 pr.2) <$> (doc_pair <$> docMap.*2)).
  { rewrite <- !list_fmap_compose. apply list_fmap_ext.
    intros i [k d] Hi. simpl.
    apply list_elem_of_lookup_2 in Hi. by destruct (Hentry k d Hi) as [-> _]. }
  assert (Hpair : ∀ pt k s, keyed pt = Some (k, s) →
            pair_of pt = Some (doc_pair s) ∧ key_of pt = Some k).
  { intros pt k s Hk. by destruct (keyed_inv _ _ _ Hk) as (_ & ? & ? & _). }
  exists (sort_repos (obj_values (foldl summarize [] docMap.*2))), docMap.*2.
  split; [exact (catalog_run points entries Hall)|].
  split.
  { destruct (foldl_add_point entries) as [Hnd _]. fold docMap in Hnd.
    rewrite Hkeys in Hnd. by apply NoDup_fmap_1 in Hnd. }
  split.
  { intros pair. split.
    - intros (d & -> & (kd & -> & Hin)%list_elem_of_fmap)%list_elem_of_fmap.
      destruct kd as [k d].
      destruct (Hentry k d Hin) as (_ & _ & i & pt & Hi & Hk & _).
      exists pt. split; [by apply list_elem_of_lookup_2 in Hi|].
      by destruct (Hpair _ _ _ Hk) as [-> _].
    - intros (pt & Hpt & Hpr).
      destruct (proj1 (Forall_forall _ _) Hwf pt Hpt) as [[k s] Hk].
      destruct (Hpair _ _ _ Hk) as [Hpr' Hkey].
      destruct (docMap_covers _ _ _ _ Hall Hpt Hkey) as [d Hd].
      destruct (Hentry k d Hd) as (_ & _ & i & pt' & Hi & Hk' & _).
      destruct (Hpair _ _ _ Hk') as [Hpr'' Hkey'].
      apply list_elem_of_lookup_2 in Hi.
      assert (Heq : pair_of pt = pair_of pt') by (apply Hsep; congruence).
      apply list_elem_of_fmap. exists d. split.
      + rewrite Hpr, Hpr'' in Heq. by injection Heq.
      + apply list_elem_of_fmap. by exists (k, d). }
  intros d ((k & d') & -> & Hin)%list_elem_of_fmap. simpl.
  destruct (Hentry k d' Hin) as (Hk & Hcount & i & pt0 & Hi & Hk0 & Hfirst).
  subst k.
  destruct (Hpair _ _ _ Hk0) as [Hpr0 Hkey0].
  pose proof (list_elem_of_lookup_2 _ _ _ Hi) as Hpt0.
  assert (Hiff : ∀ pt, pt ∈ points →
            (pair_of pt = Some (doc_pair d')
             ↔ key_of pt = Some (key_text (repo d') (title d')))).
  { intros pt Hpt. split.
    - intros Hpr.
      destruct (proj1 (Forall_forall _ _) Hwf pt Hpt) as [[k s] Hk].
      destruct (keyed_inv _ _ _ Hk) as (-> & Hpr' & Hkey & _).
      rewrite Hpr' in Hpr. injection Hpr as Hr Ht.
      rewrite Hkey. unfold doc_pair in *. simpl in *. congruence.
    - intros Hkey. rewrite (Hsep pt pt0) by congruence. exact Hpr0. }
  split; [exact Hiff|]. split; [exact Hcount|].
  exists i, pt0. split; [done|]. split; [done|].
  split; [exact (keyed_described _ _ _ Hk0)|].
  intros j pt' Hj Hpt' Hpr.
  apply (Hfirst j pt' Hj Hpt').
  apply Hiff; [by apply list_elem_of_lookup_2 in Hpt'|done].
Qed.

Definition policy_point (source_url : string) (title_ : string) (type : string)
  : JsVal :=
  JObj [ (lit "id", JStr (lit "point"));
         (lit "payload",
           JObj [ (lit "title", JStr (lit title_));
                  (lit "document_type", JStr (lit type));
                  (lit "source_url", JStr (lit source_url)) ]) ].

(** Two chunks of one document and one chunk of another. *)
Definition sample_points : list JsVal :=
  [ policy_point "form://acme/Policy A" "Policy A" "policy";
    policy_point "form://acme/Policy B" "Policy B" "contract";
    policy_point "form://acme/Policy A" "Policy A" "memo" ].

Lemma catalog_groups_points_witness :
  ∃ repos documents,
    catalog (H := sample_externals) sample_points
    = Ok {| status := 200;
            body := BDocuments repos documents (length documents) 3 |}
    ∧ NoDup (doc_pair <$> documents)
    ∧ ∀ d, d ∈ documents →
        chunks d
        = length (filter (λ pt, key_of (H := sample_externals) pt
                                = Some (key_text (H := sample_externals)
                                                (repo d) (title d)))
                         sample_points).
Proof.
  destruct (catalog_groups_points (H := sample_externals) sample_points)
    as (repos & documents & Hcat & Hnd & _ & Hdocs).
  - repeat constructor; by eexists.
  - intros pt pt' Hpt Hpt'.
    repeat (apply elem_of_cons in Hpt as [->|Hpt]);
      try (by apply elem_of_nil in Hpt);
      repeat (apply elem_of_cons in Hpt' as [->|Hpt']);
      try (by apply elem_of_nil in Hpt');
      vm_compute; congruence.
  - exists repos, documents. split; [exact Hcat|]. split; [exact Hnd|].
    intros d Hd. by destruct (Hdocs d Hd) as (_ & ? & _).
Defined.

(** The keys are separate when the derived repos and titles are strings
    and no repo contains a colon. *)
Lemma app_separator_inj (c : N) (a a' b b' : jsstring) :
  c ∉ a → c ∉ a' → a ++ c :: b = a' ++ c :: b' → a = a' ∧ b = b'.
Proof.
  revert a'. induction a as [|x a IH]; intros [|x' a'] Ha Ha' Heq; simpl in *.
  - by injection Heq.
  - injection Heq as <- _. exfalso. apply Ha'. left.
  - injection Heq as -> _. exfalso. apply Ha. left.
  - injection Heq as -> Heq.
    apply not_elem_of_cons in Ha as [_ Ha].
    apply not_elem_of_cons in Ha' as [_ Ha'].
    destruct (IH a' Ha Ha' Heq) as [-> ->]. done.
Qed.

Lemma keys_separate_without_colon `{Externals} (points : list JsVal) :
  (∀ pt r t, pt ∈ points → pair_of pt = Some (r, t) →
     ∃ rs ts, r = JStr rs ∧ t = JStr ts ∧ 58 ∉ rs) →
  keys_separate points.
Proof.
  intros Hstr pt pt' Hpt Hpt'. unfold key_of, keyed.
  pose proof (Hstr pt) as Hs. pose proof (Hstr pt') as Hs'.
  unfold pair_of in *.
  assert (Hkey : ∀ a b, doc_key (JStr a) (JStr b) = Ok (a ++ lit "::" ++ b))
    by done.
  destruct (derive pt) as [[[p r] t]| |];
    [destruct (Hs r t Hpt eq_refl) as (rs & ts & -> & -> & Hrs)|..];
    (destruct (derive pt') as [[[p' r'] t']| |];
       [destruct (Hs' r' t' Hpt' eq_refl) as (rs' & ts' & -> & -> & Hrs')|..]);
    rewrite ?Hkey; try done.
  change (lit "::") with [58; 58]. simpl. intros [= Heq].
  destruct (app_separator_inj 58 _ _ _ _ Hrs Hrs' Heq) as [-> Heq'].
  by injection Heq' as ->.
Qed.

(** ** The catalog: counts *)

Definition sum_chunks (docMap : list (jsstring * Doc)) : nat :=
  sum_list_with (λ kd, chunks kd.2) docMap.

Lemma sum_chunks_update (k : jsstring) (docMap : list (jsstring * Doc)) :
  is_Some (own k docMap) →
  sum_chunks (update_own incr_chunks k docMap) = S (sum_chunks docMap).
Proof.
  unfold sum_chunks. induction docMap as [|[k0 d] docMap IH]; simpl.
  - by intros [??].
  - unfold str_eqb. case_bool_decide; simpl; [lia|].
    intros Hown. rewrite IH by done. lia.
Qed.

Lemma sum_chunks_add_point (docMap : list (jsstring * Doc)) (entry : jsstring * Doc) :
  chunks entry.2 = 0%nat →
  sum_chunks (add_point docMap entry) = S (sum_chunks docMap).
Proof.
  intros Hzero. unfold add_point.
  destruct (own entry.1 docMap) as [d|] eqn:Hown.
  - apply sum_chunks_update. by rewrite Hown.
  - rewrite sum_chunks_update.
    + unfold sum_chunks. rewrite sum_list_with_app. simpl. lia.
    + rewrite own_app, Hown. destruct entry as [k s]. simpl.
      unfold str_eqb. by rewrite bool_decide_eq_true_2.
Qed.

Lemma sum_chunks_fold (entries : list (jsstring * Doc)) :
  Forall (λ e, chunks e.2 = 0%nat) entries →
  sum_chunks (foldl add_point [] entries) = length entries.
Proof.
  induction entries as [|e entries IH] using rev_ind; [done|].
  intros [Hentries He]%Forall_app. apply Forall_inv in He.
  rewrite foldl_app, length_app. cbn [foldl length].
  rewrite sum_chunks_add_point by exact He. rewrite IH by done. lia.
Qed.

(** X15: when lines 427-440 throw on no point, every point is counted
    in exactly one document: the [chunks] of the documents add
    up to [total_chunks], the number of points scanned. *)
Theorem catalog_chunks_add_up `{Externals} (points : list JsVal) :
  Forall (λ pt, is_Some (keyed pt)) points →
  ∃ repos documents,
    catalog points
    = Ok {| status := 200;
            body := BDocuments repos documents (length documents)
                               (length points) |}
    ∧ sum_list_with chunks documents = length points.
Proof.
  intros Hwf. destruct (keyed_entries points Hwf) as [entries Hall].
  eexists _, _. split; [exact (catalog_run points entries Hall)|].
  rewrite (Forall2_length _ _ _ Hall).
  rewrite <- (sum_chunks_fold entries).
  - unfold sum_chunks. generalize (foldl add_point [] entries).
    intros l. induction l as [|[k d] l IH]; simpl; [done|]. by f_equal.
  - apply Forall_forall. intros [k s] Hin.
    apply list_elem_of_lookup in Hin as [i Hi].
    destruct (Forall2_lookup_r _ _ _ _ _ Hall Hi) as (pt & _ & Hk).
    by destruct (keyed_inv _ _ _ Hk) as (_ & _ & _ & ?).
Qed.

Lemma catalog_chunks_add_up_witness :
  ∃ repos documents,
    catalog (H := sample_externals) sample_points
    = Ok {| status := 200;
            body := BDocuments repos documents (length documents) 3 |}
    ∧ sum_list_with chunks documents = 3%nat.
Proof.
  apply (catalog_chunks_add_up (H := sample_externals) sample_points).
  repeat constructor; by eexists.
Defined.

(** X16: when lines 427-440 throw on no point, the order in which the
    store returns the points changes neither which documents there are
    nor their counts: for a permutation of the points, the catalog has
    as many documents, and
    each document has a document of the same key [repo::title] with
    the same [chunks] in the other catalog. *)
Theorem catalog_counts_ignore_order `{Externals} (points points' : list JsVal) :
  Forall (λ pt, is_Some (keyed pt)) points →
  points ≡ₚ points' →
  ∃ repos documents repos' documents',
    catalog points
    = Ok {| status := 200;
            body := BDocuments repos documents (length documents)
                               (length points) |}
    ∧ catalog points'
      = Ok {| status := 200;
              body := BDocuments repos' documents' (length documents')
                                 (length points') |}
    ∧ length documents' = length documents
    ∧ ∀ d, d ∈ documents →
        ∃ d', d' ∈ documents'
              ∧ key_text (repo d') (title d') = key_text (repo d) (title d)
              ∧ chunks d' = chunks d.
Proof.
  intros Hwf Hperm.
  assert (Hwf' : Forall (λ pt, is_Some (keyed pt)) points') by by rewrite <- Hperm.
  destruct (keyed_entries points Hwf) as [entries Hall].
  destruct (keyed_entries points' Hwf') as [entries' Hall'].
  set (docMap := foldl add_point [] entries).
  set (docMap' := foldl add_point [] entries').
  assert (Hsame : ∀ k d, (k, d) ∈ docMap →
            ∃ d', (k, d') ∈ docMap' ∧ k = key_text (repo d) (title d)
                  ∧ k = key_text (repo d') (title d') ∧ chunks d' = chunks d).
  { intros k d Hin.
    destruct (docMap_entries _ _ _ _ Hall Hin) as (Hk & Hc & i & pt & Hi & Hpt & _).
    destruct (keyed_inv _ _ _ Hpt) as (_ & _ & Hkey & _).
    apply list_elem_of_lookup_2 in Hi. rewrite Hperm in Hi.
    destruct (docMap_covers _ _ _ _ Hall' Hi Hkey) as [d' Hd'].
    destruct (docMap_entries _ _ _ _ Hall' Hd') as (Hk' & Hc' & _).
    exists d'. split; [done|]. split; [done|]. split; [done|].
    rewrite Hc, Hc'. by rewrite Hperm. }
  assert (Hback : ∀ k d', (k, d') ∈ docMap' → ∃ d, (k, d) ∈ docMap).
  { intros k d' Hin.
    destruct (docMap_entries _ _ _ _ Hall' Hin) as (_ & _ & i & pt & Hi & Hpt & _).
    destruct (keyed_inv _ _ _ Hpt) as (_ & _ & Hkey & _).
    apply list_elem_of_lookup_2 in Hi. rewrite <- Hperm in Hi.
    apply (docMap_covers _ _ _ _ Hall Hi Hkey). }
  exists (sort_repos (obj_values (foldl summarize [] docMap.*2))), docMap.*2,
         (sort_repos (obj_values (foldl summarize [] docMap'.*2))), docMap'.*2.
  split; [exact (catalog_run points entries Hall)|].
  split; [exact (catalog_run points' entries' Hall')|].
  split.
  - rewrite !length_fmap.
    rewrite <- (length_fmap fst docMap'), <- (length_fmap fst docMap).
    apply Permutation_length. apply NoDup_Permutation.
    + apply (foldl_add_point entries').
    + apply (foldl_add_point entries).
    + intros k. split.
      * intros ([k' d'] & -> & Hin)%list_elem_of_fmap.
        destruct (Hback _ _ Hin) as [d Hd].
        apply list_elem_of_fmap. by exists (k', d).
      * intros ([k' d] & -> & Hin)%list_elem_of_fmap.
        destruct (Hsame _ _ Hin) as (d' & Hd' & _).
        apply list_elem_of_fmap. by exists (k', d').
  - intros d ([k d0] & -> & Hin)%list_elem_of_fmap. simpl.
    destruct (Hsame _ _ Hin) as (d' & Hd' & Hk & Hk' & Hc).
    exists d'. split; [|split; [congruence|done]].
    apply list_elem_of_fmap. by exists (k, d').
Qed.

Lemma catalog_counts_ignore_order_witness :
  ∃ repos documents repos' documents',
    catalog (H := sample_externals) sample_points
    = Ok {| status := 200;
            body := BDocuments repos documents (length documents) 3 |}
    ∧ catalog (H := sample_externals) (reverse sample_points)
      = Ok {| status := 200;
              body := BDocuments repos' documents' (length documents') 3 |}
    ∧ length documents' = length documents.
Proof.
  destruct (catalog_counts_ignore_order (H := sample_externals) sample_points
              (reverse sample_points))
    as (repos & documents & repos' & documents' & Hc & Hc' & Hlen & _).
  - repeat constructor; by eexists.
  - by rewrite reverse_Permutation.
  - by exists repos, documents, repos', documents'.
Defined.

(** ** The catalog: repo summaries *)

Lemma insert_index_perm {V} (i : N) (v : V) (sorted : list (N * V)) :
  insert_index i v sorted ≡ₚ (i, v) :: sorted.
Proof.
  induction sorted as [|[j w] rest IH]; [done|]. simpl.
  destruct (i <? j); [done|]. rewrite IH. apply Permutation_swap.
Qed.

(** [Object.values] lists every own property once. *)
Lemma obj_values_perm {V} (o : list (jsstring * V)) : obj_values o ≡ₚ o.*2.
Proof.
  unfold obj_values. induction o as [|[k v] o IH]; [done|].
  cbn [foldr fst snd]. rewrite filter_cons. cbn [fst].
  destruct (array_index k) as [i|] eqn:Hk.
  - rewrite decide_False by done.
    rewrite insert_index_perm. cbn. by rewrite IH.
  - rewrite decide_True by done. rewrite fmap_cons. cbn [snd].
    rewrite <- Permutation_middle. by rewrite IH.
Qed.

Definition more_documents (a b : RepoSummary) : Prop :=
  (doc_count b ≤ doc_count a)%nat.

Lemma insert_repo_perm (x : RepoSummary) (sorted : list RepoSummary) :
  insert_repo x sorted ≡ₚ x :: sorted.
Proof.
  induction sorted as [|y rest IH]; [done|]. simpl.
  destruct (doc_count x <? doc_count y)%nat; [|done].
  rewrite IH. apply Permutation_swap.
Qed.

Lemma sort_repos_perm (l : list RepoSummary) : sort_repos l ≡ₚ l.
Proof.
  unfold sort_repos. induction l as [|x l IH]; [done|]. simpl.
  by rewrite insert_repo_perm, IH.
Qed.

Lemma insert_repo_sorted (x : RepoSummary) (sorted : list RepoSummary) :
  StronglySorted more_documents sorted →
  StronglySorted more_documents (insert_repo x sorted).
Proof.
  induction 1 as [|y rest Hrest IH Hall]; simpl.
  - repeat constructor.
  - destruct (Nat.ltb_spec (doc_count x) (doc_count y)) as [Hlt|Hge].
    + constructor; [exact IH|].
      rewrite insert_repo_perm. constructor; [|exact Hall].
      unfold more_documents. lia.
    + constructor; [by constructor|].
      constructor; [unfold more_documents; lia|].
      eapply Forall_impl; [exact Hall|].
      intros z Hz. unfold more_documents in *. lia.
Qed.

Lemma sort_repos_sorted (l : list RepoSummary) :
  StronglySorted more_documents (sort_repos l).
Proof.
  unfold sort_repos. induction l as [|x l IH]; simpl.
  - constructor.
  - by apply insert_repo_sorted.
Qed.

(** A document is counted in a summary unless the name of its repo is
    that of a member of [Object.prototype]: [repoMap[name]] then finds
    the inherited member, no entry is created, and the increments go to
    that member. *)
Definition counted `{Externals} (d : Doc) : Prop :=
  inherited (to_text (repo d)) = false.

Global Instance counted_dec `{Externals} (d : Doc) : Decision (counted d).
Proof. unfold counted. apply _. Defined.

Lemma update_own_absent {V} (f : V → V) (k : jsstring) (o : list (jsstring * V)) :
  own k o = None → update_own f k o = o.
Proof.
  induction o as [|[k0 v] o IH]; [done|]. simpl. unfold str_eqb.
  case_bool_decide; [done|]. intros Hown. by rewrite IH.
Qed.

Lemma sum_update_own {V} (g : V → nat) (f : V → V) (k : jsstring) (v : V)
    (o : list (jsstring * V)) :
  own k o = Some v →
  (sum_list_with (λ kv, g kv.2) (update_own f k o) + g v
   = sum_list_with (λ kv, g kv.2) o + g (f v))%nat.
Proof.
  induction o as [|[k0 v0] o IH]; [done|]. simpl. unfold str_eqb.
  case_bool_decide; simpl.
  - intros [= ->]. lia.
  - intros Hown. specialize (IH Hown). lia.
Qed.

Lemma repo_fold `{Externals} (docs : list Doc) :
  let repoMap := foldl summarize [] docs in
  (∀ k, inherited k = true → own k repoMap = None)
  ∧ sum_list_with (λ kv, doc_count kv.2) repoMap = length (filter counted docs)
  ∧ sum_list_with (λ kv, total_chunks kv.2) repoMap
    = sum_list_with chunks (filter counted docs).
Proof.
  induction docs as [|d docs IH] using rev_ind; [done|].
  cbv zeta in *. rewrite foldl_app. cbn [foldl].
  set (repoMap := foldl summarize [] docs) in *.
  destruct IH as (Hinh & Hcount & Hchunks).
  rewrite filter_app, length_app, sum_list_with_app.
  unfold summarize, has_key. set (key := to_text (repo d)).
  destruct (inherited key) eqn:Hkey.
  - rewrite orb_true_r, (update_own_absent _ _ _ (Hinh key Hkey)).
    rewrite filter_cons_False by (unfold counted; fold key; congruence).
    rewrite filter_nil. simpl. split; [done|]. split; lia.
  - rewrite orb_false_r.
    rewrite filter_cons_True by exact Hkey. rewrite filter_nil. simpl.
    set (bump := λ r : RepoSummary,
           {| name := name r; doc_count := S (doc_count r);
              total_chunks := total_chunks r + chunks d |}).
    destruct (own key repoMap) as [r|] eqn:Hown.
    + rewrite bool_decide_eq_true_2 by done.
      pose proof (sum_update_own doc_count bump key r repoMap Hown) as Hc.
      pose proof (sum_update_own total_chunks bump key r repoMap Hown) as Ht.
      simpl in Hc, Ht. split; [|split; lia].
      intros k Hk. rewrite own_update_own.
      case_decide; [congruence|by apply Hinh].
    + rewrite bool_decide_eq_false_2 by (by intros [??]).
      set (fresh := {| name := repo d; doc_count := 0; total_chunks := 0 |}).
      assert (Hnew : own key (repoMap ++ [(key, fresh)]) = Some fresh).
      { rewrite own_app, Hown. simpl. unfold str_eqb.
        by rewrite bool_decide_eq_true_2. }
      pose proof (sum_update_own doc_count bump key fresh _ Hnew) as Hc.
      pose proof (sum_update_own total_chunks bump key fresh _ Hnew) as Ht.
      rewrite sum_list_with_app in Hc, Ht. simpl in Hc, Ht.
      split; [|split; lia].
      intros k Hk. rewrite own_update_own.
      case_decide; [congruence|].
      rewrite own_app, (Hinh k Hk). simpl. unfold str_eqb.
      by rewrite bool_decide_eq_false_2.
Qed.

(** X17: when lines 427-440 throw on no point, the repo summaries of
    the catalog come sorted by descending [doc_count]; their [doc_count]s add up to the number of documents
    whose repo is not named like a member of [Object.prototype], and
    their [total_chunks] to the chunks of those documents: a document
    whose repo is named like such a member is counted in no summary. *)
Theorem catalog_repo_summaries `{Externals} (points : list JsVal) :
  Forall (λ pt, is_Some (keyed pt)) points →
  ∃ repos documents,
    catalog points
    = Ok {| status := 200;
            body := BDocuments repos documents (length documents)
                               (length points) |}
    ∧ StronglySorted more_documents repos
    ∧ sum_list_with doc_count repos = length (filter counted documents)
    ∧ sum_list_with total_chunks repos
      = sum_list_with chunks (filter counted documents)
    ∧ (sum_list_with doc_count repos ≤ length documents)%nat.
Proof.
  intros Hwf. destruct (keyed_entries points Hwf) as [entries Hall].
  eexists _, _. split; [exact (catalog_run points entries Hall)|].
  set (documents := (foldl add_point [] entries).*2).
  destruct (repo_fold documents) as (_ & Hcount & Hchunks).
  assert (Hsum : ∀ g : RepoSummary → nat,
            sum_list_with g (sort_repos (obj_values (foldl summarize [] documents)))
            = sum_list_with (λ kv, g kv.2) (foldl summarize [] documents)).
  { intros g. rewrite sort_repos_perm, obj_values_perm.
    generalize (foldl summarize [] documents). intros l.
    induction l as [|[k r] l IH]; simpl; [done|]. by f_equal. }
  split; [apply sort_repos_sorted|].
  rewrite !Hsum. split; [exact Hcount|]. split; [exact Hchunks|].
  rewrite Hcount. apply length_filter.
Qed.

Lemma catalog_repo_summaries_witness :
  ∃ repos documents,
    catalog (H := sample_externals) sample_points
    = Ok {| status := 200;
            body := BDocuments repos documents (length documents) 3 |}
    ∧ StronglySorted more_documents repos
    ∧ sum_list_with doc_count repos
      = length (filter (counted (H := sample_externals)) documents).
Proof.
  destruct (catalog_repo_summaries (H := sample_externals) sample_points)
    as (repos & documents & Hc & Hs & Hd & _).
  - repeat constructor; by eexists.
  - by exists repos, documents.
Defined.

(** ** The scan: what it collects *)

(** X18: when the store answers page after page with a point set and a
    cursor, each bare or nested under [result], until a page without
    cursor or without points, and lines 427-440 throw on none of the
    points, the catalog is built from the points of all the pages (of
    the first twenty when there are more): [total_chunks] is their
    number, one request is made per page, and the process state is
    untouched. *)
Theorem documents_scan_collects_every_page `{Externals}
    (cfg : Config) (env : Env) (st : State) (pages : list (list JsVal)) :
  pages_of env 0 JNull pages true →
  Forall (λ pt, is_Some (keyed pt)) (concat (take 20 pages)) →
  let run := documents_handler cfg env st in
  ∃ repos documents,
    catalog (concat (take 20 pages))
    = Ok {| status := 200;
            body := BDocuments repos documents (length documents)
                      (length (concat (take 20 pages))) |}
    ∧ result_of run
      = Ok {| status := 200;
              body := BDocuments repos documents (length documents)
                        (length (concat (take 20 pages))) |}
    ∧ state_of run = st
    ∧ length (trace_of run) = (20 `min` length pages)%nat.
Proof.
  intros Hpages Hwf. cbv zeta.
  destruct (keyed_entries _ Hwf) as [entries Hall].
  pose proof (catalog_run _ _ Hall) as Hcat. cbv zeta in Hcat.
  eexists _, _. split; [exact Hcat|].
  rewrite documents_handler_run. cbv zeta.
  destruct (scroll_pages_collects cfg env maxPages 0 JNull [] st pages Hpages)
    as (Hres & Hst & Htr).
  rewrite Hres. cbn [app]. change maxPages with 20%nat. by rewrite Hcat.
Qed.

Definition page_point : JsVal :=
  JObj [ (lit "id", JStr (lit "p"));
         (lit "payload",
           JObj [ (lit "title", JStr (lit "Policy A"));
                  (lit "source_url", JStr (lit "form://acme/Policy A")) ]) ].

(** A store of three pages: the first answers bare, the second under a
    [result] wrapper, the third has no cursor. *)
Definition three_pages_env : Env :=
  {| upstream := λ page _,
       match page with
       | 0%nat =>
           UpBody (Some (JObj [ (lit "points", JArr [page_point]);
                                (lit "next_page_offset", JStr (lit "p1")) ]))
       | 1%nat =>
           UpBody (Some (JObj
             [ (lit "result",
                 JObj [ (lit "points", JArr [page_point; page_point]);
                        (lit "next_page_offset", JStr (lit "p2")) ]);
               (lit "status", JStr (lit "ok")) ]))
       | _ => UpBody (Some (JObj [ (lit "points", JArr [page_point]) ]))
       end;
     connect_error := None; db_fault := λ _, None;
     iso_now := []; db_now := 0 |}.

Lemma three_pages :
  pages_of three_pages_env 0 JNull
    [[page_point]; [page_point; page_point]; [page_point]] true.
Proof.
  eapply pages_more; [reflexivity..|done|reflexivity|].
  eapply pages_more; [reflexivity..|done|reflexivity|].
  eapply pages_last; [reflexivity..|by left].
Qed.

Lemma documents_scan_collects_every_page_witness :
  let run :=
    documents_handler (H := sample_externals) sample_config three_pages_env
      (connected_state three_fresh_rows) in
  ∃ repos documents,
    result_of run
    = Ok {| status := 200;
            body := BDocuments repos documents (length documents) 4 |}
    ∧ state_of run = connected_state three_fresh_rows
    ∧ length (trace_of run) = 3%nat.
Proof.
  destruct (documents_scan_collects_every_page (H := sample_externals)
              sample_config three_pages_env (connected_state three_fresh_rows)
              [[page_point]; [page_point; page_point]; [page_point]])
    as (repos & documents & _ & Hres & Hst & Htr).
  - exact three_pages.
  - repeat constructor; by eexists.
  - by exists repos, documents.
Defined.

(** X19: when a scroll call fails (no JSON body, a transport error or
    the timeout) before the scan is over, the answer is a 502 with the
    error's message and one logged error: the points of the pages
    already read are not returned. *)
Theorem documents_page_failure_is_502 `{Externals}
    (cfg : Config) (env : Env) (st : State) (pages : list (list JsVal)) :
  pages_of env 0 JNull pages false →
  (length pages < 20)%nat →
  let run := documents_handler cfg env st in
  ∃ message calls,
    run = (Ok (json 502 (error_body message)), st,
           calls ++ [EConsoleError (lit "Documents error:") message])
    ∧ length calls = S (length pages).
Proof.
  intros Hpages Hlen. cbv zeta. rewrite documents_handler_run. cbv zeta.
  destruct (scroll_pages_fails cfg env maxPages 0 JNull [] st pages Hpages Hlen)
    as (message & Hres & Hst & Htr).
  rewrite Hres, Hst. by eexists _, _.
Qed.

(** A store whose second page cannot be read. *)
Definition second_page_lost_env : Env :=
  {| upstream := λ page _,
       if (page <? 1)%nat then UpBody (Some (one_point_page true))
       else UpError (lit "socket hang up");
     connect_error := None; db_fault := λ _, None;
     iso_now := []; db_now := 0 |}.

Lemma documents_page_failure_is_502_witness :
  ∃ message calls,
    documents_handler (H := sample_externals) sample_config second_page_lost_env
      (connected_state three_fresh_rows)
    = (Ok (json 502 (error_body message)), connected_state three_fresh_rows,
       calls ++ [EConsoleError (lit "Documents error:") message])
    ∧ length calls = 2%nat.
Proof.
  apply (documents_page_failure_is_502 (H := sample_externals) sample_config
           second_page_lost_env (connected_state three_fresh_rows) [[page_point]]).
  - eapply pages_more; [reflexivity..|done|reflexivity|].
    by apply pages_failed.
  - simpl. lia.
Defined.

(** ** Answers that survive the log *)

Lemma settled_call_trim (what : string) (v : JsVal) : settled (call_trim what v).
Proof. by destruct v. Qed.

Lemma settled_log_params `{Externals} (question result : JsVal) :
  settled (log_params question result).
Proof.
  unfold log_params.
  apply settled_bind; [apply settled_call_trim|intros ?].
  repeat (apply settled_bind; [apply settled_get_prop|intros ?]).
  apply settled_bind; [apply settled_ToString|done].
Qed.

(** With no client or a connected one in [db] and a connection that
    stays up, the awaited steps of a logging block all settle. *)
Lemma logged_statement_settles `{Externals} {A} cfg env (args : Res A)
    (stmt : A → Stmt) label st :
  db st = None ∨ db st = Some {| connected := true |} →
  (∀ s, db_fault env s ≠ Some ConnectionLost) →
  settled args →
  result_of
    (try_catch
       (pg <- getDb cfg env ;;
        match pg with
        | Some c => a <- lift args ;; _ <- pg_query c env (stmt a) ;; ret tt
        | None => ret tt
        end)
       (λ dbErr, console_error label dbErr) st)
  = Ok tt.
Proof.
  intros Hdb Hup Hargs. rewrite try_catch_run, bind_run, getDb_run.
  assert (Hquery : ∀ st',
    match result_of ((a <- lift args ;;
                      _ <- pg_query {| connected := true |} env (stmt a) ;;
                      ret tt) st')
    with Halted _ => False | _ => True end).
  { intros st'. rewrite bind_run. cbn [lift result_of state_of trace_of fst snd].
    destruct args as [a|e|why]; [|done..].
    rewrite bind_run, pg_query_run. cbn [connected].
    pose proof (Hup (stmt a)) as Hs.
    destruct (db_fault env (stmt a)) as [[?|]|]; [done|done|].
    pose proof (pg_exec_settles (db_now env) (stmt a) (server st')) as Hexec.
    destruct (pg_exec _ _ _) as [[r srv]|e|why]; [done|done|].
    by destruct (Hexec why). }
  destruct Hdb as [Hdb|Hdb]; rewrite Hdb.
  - destruct (bool_decide (PG_URL cfg = [])); [done|].
    destruct (connect_error env); [done|]. cbv zeta.
    pose proof (Hup CreateTableIfNotExists) as Hcreate.
    destruct (db_fault env CreateTableIfNotExists) as [[?|]|]; [done|done|].
    cbn [result_of state_of trace_of fst snd].
    specialize (Hquery {| db := Some {| connected := true |};
                          server := with_table (server st) |}).
    by destruct (result_of _) as [[]|e|why].
  - cbn [result_of state_of trace_of fst snd].
    specialize (Hquery st).
    by destruct (result_of _) as [[]|e|why].
Qed.

(** X21: when [db] holds no client or a connected one and the
    connection stays up, a POST /api/ask whose upstream call has
    succeeded answers 200 with the normalized upstream result, whether
    the handle is acquired or not and whether the INSERT succeeds or is
    rejected. *)
Theorem ask_answer_survives_logging `{Externals}
    (cfg : Config) (env : Env) (req_body : JsVal) (q : jsstring)
    (parsed : JsVal) (st : State) :
  get_prop req_body "question" = Ok (JStr q) →
  (5 ≤ length (trim q))%nat →
  upstream env 0%nat (ask_payload q) = UpBody (Some parsed) →
  db st = None ∨ db st = Some {| connected := true |} →
  (∀ s, db_fault env s ≠ Some ConnectionLost) →
  result_of (ask cfg env req_body st) = Ok (json 200 (normalize parsed)).
Proof.
  intros Hq Hlen Hup Hdb Hstays.
  rewrite (ask_valid_run cfg env req_body q st Hq Hlen). cbv zeta.
  rewrite Hup. cbn [result_of fst]. unfold log_query.
  by rewrite (logged_statement_settles cfg env
                (log_params (JStr q) (normalize parsed)) InsertLog
                "DB log error:" st Hdb Hstays (settled_log_params _ _)).
Qed.

(** A rejected INSERT, on a handle acquired in the request itself. *)
Lemma ask_answer_survives_logging_witness :
  result_of
    (ask (H := sample_externals) sample_config
         (answering_env
            (λ s, match s with
                  | InsertLog _ =>
                      Some (Rejected (lit "permission denied for table query_log"))
                  | _ => None
                  end))
         ask_request {| db := None; server := empty_server |})
  = Ok (json 200 (JObj [ (lit "answer", JStr (lit "30 days"));
                         (lit "confidence", JStr (lit "HIGH")) ])).
Proof.
  apply (ask_answer_survives_logging (H := sample_externals) sample_config
           _ ask_request (lit " What is the notice period? ")
           (JArr [ JObj [ (lit "answer", JStr (lit "30 days"));
                          (lit "confidence", JStr (lit "HIGH")) ] ])
           {| db := None; server := empty_server |}).
  - reflexivity.
  - vm_compute. lia.
  - reflexivity.
  - by left.
  - intros s. by destruct s.
Defined.

(** X22: likewise, a POST /api/ingest whose upstream call has succeeded
    answers 200 with the normalized upstream result, whether or not the
    rows could be marked stale. *)
Theorem ingest_answer_survives_marking `{Externals}
    (cfg : Config) (env : Env) (req_body type repo : JsVal)
    (t c : jsstring) (parsed : JsVal) (st : State) :
  get_prop req_body "title" = Ok (JStr t) →
  get_prop req_body "type" = Ok type →
  get_prop req_body "repo" = Ok repo →
  get_prop req_body "content" = Ok (JStr c) →
  t ≠ [] → c ≠ [] →
  convertible repo = true →
  upstream env 0%nat (ingest_body t type repo c) = UpBody (Some parsed) →
  db st = None ∨ db st = Some {| connected := true |} →
  (∀ s, db_fault env s ≠ Some ConnectionLost) →
  result_of (ingest cfg env req_body st) = Ok (json 200 (normalize parsed)).
Proof.
  intros Ht Hty Hr Hc Htne Hcne Hrepo Hup Hdb Hstays.
  rewrite (ingest_valid_run cfg env req_body type repo t c st
             Ht Hty Hr Hc Htne Hcne Hrepo).
  cbv zeta. rewrite Hup. cbn [result_of fst]. unfold mark_cached_stale.
  by rewrite (logged_statement_settles cfg env
                (call_trim "title" (JStr t)) (λ t, mark_stale t (iso_now env))
                "DB stale-mark error:" st Hdb Hstays (settled_call_trim _ _)).
Qed.

Lemma ingest_answer_survives_marking_witness :
  result_of
    (ingest (H := sample_externals) sample_config faulty_db_env ingest_request
            (connected_state three_fresh_rows))
  = Ok (json 200 (JObj [])).
Proof.
  apply (ingest_answer_survives_marking (H := sample_externals) sample_config
           faulty_db_env ingest_request JUndefined JUndefined
           (lit " Policy B ") (lit "Notice is thirty days.") (JObj [])
           (connected_state three_fresh_rows)).
  - reflexivity.
  - reflexivity.
  - reflexivity.
  - reflexivity.
  - vm_compute. discriminate.
  - vm_compute. discriminate.
  - reflexivity.
  - reflexivity.
  - by right.
  - intros s. discriminate.
Defined.
